(** * Carnet d'adresses: the storage layer, the controller and the view's
      e-mail checker, embedded in Rocq.

    The Python sources are [model1.py] (class [CarnetAdresses]),
    [controleur.py] (class [Controller]) and [view.py] (class
    [ContactView]).  Every method that touches the database is written
    here as a function from the database to a result and the database
    that follows; what the SQLite engine does for each SQL statement of
    the source is written out in the module [Sql].

    Modelling choices, all of them about what lies outside the Python
    sources:
    - a Python [str] is a list of characters ([text]); a character is
      a code point below 256, so that Python's whitespace and SQLite's
      ASCII case folding are both defined on it;
    - a store whose [contacts] table has not been created yet and a
      store whose table is empty are the same state ([empty_db]): every
      method starts with [initialiser_base], so no call can tell them
      apart, and [CREATE TABLE IF NOT EXISTS] changes nothing;
    - LIKE reads the pattern and the text up to their first NUL, as
      the engine does, while [LOWER] and the comparisons of [ORDER BY]
      take the whole text;
    - an [int] that does not fit in the 64 bits of an SQLite INTEGER
      cannot be bound to a statement: [Appel] gives the methods that
      take an id with the [OverflowError] that follows, [CarnetAdresses]
      gives them on the ids that a table can hold, which are the ones
      the workflows pass;
    - the function behind LIKE refuses a pattern of more than 50 000
      bytes: the search then raises [OperationalError] as soon as the
      table has a line to test;
    - the other failures of the engine (input/output, a rowid space
      that is full after [2^63 - 1] insertions, a text of more than
      [10^9] bytes) are not modelled. *)

From Stdlib Require Import List Bool Arith NArith ZArith Lia.
From Stdlib Require Import Ascii String.
From Stdlib Require Import Permutation Sorted.
Import ListNotations.

Open Scope Z_scope.

(** ** Python values *)

Definition text := list ascii.

Definition txt (s : string) : text := list_ascii_of_string s.

Definition code (c : ascii) : N := N_of_ascii c.

Definition in_range (lo hi : N) (c : ascii) : bool :=
  ((lo <=? code c) && (code c <=? hi))%N.

(** The character of code 0. *)
Definition nul : ascii := Ascii.zero.

(** The 256 characters, in the order of their codes. *)
Definition tous_les_caracteres : list ascii :=
  map (fun n => ascii_of_N (N.of_nat n)) (seq 0 256).

(** [str.isspace] on one character: TAB, LF, VT, FF, CR, the four
    separators U+001C..U+001F, SPACE, NEL (U+0085) and NBSP (U+00A0). *)
Definition py_isspace (c : ascii) : bool :=
  in_range 9 13 c || in_range 28 32 c || (code c =? 133)%N || (code c =? 160)%N.

Fixpoint lstrip (s : text) : text :=
  match s with
  | c :: s' => if py_isspace c then lstrip s' else s
  | [] => []
  end.

Definition rstrip (s : text) : text := rev (lstrip (rev s)).

(** [s.strip()] *)
Definition strip (s : text) : text := rstrip (lstrip s).

(** Truth value of a [str]: [not s] is [negb (truthy s)]. *)
Definition truthy (s : text) : bool :=
  match s with [] => false | _ :: _ => true end.

(** Truth value of an optional argument ([None] or a [str]). *)
Definition truthy_opt (o : option text) : bool :=
  match o with Some s => truthy s | None => false end.

(** [x.strip() if x else None] *)
Definition strip_or_none (o : option text) : option text :=
  if truthy_opt o then option_map strip o else None.

Inductive exn : Type :=
| ValueError (message : string)
| TypeError (message : string)
| OverflowError (message : string)
| OperationalError (message : string).

Inductive result (A : Type) : Type :=
| Ok (a : A)
| Raise (e : exn).

Arguments Ok {A} a.
Arguments Raise {A} e.

(** ** The table [contacts] *)

(** One line of the table, the tuple
    [(id, nom, prenom, telephone, email, adresse)] that the queries
    return.  [nom] and [prenom] are [TEXT NOT NULL]; the three others
    may hold NULL, read back as [None]. *)
Record contact : Type := mkContact {
  c_id : Z;
  c_nom : text;
  c_prenom : text;
  c_telephone : option text;
  c_email : option text;
  c_adresse : option text
}.

(** The database file: the lines of [contacts] in the order a table
    scan visits them, and the counter that AUTOINCREMENT keeps in
    [sqlite_sequence] (the largest id handed out so far). *)
Record database : Type := mkDb {
  contacts : list contact;
  sqlite_sequence : Z
}.

Definition empty_db : database := mkDb [] 0.

Module Sql.

Definition max_rowid (rows : list contact) : Z :=
  fold_right (fun r m => Z.max (c_id r) m) 0 rows.

(** [INSERT INTO contacts (nom, prenom, telephone, email, adresse)
    VALUES (?, ?, ?, ?, ?)] on an AUTOINCREMENT key: the new id is one
    more than the largest id that ever was in the table.  Returns the
    database and [cursor.lastrowid]. *)
Definition insert (db : database)
    (nom prenom : text) (telephone email adresse : option text)
    : database * Z :=
  let rowid := Z.max (sqlite_sequence db) (max_rowid (contacts db)) + 1 in
  (mkDb (contacts db ++ [mkContact rowid nom prenom telephone email adresse])
        rowid,
   rowid).

Definition has_id (i : Z) (r : contact) : bool := c_id r =? i.

(** [SET nom = ?, ... WHERE id = ?] on one line *)
Definition set (i : Z) (nom prenom : text)
    (telephone email adresse : option text) (r : contact) : contact :=
  if has_id i r
  then mkContact (c_id r) nom prenom telephone email adresse
  else r.

(** [UPDATE contacts SET nom = ?, prenom = ?, telephone = ?, email = ?,
    adresse = ? WHERE id = ?].  Returns the database and
    [cursor.rowcount]. *)
Definition update (db : database)
    (nom prenom : text) (telephone email adresse : option text) (i : Z)
    : database * Z :=
  (mkDb (map (set i nom prenom telephone email adresse) (contacts db))
        (sqlite_sequence db),
   Z.of_nat (List.length (filter (has_id i) (contacts db)))).

(** [DELETE FROM contacts WHERE id = ?].  Returns the database and
    [cursor.rowcount]. *)
Definition delete (db : database) (i : Z) : database * Z :=
  (mkDb (filter (fun r => negb (has_id i r)) (contacts db))
        (sqlite_sequence db),
   Z.of_nat (List.length (filter (has_id i) (contacts db)))).

(** [SELECT ... FROM contacts WHERE id = ?] *)
Definition select_by_id (db : database) (i : Z) : list contact :=
  filter (has_id i) (contacts db).

(** [cursor.fetchone()] *)
Definition fetchone (rows : list contact) : option contact :=
  match rows with r :: _ => Some r | [] => None end.

(** The default collation, BINARY: texts compare character by
    character on their codes, a proper prefix coming first. *)
Fixpoint text_compare (a b : text) : comparison :=
  match a, b with
  | [], [] => Eq
  | [], _ :: _ => Lt
  | _ :: _, [] => Gt
  | x :: a', y :: b' =>
      match (code x ?= code y)%N with
      | Eq => text_compare a' b'
      | c => c
      end
  end.

(** [r1] may come before [r2] under [ORDER BY nom, prenom]. *)
Definition order_le (r1 r2 : contact) : bool :=
  match text_compare (c_nom r1) (c_nom r2) with
  | Lt => true
  | Gt => false
  | Eq => match text_compare (c_prenom r1) (c_prenom r2) with
          | Gt => false
          | _ => true
          end
  end.

Fixpoint place (r : contact) (sorted : list contact) : list contact :=
  match sorted with
  | [] => [r]
  | x :: rest => if order_le r x then r :: sorted else x :: place r rest
  end.

(** [ORDER BY nom, prenom].  SQL leaves the order of lines with equal
    keys open; here they keep the order of the table scan. *)
Definition order_by (rows : list contact) : list contact :=
  fold_right place [] rows.

(** [LOWER(x)]: only the letters A to Z are folded. *)
Definition ascii_lower (c : ascii) : ascii :=
  if in_range 65 90 c then ascii_of_N (code c + 32) else c.

Definition lower_text (s : text) : text := map ascii_lower s.

Definition lower (v : option text) : option text := option_map lower_text v.

Definition percent : ascii := "%"%char.
Definition underscore : ascii := "_"%char.

(** The comparison of LIKE, on two texts that hold no NUL: [%] stands
    for any run of characters, [_] for any one character, any other
    character for itself, the letters A to Z without regard to case. *)
Fixpoint glob (p s : text) : bool :=
  match p with
  | [] => match s with [] => true | _ :: _ => false end
  | c :: p' =>
      if Ascii.eqb c percent then
        (fix any_run (s : text) : bool :=
           glob p' s ||
           match s with [] => false | _ :: s' => any_run s' end) s
      else
        match s with
        | [] => false
        | d :: s' =>
            (Ascii.eqb c underscore || Ascii.eqb (ascii_lower c) (ascii_lower d))
            && glob p' s'
        end
  end.

(** A text as the comparison of LIKE reads it, a string of C: it ends
    before its first NUL. *)
Fixpoint c_string (s : text) : text :=
  match s with
  | [] => []
  | c :: s' => if Ascii.eqb c nul then [] else c :: c_string s'
  end.

(** [s LIKE p] on two texts: the pattern and the text are both read up
    to their first NUL. *)
Definition like_text (p s : text) : bool := glob (c_string p) (c_string s).

(** Three-valued logic: a comparison with NULL is NULL, and WHERE
    keeps a line only when its condition is true. *)
Definition like (x pattern : option text) : option bool :=
  match x, pattern with
  | Some s, Some p => Some (like_text p s)
  | _, _ => None
  end.

Definition or (a b : option bool) : option bool :=
  match a, b with
  | Some true, _ | _, Some true => Some true
  | Some false, Some false => Some false
  | _, _ => None
  end.

Definition is_true (v : option bool) : bool :=
  match v with Some true => true | _ => false end.

(** [SELECT ... FROM contacts WHERE LOWER(nom) LIKE LOWER(?)
    OR LOWER(telephone) LIKE LOWER(?) OR LOWER(email) LIKE LOWER(?)
    ORDER BY nom, prenom], the three parameters in order: the value of
    the condition on one line, and the lines selected, when no LIKE
    fails. *)
Definition where_like (p1 p2 p3 : text) (r : contact) : bool :=
  is_true
    (or (or (like (lower (Some (c_nom r))) (lower (Some p1)))
            (like (lower (c_telephone r)) (lower (Some p2))))
        (like (lower (c_email r)) (lower (Some p3)))).

Definition select_like (db : database) (p1 p2 p3 : text) : list contact :=
  order_by (filter (where_like p1 p2 p3) (contacts db)).

(** The length of a text in bytes, as SQLite holds it, in UTF-8: one
    byte for a character of code below 128, two for the others. *)
Definition utf8_length (s : text) : Z :=
  fold_right (fun c n => (if (code c <? 128)%N then 1 else 2) + n) 0 s.

(** The limit that SQLite puts on the pattern of a LIKE, in bytes. *)
Definition max_like_pattern_length : Z := 50000.

(** One call of the function behind LIKE: it measures the pattern
    first, all of it, and fails when the pattern is longer than the
    limit, whatever the text is. *)
Definition like_call (x pattern : option text) : result (option bool) :=
  if max_like_pattern_length
     <? match pattern with Some p => utf8_length p | None => 0 end
  then Raise (OperationalError "LIKE or GLOB pattern too complex")
  else Ok (like x pattern).

(** The WHERE clause of the search on one line, as the engine
    evaluates it: from left to right, the right side of an OR being
    left out when its left side is true. *)
Definition where_like_eval (p1 p2 p3 : text) (r : contact) : result bool :=
  match like_call (lower (Some (c_nom r))) (lower (Some p1)) with
  | Raise e => Raise e
  | Ok a =>
      if is_true a then Ok true
      else
        match like_call (lower (c_telephone r)) (lower (Some p2)) with
        | Raise e => Raise e
        | Ok b =>
            if is_true (or a b) then Ok true
            else
              match like_call (lower (c_email r)) (lower (Some p3)) with
              | Raise e => Raise e
              | Ok c => Ok (is_true (or (or a b) c))
              end
        end
  end.

(** The scan of the table: the lines in order, the first failure of
    the condition ending the statement. *)
Fixpoint scan (condition : contact -> result bool) (rows : list contact)
    : result (list contact) :=
  match rows with
  | [] => Ok []
  | r :: rest =>
      match condition r with
      | Raise e => Raise e
      | Ok keep =>
          match scan condition rest with
          | Raise e => Raise e
          | Ok l => Ok (if keep then r :: l else l)
          end
      end
  end.

(** [cursor.execute] of the search, then [cursor.fetchall()]: the
    lines of [select_like], or the failure of a LIKE. *)
Definition execute_select_like (db : database) (p1 p2 p3 : text)
    : result (list contact) :=
  match scan (where_like_eval p1 p2 p3) (contacts db) with
  | Raise e => Raise e
  | Ok l => Ok (order_by l)
  end.

(** [SELECT ... FROM contacts ORDER BY nom, prenom] *)
Definition select_all (db : database) : list contact :=
  order_by (contacts db).

(** The largest INTEGER that SQLite holds, [2^63 - 1]. *)
Definition max_integer : Z := 9223372036854775807.

(** A Python [int] among the parameters of [cursor.execute]: it is
    bound as a 64-bit integer, and one that does not fit raises
    [OverflowError] before the statement runs. *)
Definition bind_int (i : Z) : result Z :=
  if (- max_integer - 1 <=? i) && (i <=? max_integer) then Ok i
  else Raise (OverflowError "Python int too large to convert to SQLite INTEGER").

End Sql.

(** ** [model1.py]: class [CarnetAdresses]

    Where a method takes [contact_id], it is given here on an id that
    fits in 64 bits; [Appel], below, has the same methods for any
    [int]. *)

Module CarnetAdresses.

(** [CREATE TABLE IF NOT EXISTS contacts (...)], then commit and close. *)
Definition initialiser_base (db : database) : database := db.

Definition ajouter_contact
    (nom prenom : text) (telephone email adresse : option text)
    (db : database) : result Z * database :=
  if negb (truthy nom) || negb (truthy (strip nom)) then
    (Raise (ValueError "Le nom est obligatoire"), db)
  else if negb (truthy prenom) || negb (truthy (strip prenom)) then
    (Raise (ValueError "Le prénom est obligatoire"), db)
  else
    let db := initialiser_base db in
    let nom := strip nom in
    let prenom := strip prenom in
    let telephone := strip_or_none telephone in
    let email := strip_or_none email in
    let adresse := strip_or_none adresse in
    let '(db, lastrowid) := Sql.insert db nom prenom telephone email adresse in
    let contact_id := lastrowid in
    (Ok contact_id, db).

(** [not contact_id or contact_id <= 0] *)
Definition id_invalide (contact_id : Z) : bool :=
  (contact_id =? 0) || (contact_id <=? 0).

Definition modifier_contact
    (contact_id : Z) (nom prenom : text) (telephone email adresse : option text)
    (db : database) : result bool * database :=
  if id_invalide contact_id then
    (Raise (ValueError "L'identifiant du contact est invalide"), db)
  else if negb (truthy nom) || negb (truthy (strip nom)) then
    (Raise (ValueError "Le nom est obligatoire"), db)
  else if negb (truthy prenom) || negb (truthy (strip prenom)) then
    (Raise (ValueError "Le prénom est obligatoire"), db)
  else
    let db := initialiser_base db in
    let nom := strip nom in
    let prenom := strip prenom in
    let telephone := strip_or_none telephone in
    let email := strip_or_none email in
    let adresse := strip_or_none adresse in
    let '(db, rowcount) :=
      Sql.update db nom prenom telephone email adresse contact_id in
    let lignes_modifiees := rowcount in
    (Ok (0 <? lignes_modifiees), db).

Definition supprimer_contact (contact_id : Z) (db : database)
    : result bool * database :=
  if id_invalide contact_id then
    (Raise (ValueError "L'identifiant du contact est invalide"), db)
  else
    let db := initialiser_base db in
    let '(db, rowcount) := Sql.delete db contact_id in
    let lignes_supprimees := rowcount in
    (Ok (0 <? lignes_supprimees), db).

Definition obtenir_contact_par_id (contact_id : Z) (db : database)
    : result (option contact) * database :=
  if id_invalide contact_id then
    (Raise (ValueError "L'identifiant du contact est invalide"), db)
  else
    let db := initialiser_base db in
    let contact := Sql.fetchone (Sql.select_by_id db contact_id) in
    (Ok contact, db).

Definition rechercher_contact (critere : text) (db : database)
    : result (list contact) * database :=
  if negb (truthy critere) || negb (truthy (strip critere)) then
    (Raise (ValueError "Le critère de recherche est obligatoire"), db)
  else
    let db := initialiser_base db in
    let critere := strip critere in
    let pattern := txt "%" ++ critere ++ txt "%" in
    match Sql.execute_select_like db pattern pattern pattern with
    | Raise e => (Raise e, db)
    | Ok resultats => (Ok resultats, db)
    end.

Definition afficher_tous (db : database) : result (list contact) * database :=
  let db := initialiser_base db in
  let resultats := Sql.select_all db in
  (Ok resultats, db).

End CarnetAdresses.

(** ** [model1.py], the id being any Python [int]

    In [CarnetAdresses] above [contact_id] is an id as the table holds
    them, a 64-bit integer: the workflows of [controleur.py] pass only
    ids that they have read in the table.  Another caller can pass any
    [int]; the three methods that take an id are written here with the
    step where [cursor.execute] binds it.  When that step fails the
    exception leaves the method: nothing has been written, and the
    [conn.close()] that follows is not reached. *)

Module Appel.

Import CarnetAdresses.

Definition modifier_contact
    (contact_id : Z) (nom prenom : text) (telephone email adresse : option text)
    (db : database) : result bool * database :=
  if id_invalide contact_id then
    (Raise (ValueError "L'identifiant du contact est invalide"), db)
  else if negb (truthy nom) || negb (truthy (strip nom)) then
    (Raise (ValueError "Le nom est obligatoire"), db)
  else if negb (truthy prenom) || negb (truthy (strip prenom)) then
    (Raise (ValueError "Le prénom est obligatoire"), db)
  else
    let db := initialiser_base db in
    let nom := strip nom in
    let prenom := strip prenom in
    let telephone := strip_or_none telephone in
    let email := strip_or_none email in
    let adresse := strip_or_none adresse in
    match Sql.bind_int contact_id with
    | Raise e => (Raise e, db)
    | Ok i =>
        let '(db, rowcount) :=
          Sql.update db nom prenom telephone email adresse i in
        let lignes_modifiees := rowcount in
        (Ok (0 <? lignes_modifiees), db)
    end.

Definition supprimer_contact (contact_id : Z) (db : database)
    : result bool * database :=
  if id_invalide contact_id then
    (Raise (ValueError "L'identifiant du contact est invalide"), db)
  else
    let db := initialiser_base db in
    match Sql.bind_int contact_id with
    | Raise e => (Raise e, db)
    | Ok i =>
        let '(db, rowcount) := Sql.delete db i in
        let lignes_supprimees := rowcount in
        (Ok (0 <? lignes_supprimees), db)
    end.

Definition obtenir_contact_par_id (contact_id : Z) (db : database)
    : result (option contact) * database :=
  if id_invalide contact_id then
    (Raise (ValueError "L'identifiant du contact est invalide"), db)
  else
    let db := initialiser_base db in
    match Sql.bind_int contact_id with
    | Raise e => (Raise e, db)
    | Ok i =>
        let contact := Sql.fetchone (Sql.select_by_id db i) in
        (Ok contact, db)
    end.

End Appel.

(** ** A storage lifetime: calls of the methods, one after the other *)

Inductive op : Type :=
| Ajouter (nom prenom : text) (telephone email adresse : option text)
| Rechercher (critere : text)
| Modifier (contact_id : Z) (nom prenom : text)
           (telephone email adresse : option text)
| Supprimer (contact_id : Z)
| Afficher_tous
| Obtenir (contact_id : Z).

(** The database after one call. *)
Definition exec (o : op) (db : database) : database :=
  match o with
  | Ajouter n p t e a => snd (CarnetAdresses.ajouter_contact n p t e a db)
  | Rechercher c => snd (CarnetAdresses.rechercher_contact c db)
  | Modifier i n p t e a => snd (CarnetAdresses.modifier_contact i n p t e a db)
  | Supprimer i => snd (CarnetAdresses.supprimer_contact i db)
  | Afficher_tous => snd (CarnetAdresses.afficher_tous db)
  | Obtenir i => snd (CarnetAdresses.obtenir_contact_par_id i db)
  end.

Definition run (ops : list op) (db : database) : database :=
  fold_left (fun d o => exec o d) ops db.

(** The ids that the successful [ajouter_contact] calls of [ops] have
    returned, oldest first. *)
Fixpoint ids_retournes (ops : list op) (db : database) : list Z :=
  match ops with
  | [] => []
  | o :: ops' =>
      match o with
      | Ajouter n p t e a =>
          match fst (CarnetAdresses.ajouter_contact n p t e a db) with
          | Ok i => [i]
          | Raise _ => []
          end
      | _ => []
      end ++ ids_retournes ops' (exec o db)
  end.

(** ** Python's [re], as far as the pattern of [valider_email] needs it *)

Module Re.

Inductive class_item : Type :=
| Range (lo hi : ascii)
| One (c : ascii).

(** A pattern is a sequence of items: [^], [$], a literal character,
    and a bracket class repeated [min] times or more ([+] is 1,
    [{2,}] is 2). *)
Inductive item : Type :=
| Bol
| Eol
| Chr (c : ascii)
| Rep (cls : list class_item) (min : nat).

Definition in_item (c : ascii) (it : class_item) : bool :=
  match it with
  | Range lo hi => ((code lo <=? code c) && (code c <=? code hi))%N
  | One d => Ascii.eqb c d
  end.

Definition in_class (cls : list class_item) (c : ascii) : bool :=
  existsb (in_item c) cls.

Definition newline : ascii := ascii_of_N 10.

(** [$] without MULTILINE: at the end of the text, or just before a
    newline that ends the text. *)
Definition at_end (s : text) : bool :=
  match s with
  | [] => true
  | [c] => Ascii.eqb c newline
  | _ => false
  end.

(** A greedy repetition with backtracking: take one more character of
    the class if that leads to a match, else stop here if [min] is
    reached.  [k] matches what follows, [pos] counts the characters
    consumed so far. *)
Fixpoint rep (cls : list class_item) (k : nat -> text -> bool)
    (min : nat) (pos : nat) (s : text) : bool :=
  match s with
  | c :: s' =>
      (in_class cls c && rep cls k (pred min) (S pos) s')
      || (Nat.eqb min 0 && k pos s)
  | [] => Nat.eqb min 0 && k pos s
  end.

Fixpoint run (p : list item) (pos : nat) (s : text) : bool :=
  match p with
  | [] => true
  | Bol :: p' => Nat.eqb pos 0 && run p' pos s
  | Eol :: p' => at_end s && run p' pos s
  | Chr c :: p' =>
      match s with
      | d :: s' => Ascii.eqb c d && run p' (S pos) s'
      | [] => false
      end
  | Rep cls min :: p' => rep cls (run p') min pos s
  end.

(** [re.match(pattern, s)] as a truth value: a match that starts at
    the first character. *)
Definition match_ (pattern : list item) (s : text) : bool :=
  run pattern 0%nat s.

End Re.

(** ** [view.py]: class [ContactView] *)

Module ContactView.

(** [c in s] for a one-character [c] *)
Definition contains (c : ascii) (s : text) : bool :=
  existsb (Ascii.eqb c) s.

(** [s.split(sep, 1)] when [sep] occurs in [s]: what is before its
    first occurrence and what is after. *)
Fixpoint split1 (sep : ascii) (s : text) : text * text :=
  match s with
  | [] => ([], [])
  | c :: s' =>
      if Ascii.eqb c sep then ([], s')
      else let '(a, b) := split1 sep s' in (c :: a, b)
  end.

(** [s.split(sep)[-1]]: what follows the last [sep], all of [s] when
    there is none. *)
Definition last_segment (sep : ascii) (s : text) : text :=
  rev (fst (split1 sep (rev s))).

(** What the method leaves on the screen: the text of
    [label_email_error] and the background of [entry_email]. *)
Inductive affichage : Type :=
| Champ_vide                      (* "", white *)
| Arobase_manquant                (* "@ manquant" *)
| Partie_locale_vide              (* "Partie avant @ vide" *)
| Extension_manquante             (* "Extension manquante" *)
| Extension_trop_courte           (* "Extension trop courte" *)
| Caractere_interdit (c : ascii)  (* "Caractere 'c' non autorise" *)
| Format_valide.                  (* "Format valide", green *)

Definition caracteres_interdits : list ascii :=
  [" "; ","; ";"; ":"; "!"; "?"]%char.

(** [entry] is what [self.entry_email.get()] returns. *)
Definition _valider_email_temps_reel (entry : text) : affichage :=
  let email := strip entry in
  if negb (truthy email) then Champ_vide
  else if negb (contains "@" email) then Arobase_manquant
  else
    let '(partie_locale, reste) := split1 "@" email in
    if negb (truthy partie_locale) then Partie_locale_vide
    else if negb (contains "." reste) then Extension_manquante
    else if (List.length (last_segment "." reste) <? 2)%nat
    then Extension_trop_courte
    else
      match find (fun char => contains char email) caracteres_interdits with
      | Some char => Caractere_interdit char
      | None => Format_valide
      end.

(** The checker shows the email as valid. *)
Definition accepte (entry : text) : bool :=
  match _valider_email_temps_reel entry with
  | Format_valide => true
  | _ => false
  end.

End ContactView.

(** ** [controleur.py]: class [Controller] *)

Module Controller.

Definition alnum : list Re.class_item :=
  [Re.Range "a" "z"; Re.Range "A" "Z"; Re.Range "0" "9"]%char.

(** [^[a-zA-Z0-9._%+-]+@[a-zA-Z0-9.-]+\.[a-zA-Z]{2,}$] *)
Definition pattern : list Re.item :=
  [ Re.Bol;
    Re.Rep (alnum ++ [Re.One "."; Re.One "_"; Re.One "%"; Re.One "+";
                      Re.One "-"]%char) 1;
    Re.Chr "@";
    Re.Rep (alnum ++ [Re.One "."; Re.One "-"]%char) 1;
    Re.Chr ".";
    Re.Rep [Re.Range "a" "z"; Re.Range "A" "Z"]%char 2;
    Re.Eol ].

Definition valider_email (email : text) : bool :=
  match email with
  | [] => true
  | _ :: _ => if Re.match_ pattern email then true else false
  end.

(** *** The workflows

    The view as the controller meets it: the line selected in the
    list and the answer the user gives to a confirmation prompt. *)
Record vue : Type := mkVue {
  selection : option Z;
  reponse : bool
}.

(** The calls a workflow makes on the view and on the model. *)
Inductive appel : Type :=
| Message_erreur (titre message : string)
| Message_info (titre message : string)
| Message_confirmation (titre : string) (message : text)
| Vider_champs
| Afficher_liste (liste_contacts : list contact)
| Modele_obtenir_contact_par_id (contact_id : Z)
| Modele_supprimer_contact (contact_id : Z)
| Modele_afficher_tous.

(** A workflow reads the view, changes the database, may raise, and
    leaves the list of its calls in order. *)
Definition M (A : Type) : Type :=
  vue -> database -> result A * database * list appel.

Definition ret {A} (a : A) : M A := fun _ db => (Ok a, db, []).

Definition bind {A B} (m : M A) (f : A -> M B) : M B :=
  fun v db =>
    match m v db with
    | (Ok a, db1, l1) =>
        let '(r, db2, l2) := f a v db1 in (r, db2, l1 ++ l2)
    | (Raise e, db1, l1) => (Raise e, db1, l1)
    end.

Notation "x <- m ;; k" := (bind m (fun x => k))
  (at level 61, m at next level, right associativity).
Notation "m ;; k" := (bind m (fun _ => k))
  (at level 61, right associativity).

Definition raise {A} (e : exn) : M A := fun _ db => (Raise e, db, []).

Definition vue_appel (a : appel) : M unit := fun _ db => (Ok tt, db, [a]).

Definition modele {A} (a : appel) (f : database -> result A * database)
    : M A :=
  fun _ db => let '(r, db') := f db in (r, db', [a]).

Definition get_selection : M (option Z) :=
  fun v db => (Ok (selection v), db, []).

Definition message_confirmation (titre : string) (message : text) : M bool :=
  fun v db => (Ok (reponse v), db, [Message_confirmation titre message]).

(** [not contact_id], for what [get_selection] returns *)
Definition pas_de_selection (contact_id : option Z) : bool :=
  match contact_id with
  | None => true
  | Some i => i =? 0
  end.

Definition afficher_tous : M unit :=
  contacts <- modele Modele_afficher_tous CarnetAdresses.afficher_tous ;;
  vue_appel (Afficher_liste contacts).

(** [contact[1]] and [contact[2]], on what [obtenir_contact_par_id]
    returned *)
Definition indices_1_2 (contact : option contact) : M (text * text) :=
  match contact with
  | Some c => ret (c_nom c, c_prenom c)
  | None => raise (TypeError "'NoneType' object is not subscriptable")
  end.

(** The letter e with an acute accent, U+00E9. *)
Definition e_aigu : ascii := ascii_of_N 233.

Definition supprimer_contact : M unit :=
  contact_id <- get_selection ;;
  if pas_de_selection contact_id then
    vue_appel (Message_erreur "Erreur" "Sélectionnez un contact à supprimer")
  else
    let contact_id := match contact_id with Some i => i | None => 0 end in
    contact <- modele (Modele_obtenir_contact_par_id contact_id)
                      (CarnetAdresses.obtenir_contact_par_id contact_id) ;;
    champs <- indices_1_2 contact ;;
    confirmation <- message_confirmation "Confirmation"
      (txt "Voulez-vous vraiment supprimer ce contact ?"
       ++ [Re.newline; Re.newline] ++ txt "Nom : " ++ fst champs
       ++ [Re.newline] ++ txt "Pr" ++ [e_aigu] ++ txt "nom : "
       ++ snd champs) ;;
    if negb confirmation then ret tt
    else
      modele (Modele_supprimer_contact contact_id)
             (CarnetAdresses.supprimer_contact contact_id) ;;
      vue_appel (Message_info "Succès" "Contact supprimé avec succès") ;;
      vue_appel Vider_champs ;;
      afficher_tous.

End Controller.

(** ** [view.py]: the widgets and the methods that read and write them *)

Module Fenetre.

(** The contents of the four [Entry] widgets and of the [Text] widget
    [text_adresse]. *)
Record formulaire : Type := mkFormulaire {
  entry_nom : text;
  entry_prenom : text;
  entry_telephone : text;
  entry_email : text;
  text_adresse : text
}.

(** The window: the form and the lines of the [Treeview], top to
    bottom. *)
Record fenetre : Type := mkFenetre {
  champs : formulaire;
  tree : list contact
}.

(** Tk, on the content of a widget: [w.delete(0, "end")] and
    [w.delete("1.0", "end")] empty it, [w.insert(0, s)] and
    [w.insert("1.0", s)] put [s] in front, [e.get()] is the content of
    an [Entry], and [t.get("1.0", "end")] is the content of a [Text]
    with the newline that ends every [Text]. *)
Definition delete_all (content : text) : text := [].
Definition insert_front (s content : text) : text := s ++ content.
Definition entry_get (content : text) : text := content.
Definition text_get_1_end (content : text) : text := content ++ [Re.newline].

(** The dictionary that [get_inputs] returns. *)
Record donnees : Type := mkDonnees {
  d_nom : text;
  d_prenom : text;
  d_telephone : text;
  d_email : text;
  d_adresse : text
}.

Definition get_inputs (w : fenetre) : donnees :=
  let f := champs w in
  mkDonnees (entry_get (entry_nom f))
            (entry_get (entry_prenom f))
            (entry_get (entry_telephone f))
            (entry_get (entry_email f))
            (strip (text_get_1_end (text_adresse f))).

Definition vider_champs (w : fenetre) : fenetre :=
  let f := champs w in
  mkFenetre (mkFormulaire (delete_all (entry_nom f))
                          (delete_all (entry_prenom f))
                          (delete_all (entry_telephone f))
                          (delete_all (entry_email f))
                          (delete_all (text_adresse f)))
            (tree w).

(** [x or ""], for a field read from the table *)
Definition ou_vide (x : option text) : text :=
  match x with
  | Some s => if truthy s then s else []
  | None => []
  end.

(** [contact] is what [obtenir_contact_par_id] returned; on [None] the
    first subscript raises, after the form has been emptied. *)
Definition set_inputs (contact : option contact) (w : fenetre)
    : result unit * fenetre :=
  let w := vider_champs w in
  match contact with
  | None => (Raise (TypeError "'NoneType' object is not subscriptable"), w)
  | Some c =>
      let f := champs w in
      (Ok tt,
       mkFenetre
         (mkFormulaire
            (insert_front (c_nom c) (entry_nom f))
            (insert_front (c_prenom c) (entry_prenom f))
            (insert_front (ou_vide (c_telephone c)) (entry_telephone f))
            (insert_front (ou_vide (c_email c)) (entry_email f))
            (insert_front (ou_vide (c_adresse c)) (text_adresse f)))
         (tree w))
  end.

(** Every line of the [Treeview] is deleted, then one [tree.insert] at
    the end for each contact. *)
Definition afficher_liste (liste_contacts : list contact) (w : fenetre)
    : fenetre :=
  mkFenetre (champs w) (fold_left (fun lignes c => lignes ++ [c])
                                  liste_contacts []).

End Fenetre.

(** ** [controleur.py]: the workflows on the window and the database *)

Module Application.

(** What a workflow works on: the database file and the window. *)
Record monde : Type := mkMonde {
  base : database;
  ecran : Fenetre.fenetre
}.

(** The message boxes a workflow opens. *)
Inductive boite : Type :=
| Erreur (titre message : string)
| Info (titre message : string)
| Question (titre : string) (message : text).

(** A workflow reads what the user has selected and answers
    ([Controller.vue]), changes the database and the window, may raise,
    and opens message boxes in order. *)
Definition W (A : Type) : Type :=
  Controller.vue -> monde -> result A * monde * list boite.

Definition ret {A} (a : A) : W A := fun _ m => (Ok a, m, []).

Definition bind {A B} (w : W A) (f : A -> W B) : W B :=
  fun v m =>
    match w v m with
    | (Ok a, m1, l1) =>
        let '(r, m2, l2) := f a v m1 in (r, m2, l1 ++ l2)
    | (Raise e, m1, l1) => (Raise e, m1, l1)
    end.

Notation "x <- m ;; k" := (bind m (fun x => k))
  (at level 61, m at next level, right associativity).
Notation "m ;; k" := (bind m (fun _ => k))
  (at level 61, right associativity).

(** A method of the model *)
Definition modele {A} (f : database -> result A * database) : W A :=
  fun _ m => let '(r, db) := f (base m) in (r, mkMonde db (ecran m), []).

(** The methods of the view *)
Definition get_inputs : W Fenetre.donnees :=
  fun _ m => (Ok (Fenetre.get_inputs (ecran m)), m, []).

Definition set_inputs (contact : option contact) : W unit :=
  fun _ m =>
    let '(r, w) := Fenetre.set_inputs contact (ecran m) in
    (r, mkMonde (base m) w, []).

Definition vider_champs : W unit :=
  fun _ m => (Ok tt, mkMonde (base m) (Fenetre.vider_champs (ecran m)), []).

Definition afficher_liste (liste_contacts : list contact) : W unit :=
  fun _ m =>
    (Ok tt, mkMonde (base m) (Fenetre.afficher_liste liste_contacts (ecran m)),
     []).

Definition get_selection : W (option Z) :=
  fun v m => (Ok (Controller.selection v), m, []).

Definition message_info (titre message : string) : W unit :=
  fun _ m => (Ok tt, m, [Info titre message]).

Definition message_erreur (titre message : string) : W unit :=
  fun _ m => (Ok tt, m, [Erreur titre message]).

Definition message_confirmation (titre : string) (message : text) : W bool :=
  fun v m => (Ok (Controller.reponse v), m, [Question titre message]).

(** [contact[1]] and [contact[2]] *)
Definition indices_1_2 (contact : option contact) : W (text * text) :=
  match contact with
  | Some c => ret (c_nom c, c_prenom c)
  | None =>
      fun _ m =>
        (Raise (TypeError "'NoneType' object is not subscriptable"), m, [])
  end.

(** [a or b] on two texts *)
Definition ou (a b : text) : text := if truthy a then a else b.

Definition afficher_tous : W unit :=
  contacts <- modele CarnetAdresses.afficher_tous ;;
  afficher_liste contacts.

Definition ajouter_contact : W unit :=
  donnees <- get_inputs ;;
  let nom := strip (Fenetre.d_nom donnees) in
  let prenom := strip (Fenetre.d_prenom donnees) in
  let telephone := strip (Fenetre.d_telephone donnees) in
  let email := strip (Fenetre.d_email donnees) in
  let adresse := strip (Fenetre.d_adresse donnees) in
  if negb (truthy nom) || negb (truthy prenom) then
    message_erreur "Erreur" "Le nom et le prénom sont obligatoires"
  else if negb (Controller.valider_email email) then
    message_erreur "Erreur" "L'email n'est pas valide"
  else
    modele (CarnetAdresses.ajouter_contact nom prenom (Some telephone)
                                           (Some email) (Some adresse)) ;;
    message_info "Succès" "Contact ajouté avec succès" ;;
    vider_champs ;;
    afficher_tous.

Definition rechercher_contact : W unit :=
  donnees <- get_inputs ;;
  let valeur := ou (strip (Fenetre.d_nom donnees))
                   (ou (strip (Fenetre.d_telephone donnees))
                       (strip (Fenetre.d_email donnees))) in
  if negb (truthy valeur) then
    message_erreur "Erreur" "Le critère de recherche est obligatoire"
  else
    resultats <- modele (CarnetAdresses.rechercher_contact valeur) ;;
    match resultats with
    | [] => message_erreur "Erreur" "Aucun contact trouvé"
    | _ :: _ => afficher_liste resultats
    end.

Definition charger_contact_selection : W unit :=
  contact_id <- get_selection ;;
  if Controller.pas_de_selection contact_id then
    message_erreur "Erreur" "Aucun contact sélectionné"
  else
    let contact_id := match contact_id with Some i => i | None => 0 end in
    contact <- modele (CarnetAdresses.obtenir_contact_par_id contact_id) ;;
    set_inputs contact.

Definition modifier_contact : W unit :=
  contact_id <- get_selection ;;
  if Controller.pas_de_selection contact_id then
    message_erreur "Erreur" "Aucun contact sélectionné"
  else
    let contact_id := match contact_id with Some i => i | None => 0 end in
    donnees <- get_inputs ;;
    let nom := strip (Fenetre.d_nom donnees) in
    let prenom := strip (Fenetre.d_prenom donnees) in
    let telephone := strip (Fenetre.d_telephone donnees) in
    let email := strip (Fenetre.d_email donnees) in
    let adresse := strip (Fenetre.d_adresse donnees) in
    if negb (truthy nom) || negb (truthy prenom) then
      message_erreur "Erreur" "Nom et prénom sont obligatoir"
    else if negb (Controller.valider_email email) then
      message_erreur "Erreur" "Email invalide"
    else
      modele (CarnetAdresses.modifier_contact contact_id nom prenom
                (Some telephone) (Some email) (Some adresse)) ;;
      message_info "Succès" "Contact modifié avec succès" ;;
      vider_champs ;;
      afficher_tous.

Definition supprimer_contact : W unit :=
  contact_id <- get_selection ;;
  if Controller.pas_de_selection contact_id then
    message_erreur "Erreur" "Sélectionnez un contact à supprimer"
  else
    let contact_id := match contact_id with Some i => i | None => 0 end in
    contact <- modele (CarnetAdresses.obtenir_contact_par_id contact_id) ;;
    champs <- indices_1_2 contact ;;
    confirmation <- message_confirmation "Confirmation"
      (txt "Voulez-vous vraiment supprimer ce contact ?"
       ++ [Re.newline; Re.newline] ++ txt "Nom : " ++ fst champs
       ++ [Re.newline] ++ txt "Pr" ++ [Controller.e_aigu] ++ txt "nom : "
       ++ snd champs) ;;
    if negb confirmation then ret tt
    else
      modele (CarnetAdresses.supprimer_contact contact_id) ;;
      message_info "Succès" "Contact supprimé avec succès" ;;
      vider_champs ;;
      afficher_tous.

(** [Controller.__init__]: the model object is created (the class has
    no [__init__], so nothing is run), the buttons are bound, and the
    list is filled. *)
Definition init_ : W unit := afficher_tous.

(** The window as [ContactView.__init__] builds it. *)
Definition fenetre_neuve : Fenetre.fenetre :=
  Fenetre.mkFenetre (Fenetre.mkFormulaire [] [] [] [] []) [].

(** *** A run of the application

    What the user can trigger: a click on one of the five buttons bound
    in [_lier_boutons] to a workflow on the database, or a double click
    in the list. *)
Inductive bouton : Type :=
| Btn_ajouter
| Btn_rechercher
| Btn_modifier
| Btn_supprimer
| Btn_afficher_tous
| Double_clic.

Definition commande (b : bouton) : W unit :=
  match b with
  | Btn_ajouter => ajouter_contact
  | Btn_rechercher => rechercher_contact
  | Btn_modifier => modifier_contact
  | Btn_supprimer => supprimer_contact
  | Btn_afficher_tous => afficher_tous
  | Double_clic => charger_contact_selection
  end.

(** One gesture: what the form holds when the user acts (anything may
    have been typed since the last workflow), what is selected and what
    would be answered to a prompt, and the trigger. *)
Record geste : Type := mkGeste {
  frappe : Fenetre.formulaire;
  utilisateur : Controller.vue;
  declencheur : bouton
}.

(** The workflow that a gesture starts, run on the world where the
    form holds what was typed. *)
Definition lancer (g : geste) (m : monde)
    : result unit * monde * list boite :=
  commande (declencheur g) (utilisateur g)
           (mkMonde (base m)
                    (Fenetre.mkFenetre (frappe g) (Fenetre.tree (ecran m)))).

(** The world after a gesture.  An exception that leaves a workflow is
    reported by Tk and the event loop goes on: what was done before the
    exception stays. *)
Definition jouer (g : geste) (m : monde) : monde := snd (fst (lancer g m)).

(** The world once the application has started on the file [db]. *)
Definition demarrer (db : database) : monde :=
  snd (fst (init_ (Controller.mkVue None false) (mkMonde db fenetre_neuve))).

Definition session (gestes : list geste) (db : database) : monde :=
  fold_left (fun m g => jouer g m) gestes (demarrer db).

End Application.

(** ** Sample data *)

Definition Dupont : text := txt "Dupont".
Definition Jean : text := txt "Jean".

(** The table after
    [ajouter_contact("Dupont", "Jean", "0102030405", "jean@ex.com", "1 rue X")]
    on a new database. *)
Definition db_dupont : database :=
  mkDb [mkContact 1 Dupont Jean (Some (txt "0102030405"))
                  (Some (txt "jean@ex.com")) (Some (txt "1 rue X"))] 1.


(** A criterion of 49 999 characters: one more than a pattern can
    take. *)
Definition critere_trop_long : text := repeat "D"%char (N.to_nat 49999).

(** The first [int] that SQLite cannot hold, [2^63]. *)
Definition hors_64_bits : Z := 9223372036854775808.

(** Four contacts created in an order that is not the listing order. *)
Definition ops_desordre : list op :=
  [Ajouter (txt "abel") (txt "Niels") None None None;
   Ajouter (txt "Zola") (txt "Emile") None None None;
   Ajouter (txt "Dupont") (txt "Jean") None None None;
   Ajouter (txt "Dupont") (txt "Anne") None None None].

(** A view where the first contact is selected and the user answers
    no to the prompt. *)
Definition vue_refus : Controller.vue := Controller.mkVue (Some 1) false.

(** ** Vocabulary of the statements *)

(** [s] is before [t] in ascending, case-sensitive order: at the first
    place where they differ [s] has the character of smaller code, or
    [s] ends there and [t] goes on. *)
Inductive avant : text -> text -> Prop :=
| avant_fin (d : ascii) (t : text) : avant [] (d :: t)
| avant_car (c d : ascii) (s t : text) :
    (code c < code d)%N -> avant (c :: s) (d :: t)
| avant_suite (c : ascii) (s t : text) :
    avant s t -> avant (c :: s) (c :: t).

(** [a] may be listed before [b] in a list ordered by ([nom], [prenom])
    ascending: its [nom] is before that of [b], or they have the same
    [nom] and the [prenom] of [a] is not after that of [b]. *)
Definition ordre (a b : contact) : Prop :=
  avant (c_nom a) (c_nom b) \/
  (c_nom a = c_nom b /\
   (c_prenom a = c_prenom b \/ avant (c_prenom a) (c_prenom b))).

(** Every id in the table is positive and at most the AUTOINCREMENT
    counter. *)
Definition db_ok (db : database) : Prop :=
  Forall (fun r => 0 < c_id r <= sqlite_sequence db) (contacts db).

(** Two characters are the same without regard to case: they are
    equal, or they are the upper-case and the lower-case form of one of
    the 26 letters. *)
Definition majuscules : text := txt "ABCDEFGHIJKLMNOPQRSTUVWXYZ".
Definition minuscules : text := txt "abcdefghijklmnopqrstuvwxyz".

Definition meme_lettre (c d : ascii) : bool :=
  existsb (fun Mm => (Ascii.eqb c (fst Mm) && Ascii.eqb d (snd Mm))
                     || (Ascii.eqb c (snd Mm) && Ascii.eqb d (fst Mm)))
          (combine majuscules minuscules).

Definition egal_sans_casse (c d : ascii) : bool :=
  Ascii.eqb c d || meme_lettre c d.

(** Substring search as the specification words it, case-insensitive:
    [q] occurs in [s].  A field that holds a NUL is searched up to that
    NUL only. *)
Fixpoint debute_par (q s : text) : bool :=
  match q, s with
  | [], _ => true
  | _ :: _, [] => false
  | c :: q', d :: s' => egal_sans_casse c d && debute_par q' s'
  end.

Fixpoint contient (q s : text) : bool :=
  debute_par q s ||
  match s with
  | [] => false
  | d :: s' => negb (Ascii.eqb d nul) && contient q s'
  end.

Definition contient_opt (q : text) (o : option text) : bool :=
  match o with Some s => contient q s | None => false end.

(** [q] occurs in the [nom], the [telephone] or the [email] of [r]. *)
Definition correspond (q : text) (r : contact) : bool :=
  contient q (c_nom r) || contient_opt q (c_telephone r)
  || contient_opt q (c_email r).

(** Neither [%] nor [_] occurs in [q]. *)
Definition sans_joker (q : text) : Prop :=
  ~ In "%"%char q /\ ~ In "_"%char q.

(** No NUL occurs in [q]. *)
Definition sans_nul (q : text) : Prop := ~ In nul q.

(** The length of [q] in bytes, in UTF-8: its characters, and one byte
    more for each character outside ASCII. *)
Definition octets (q : text) : Z :=
  Z.of_nat (List.length q)
  + Z.of_nat (List.length (filter (fun c => (127 <? code c)%N) q)).

(** The pattern made for the criterion [q], [q] between two [%], is
    within the 50 000 bytes that the engine accepts for a pattern. *)
Definition motif_admis (q : text) : Prop := octets q + 2 <= 50000.

(** [s0] is what [s] holds before its first NUL, all of [s] when it
    holds none. *)
Definition debut_sans_nul (s0 s : text) : Prop :=
  sans_nul s0 /\ (s = s0 \/ exists b, s = s0 ++ nul :: b).

(** [s] has the form [p], read as a pattern with wildcards: [%] in [p]
    stands for any run of characters, none included, [_] for exactly
    one character, and any other character for itself, without regard
    to case. *)
Inductive forme : text -> text -> Prop :=
| forme_fin : forme [] []
| forme_pourcent (p a s : text) :
    forme p s -> forme ("%"%char :: p) (a ++ s)
| forme_souligne (p : text) (d : ascii) (s : text) :
    forme p s -> forme ("_"%char :: p) (d :: s)
| forme_car (p : text) (c d : ascii) (s : text) :
    c <> "%"%char -> c <> "_"%char -> egal_sans_casse c d = true ->
    forme p s -> forme (c :: p) (d :: s).

(** The field [o] is present and, both read up to their first NUL, it
    has the form [p]. *)
Definition joker_dans (p : text) (o : option text) : Prop :=
  exists s p0 s0,
    o = Some s /\ debut_sans_nul p0 p /\ debut_sans_nul s0 s /\ forme p0 s0.

(** The [nom], the [telephone] or the [email] of [r] has the form [p]. *)
Definition selectionne (p : text) (r : contact) : Prop :=
  joker_dans p (Some (c_nom r)) \/ joker_dans p (c_telephone r)
  \/ joker_dans p (c_email r).

(** The email form as the specification words it:
    [localpart@domain.tld], the local part one or more of
    [A-Za-z0-9._%+-], the domain one or more of [A-Za-z0-9.-], the last
    segment two or more letters. *)
Definition parmi (allowed : string) (c : ascii) : bool :=
  existsb (Ascii.eqb c) (txt allowed).

Definition lettre : ascii -> bool :=
  parmi "ABCDEFGHIJKLMNOPQRSTUVWXYZabcdefghijklmnopqrstuvwxyz".

Definition car_local : ascii -> bool :=
  parmi "ABCDEFGHIJKLMNOPQRSTUVWXYZabcdefghijklmnopqrstuvwxyz0123456789._%+-".

Definition car_domaine : ascii -> bool :=
  parmi "ABCDEFGHIJKLMNOPQRSTUVWXYZabcdefghijklmnopqrstuvwxyz0123456789.-".

Definition forme_email (e : text) : Prop :=
  exists l d t,
    e = l ++ "@"%char :: d ++ "."%char :: t /\
    (1 <= List.length l)%nat /\ forallb car_local l = true /\
    (1 <= List.length d)%nat /\ forallb car_domaine d = true /\
    (2 <= List.length t)%nat /\ forallb lettre t = true.

(** A text that [strip] leaves as it is. *)
Definition rogne (s : text) : Prop := strip s = s.

Definition rogne_opt (o : option text) : Prop :=
  match o with Some s => rogne s | None => True end.

(** A line as the storage layer writes it: [nom] and [prenom] trimmed
    and not empty, every optional field absent or trimmed. *)
Definition ligne_saine (c : contact) : Prop :=
  c_nom c <> [] /\ rogne (c_nom c) /\
  c_prenom c <> [] /\ rogne (c_prenom c) /\
  rogne_opt (c_telephone c) /\ rogne_opt (c_email c) /\
  rogne_opt (c_adresse c).

(** What the storage layer keeps of an optional field that a workflow
    passes as a trimmed text: nothing when it is empty. *)
Definition absent_si_vide (s : text) : option text :=
  match s with [] => None | _ :: _ => Some s end.

(** An optional field as the workflows store it: absent, or a text that
    is trimmed and not empty. *)
Definition champ_opt (o : option text) : Prop :=
  match o with Some s => s <> [] /\ rogne s | None => True end.

(** A contact as the workflows store it: names trimmed and not empty,
    optional fields absent or trimmed and not empty, and an email, when
    there is one, of the pattern's form. *)
Definition fiche_valide (c : contact) : Prop :=
  c_nom c <> [] /\ rogne (c_nom c) /\
  c_prenom c <> [] /\ rogne (c_prenom c) /\
  champ_opt (c_telephone c) /\
  match c_email c with Some e => forme_email e | None => True end /\
  champ_opt (c_adresse c).

(** The form as [set_inputs] fills it for a contact. *)
Definition formulaire_de (c : contact) : Fenetre.formulaire :=
  Fenetre.mkFormulaire (c_nom c) (c_prenom c)
                       (Fenetre.ou_vide (c_telephone c))
                       (Fenetre.ou_vide (c_email c))
                       (Fenetre.ou_vide (c_adresse c)).

(** The criterion that the Search workflow takes from a form: the
    trimmed [nom], or when that is empty the trimmed [telephone], or
    when that is empty too the trimmed [email]. *)
Definition critere_de (f : Fenetre.formulaire) : text :=
  match strip (Fenetre.entry_nom f), strip (Fenetre.entry_telephone f) with
  | _ :: _, _ => strip (Fenetre.entry_nom f)
  | [], _ :: _ => strip (Fenetre.entry_telephone f)
  | [], [] => strip (Fenetre.entry_email f)
  end.

(** A form that holds nothing. *)
Definition formulaire_vide : Fenetre.formulaire :=
  Fenetre.mkFormulaire [] [] [] [] [].

(** * Properties *)

Import CarnetAdresses.

(** ** Python values *)

Lemma strip_nil : strip [] = [].
Proof. reflexivity. Qed.

Lemma strip_truthy (s : text) :
  strip s <> [] -> truthy s = true /\ truthy (strip s) = true.
Proof.
  intros H; split.
  - destruct s; [now rewrite strip_nil in H | reflexivity].
  - destruct (strip s); [now elim H | reflexivity].
Qed.

Lemma requis_ok (s : text) :
  strip s <> [] -> negb (truthy s) || negb (truthy (strip s)) = false.
Proof.
  intros H; destruct (strip_truthy s H) as [-> ->]; reflexivity.
Qed.

Lemma requis_vide (s : text) :
  strip s = [] -> negb (truthy s) || negb (truthy (strip s)) = true.
Proof.
  intros ->; simpl; now rewrite orb_true_r.
Qed.

Lemma forallb_rev {A} (f : A -> bool) (l : list A) :
  forallb f (rev l) = forallb f l.
Proof.
  induction l as [|x l IH]; simpl; [reflexivity|].
  rewrite forallb_app, IH. simpl. rewrite andb_true_r. apply andb_comm.
Qed.

Lemma lstrip_nil_iff (s : text) :
  lstrip s = [] <-> forallb py_isspace s = true.
Proof.
  induction s as [|c s IH]; simpl; [tauto|].
  destruct (py_isspace c); simpl; [exact IH|].
  split; discriminate.
Qed.

Lemma lstrip_head (s : text) :
  match lstrip s with [] => True | c :: _ => py_isspace c = false end.
Proof.
  induction s as [|c s IH]; simpl; [exact I|].
  destruct (py_isspace c) eqn:E; [exact IH | exact E].
Qed.

(** The texts that [strip] empties are the texts made of whitespace
    only. *)
Lemma strip_nil_iff (s : text) :
  strip s = [] <-> forallb py_isspace s = true.
Proof.
  unfold strip, rstrip. split.
  - intros H. apply lstrip_nil_iff.
    assert (R : lstrip (rev (lstrip s)) = [])
      by (rewrite <- (rev_involutive (lstrip _)), H; reflexivity).
    apply lstrip_nil_iff in R. rewrite forallb_rev in R.
    pose proof (lstrip_head s) as Hd.
    destruct (lstrip s) as [|c l]; [reflexivity|].
    simpl in R. rewrite Hd in R. discriminate.
  - intros H. apply lstrip_nil_iff in H. now rewrite H.
Qed.

(** [strip] removes a run of whitespace at each end and nothing else. *)
Lemma lstrip_split (s : text) :
  exists a, s = a ++ lstrip s /\ forallb py_isspace a = true.
Proof.
  induction s as [|c s (a & E & Ha)]; simpl; [now exists []|].
  destruct (py_isspace c) eqn:Hc.
  - exists (c :: a). simpl. rewrite Hc, Ha. split; [now f_equal | reflexivity].
  - now exists [].
Qed.

Lemma strip_split (s : text) :
  exists a b,
    s = a ++ strip s ++ b /\
    forallb py_isspace a = true /\ forallb py_isspace b = true.
Proof.
  destruct (lstrip_split s) as (a & Ea & Ha).
  destruct (lstrip_split (rev (lstrip s))) as (b & Eb & Hb).
  exists a, (rev b). split; [|split; [assumption | now rewrite forallb_rev]].
  unfold strip, rstrip. rewrite <- rev_app_distr, <- Eb, rev_involutive.
  exact Ea.
Qed.

Lemma id_invalide_pos (i : Z) : 0 < i -> id_invalide i = false.
Proof.
  intros H; unfold id_invalide.
  apply orb_false_iff; split; [apply Z.eqb_neq | apply Z.leb_gt]; lia.
Qed.

(** ** The SQL statements on one id *)

Section ById.

Variable i : Z.

Lemma max_rowid_nonneg (rows : list contact) : 0 <= Sql.max_rowid rows.
Proof. induction rows as [|r rows IH]; simpl; lia. Qed.

Lemma max_rowid_bound (rows : list contact) (r : contact) :
  In r rows -> c_id r <= Sql.max_rowid rows.
Proof.
  induction rows as [|x rows IH]; simpl; [easy|].
  intros [-> | H]; [lia | specialize (IH H); lia].
Qed.

Lemma filter_has_id_nil (rows : list contact) :
  (forall r, In r rows -> c_id r <> i) -> filter (Sql.has_id i) rows = [].
Proof.
  induction rows as [|x rows IH]; simpl; intros H; [reflexivity|].
  assert (E : Sql.has_id i x = false)
    by (apply Z.eqb_neq, H; now left).
  rewrite E; apply IH; intros r Hr; apply H; now right.
Qed.

Lemma filter_has_id_cons (rows : list contact) (r : contact) :
  In r rows -> c_id r = i ->
  exists x rest, filter (Sql.has_id i) rows = x :: rest.
Proof.
  intros Hin Hid.
  assert (Hf : In r (filter (Sql.has_id i) rows))
    by (apply filter_In; split; [assumption | now apply Z.eqb_eq]).
  destruct (filter (Sql.has_id i) rows) as [|x rest]; [easy | eauto].
Qed.

Variables (nom prenom : text) (telephone email adresse : option text).

Let set := Sql.set i nom prenom telephone email adresse.

Lemma update_untouched (rows : list contact) :
  filter (Sql.has_id i) rows = [] -> map set rows = rows.
Proof.
  induction rows as [|x rows IH]; simpl; [reflexivity|].
  unfold set at 1, Sql.set; destruct (Sql.has_id i x); [discriminate|].
  intros H; now rewrite IH.
Qed.


Lemma delete_then_select (rows : list contact) :
  filter (Sql.has_id i) (filter (fun r => negb (Sql.has_id i r)) rows) = [].
Proof.
  induction rows as [|x rows IH]; simpl; [reflexivity|].
  destruct (Sql.has_id i x) eqn:E; simpl; [assumption|].
  now rewrite E.
Qed.

Lemma delete_untouched (rows : list contact) :
  filter (Sql.has_id i) rows = [] ->
  filter (fun r => negb (Sql.has_id i r)) rows = rows.
Proof.
  induction rows as [|x rows IH]; simpl; [reflexivity|].
  destruct (Sql.has_id i x); simpl; [discriminate|].
  intros H; now rewrite IH.
Qed.

End ById.

Lemma db_eta (db : database) : mkDb (contacts db) (sqlite_sequence db) = db.
Proof. now destruct db. Qed.

(** The value an optional argument is stored as: absent when it is
    [None] or the empty text, else its trimmed text. *)
Lemma strip_or_none_cases (o : option text) :
  strip_or_none o
  = match o with
    | None | Some [] => None
    | Some s => Some (strip s)
    end.
Proof. destruct o as [[|c s]|]; reflexivity. Qed.

(** ** Create, then read back *)




(** ** An id given by the caller *)

Section Binding.

Lemma bind_int_ok (i : Z) :
  0 < i <= Sql.max_integer -> Sql.bind_int i = Ok i.
Proof.
  intros H. unfold Sql.bind_int.
  replace (- Sql.max_integer - 1 <=? i) with true
    by (symmetry; apply Z.leb_le; unfold Sql.max_integer in *; lia).
  replace (i <=? Sql.max_integer) with true
    by (symmetry; apply Z.leb_le; lia).
  reflexivity.
Qed.

Lemma bind_int_overflow (i : Z) :
  Sql.max_integer < i ->
  Sql.bind_int i
  = Raise (OverflowError "Python int too large to convert to SQLite INTEGER").
Proof.
  intros H. unfold Sql.bind_int.
  replace (i <=? Sql.max_integer) with false
    by (symmetry; apply Z.leb_gt; lia).
  now rewrite andb_false_r.
Qed.

Lemma id_invalide_neg (i : Z) : id_invalide i = false -> 0 < i.
Proof.
  unfold id_invalide. intros H. apply orb_false_iff in H as [_ H].
  apply Z.leb_gt in H. exact H.
Qed.


Lemma supprimer_contact_accord_64 (db : database) (contact_id : Z) :
  contact_id <= Sql.max_integer ->
  Appel.supprimer_contact contact_id db = supprimer_contact contact_id db.
Proof.
  intros H. unfold Appel.supprimer_contact, supprimer_contact.
  destruct (id_invalide contact_id) eqn:Hi; [reflexivity|].
  apply id_invalide_neg in Hi.
  now rewrite (bind_int_ok contact_id (conj Hi H)).
Qed.

Lemma obtenir_contact_par_id_accord (db : database) (contact_id : Z) :
  contact_id <= Sql.max_integer ->
  Appel.obtenir_contact_par_id contact_id db
  = obtenir_contact_par_id contact_id db.
Proof.
  intros H. unfold Appel.obtenir_contact_par_id, obtenir_contact_par_id.
  destruct (id_invalide contact_id) eqn:Hi; [reflexivity|].
  apply id_invalide_neg in Hi.
  now rewrite (bind_int_ok contact_id (conj Hi H)).
Qed.


Lemma supprimer_contact_overflow (db : database) (contact_id : Z) :
  Sql.max_integer < contact_id ->
  Appel.supprimer_contact contact_id db
  = (Raise (OverflowError "Python int too large to convert to SQLite INTEGER"),
     db).
Proof.
  intros H. unfold Appel.supprimer_contact.
  rewrite id_invalide_pos by (unfold Sql.max_integer in H; lia).
  now rewrite (bind_int_overflow _ H).
Qed.

Lemma obtenir_contact_par_id_overflow (db : database) (contact_id : Z) :
  Sql.max_integer < contact_id ->
  Appel.obtenir_contact_par_id contact_id db
  = (Raise (OverflowError "Python int too large to convert to SQLite INTEGER"),
     db).
Proof.
  intros H. unfold Appel.obtenir_contact_par_id.
  rewrite id_invalide_pos by (unfold Sql.max_integer in H; lia).
  now rewrite (bind_int_overflow _ H).
Qed.

End Binding.

(** ** Update *)





(** ** Delete *)

(** The deletion on an id as the table holds them. *)
Lemma supprimer_contact_spec (db : database) (contact_id : Z) :
  0 < contact_id ->
  ((forall r, In r (contacts db) -> c_id r <> contact_id) ->
   supprimer_contact contact_id db = (Ok false, db))
  /\
  ((exists r, In r (contacts db) /\ c_id r = contact_id) ->
   exists db',
     supprimer_contact contact_id db = (Ok true, db') /\
     (forall r, In r (contacts db') -> c_id r <> contact_id) /\
     obtenir_contact_par_id contact_id db' = (Ok None, db')).
Proof.
  intros Hi. unfold supprimer_contact.
  rewrite (id_invalide_pos _ Hi). unfold initialiser_base, Sql.delete. split.
  - intros Habs. pose proof (filter_has_id_nil _ _ Habs) as E.
    rewrite E, (delete_untouched _ _ E), db_eta. reflexivity.
  - intros (r & Hin & Hid).
    destruct (filter_has_id_cons _ _ _ Hin Hid) as (x & rest & E).
    rewrite E. eexists; split; [reflexivity|]. split.
    + simpl. intros y Hy. apply filter_In in Hy as [_ Hy].
      apply negb_true_iff, Z.eqb_neq in Hy. exact Hy.
    + unfold obtenir_contact_par_id. rewrite (id_invalide_pos _ Hi).
      unfold initialiser_base, Sql.select_by_id; simpl contacts.
      rewrite delete_then_select. reflexivity.
Qed.

(** C3, as the specification words it, fails: [2^63] is a positive id
    that no line has, and [supprimer_contact] on it does not return
    [False]: it raises [OverflowError]. *)
Lemma C3_id_hors_64_bits :
  0 < hors_64_bits /\
  (forall r, In r (contacts db_dupont) -> c_id r <> hors_64_bits) /\
  Appel.supprimer_contact hors_64_bits db_dupont
  = (Raise (OverflowError "Python int too large to convert to SQLite INTEGER"),
     db_dupont) /\
  fst (Appel.supprimer_contact hors_64_bits db_dupont) <> Ok false.
Proof.
  split; [reflexivity|].
  split; [intros r [<- | []]; discriminate|].
  split; [reflexivity | discriminate].
Qed.

(** C3, amended: for a positive id that fits in 64 bits,
    [supprimer_contact] returns [False] (and changes nothing) when no
    line has that id; when a line has it, it returns [True], no line
    has the id any more, and [obtenir_contact_par_id] on that id then
    returns [None].  For a positive id that does not fit in 64 bits it
    raises [OverflowError] and changes nothing. *)
Theorem C3_supprimer_contact (db : database) (contact_id : Z) :
  0 < contact_id ->
  (contact_id <= Sql.max_integer ->
   ((forall r, In r (contacts db) -> c_id r <> contact_id) ->
    Appel.supprimer_contact contact_id db = (Ok false, db))
   /\
   ((exists r, In r (contacts db) /\ c_id r = contact_id) ->
    exists db',
      Appel.supprimer_contact contact_id db = (Ok true, db') /\
      (forall r, In r (contacts db') -> c_id r <> contact_id) /\
      Appel.obtenir_contact_par_id contact_id db' = (Ok None, db')))
  /\
  (Sql.max_integer < contact_id ->
   Appel.supprimer_contact contact_id db
   = (Raise (OverflowError "Python int too large to convert to SQLite INTEGER"),
      db)).
Proof.
  intros Hi. split.
  - intros Hm. rewrite (supprimer_contact_accord_64 _ _ Hm).
    destruct (supprimer_contact_spec db contact_id Hi) as [A B].
    split; [exact A|].
    intros Hr. destruct (B Hr) as (db' & E & N & R). exists db'.
    split; [exact E|]. split; [exact N|].
    now rewrite (obtenir_contact_par_id_accord _ _ Hm).
  - intros Hm. now apply supprimer_contact_overflow.
Qed.

Lemma C3_supprimer_contact_witness :
  (1 <= Sql.max_integer ->
   ((forall r, In r (contacts db_dupont) -> c_id r <> 1) ->
    Appel.supprimer_contact 1 db_dupont = (Ok false, db_dupont))
   /\
   ((exists r, In r (contacts db_dupont) /\ c_id r = 1) ->
    exists db',
      Appel.supprimer_contact 1 db_dupont = (Ok true, db') /\
      (forall r, In r (contacts db') -> c_id r <> 1) /\
      Appel.obtenir_contact_par_id 1 db' = (Ok None, db')))
  /\
  (Sql.max_integer < 1 ->
   Appel.supprimer_contact 1 db_dupont
   = (Raise (OverflowError "Python int too large to convert to SQLite INTEGER"),
      db_dupont)).
Proof.
  apply (C3_supprimer_contact db_dupont 1); lia.
Defined.

(** ** [ORDER BY nom, prenom] *)

Section OrderBy.

Lemma code_inj (x y : ascii) : code x = code y -> x = y.
Proof.
  unfold code; intros H.
  rewrite <- (ascii_N_embedding x), <- (ascii_N_embedding y).
  now rewrite H.
Qed.

Lemma text_compare_eq (a b : text) : Sql.text_compare a b = Eq -> a = b.
Proof.
  revert b; induction a as [|x a IH]; intros [|y b]; simpl;
    try discriminate; [reflexivity|].
  destruct (N.compare_spec (code x) (code y)) as [E | L | G];
    try discriminate.
  intros H. now rewrite (code_inj _ _ E), (IH _ H).
Qed.

Lemma text_compare_refl (a : text) : Sql.text_compare a a = Eq.
Proof.
  induction a as [|x a IH]; simpl; [reflexivity|].
  now rewrite N.compare_refl.
Qed.

Lemma text_compare_antisym (a b : text) :
  Sql.text_compare b a = CompOpp (Sql.text_compare a b).
Proof.
  revert b; induction a as [|x a IH]; intros [|y b]; simpl;
    try reflexivity.
  rewrite (N.compare_antisym (code x) (code y)).
  destruct (code x ?= code y)%N; simpl; auto.
Qed.

Lemma text_compare_lt_trans (a b c : text) :
  Sql.text_compare a b = Lt -> Sql.text_compare b c = Lt ->
  Sql.text_compare a c = Lt.
Proof.
  revert b c; induction a as [|x a IH]; intros [|y b] [|z c]; simpl;
    try discriminate; try reflexivity.
  destruct (N.compare_spec (code x) (code y)) as [E | L | G];
    try discriminate;
    destruct (N.compare_spec (code y) (code z)) as [E' | L' | G'];
    try discriminate; intros H H'.
  - rewrite E, E', N.compare_refl. eauto.
  - rewrite E. now apply N.compare_lt_iff in L' as ->.
  - rewrite <- E'. now apply N.compare_lt_iff in L as ->.
  - assert (L2 : (code x < code z)%N) by lia.
    now apply N.compare_lt_iff in L2 as ->.
Qed.

(** What [order_le] decides: [nom] strictly before, or the same [nom]
    and [prenom] not after. *)
Lemma order_le_cases (r1 r2 : contact) :
  Sql.order_le r1 r2 = true <->
  Sql.text_compare (c_nom r1) (c_nom r2) = Lt \/
  (c_nom r1 = c_nom r2 /\
   Sql.text_compare (c_prenom r1) (c_prenom r2) <> Gt).
Proof.
  unfold Sql.order_le.
  destruct (Sql.text_compare (c_nom r1) (c_nom r2)) eqn:E.
  - apply text_compare_eq in E.
    destruct (Sql.text_compare (c_prenom r1) (c_prenom r2)); split;
      try (intros _; right; split; [assumption | discriminate]);
      try reflexivity; try discriminate.
    intros [H | [_ H]]; [discriminate | now elim H].
  - split; [now left | reflexivity].
  - split; [discriminate|].
    intros [H | [H _]]; [discriminate|].
    rewrite H, text_compare_refl in E; discriminate.
Qed.

(** The BINARY collation is the ascending order on character codes. *)
Lemma avant_text_compare (s t : text) :
  avant s t <-> Sql.text_compare s t = Lt.
Proof.
  split.
  - induction 1 as [d t | c d s t H | c s t _ IH]; simpl.
    + reflexivity.
    + now apply N.compare_lt_iff in H as ->.
    + now rewrite N.compare_refl.
  - revert t; induction s as [|c s IH]; intros [|d t]; simpl;
      try discriminate; [constructor|].
    destruct (N.compare_spec (code c) (code d)) as [E | L | G];
      try discriminate.
    + apply code_inj in E as ->. intros H. apply avant_suite. now apply IH.
    + intros _. now apply avant_car.
Qed.

(** [order_le] decides the order of the specification. *)
Lemma ordre_order_le (r1 r2 : contact) :
  ordre r1 r2 <-> Sql.order_le r1 r2 = true.
Proof.
  rewrite order_le_cases. unfold ordre. rewrite !avant_text_compare.
  split; (intros [H | [E H]]; [now left | right; split; [exact E|]]).
  - destruct H as [H | H]; [|rewrite H; discriminate].
    rewrite H, text_compare_refl. discriminate.
  - destruct (Sql.text_compare (c_prenom r1) (c_prenom r2)) eqn:C.
    + left. now apply text_compare_eq.
    + now right.
    + now elim H.
Qed.

Lemma ordre_total (r1 r2 : contact) : ordre r1 r2 \/ ordre r2 r1.
Proof.
  rewrite !ordre_order_le. unfold Sql.order_le.
  rewrite (text_compare_antisym (c_nom r1) (c_nom r2)),
          (text_compare_antisym (c_prenom r1) (c_prenom r2)).
  destruct (Sql.text_compare (c_nom r1) (c_nom r2)); simpl; auto.
  destruct (Sql.text_compare (c_prenom r1) (c_prenom r2)); simpl; auto.
Qed.

Lemma ordre_trans (r1 r2 r3 : contact) :
  ordre r1 r2 -> ordre r2 r3 -> ordre r1 r3.
Proof.
  rewrite !ordre_order_le, !order_le_cases.
  intros [L | [E P]] [L' | [E' P']].
  - left; eauto using text_compare_lt_trans.
  - left; now rewrite <- E'.
  - left; now rewrite E.
  - right; split; [congruence|].
    destruct (Sql.text_compare (c_prenom r1) (c_prenom r2)) eqn:C1;
      [| | now elim P].
    + apply text_compare_eq in C1. now rewrite C1.
    + destruct (Sql.text_compare (c_prenom r2) (c_prenom r3)) eqn:C2;
        [| | now elim P'].
      * apply text_compare_eq in C2. rewrite <- C2, C1. discriminate.
      * rewrite (text_compare_lt_trans _ _ _ C1 C2). discriminate.
Qed.

Lemma place_perm (r : contact) (l : list contact) :
  Permutation (Sql.place r l) (r :: l).
Proof.
  induction l as [|x l IH]; simpl; [reflexivity|].
  destruct (Sql.order_le r x); [reflexivity|].
  rewrite IH. apply perm_swap.
Qed.

Lemma place_hd (r a : contact) (l : list contact) :
  ordre a r -> HdRel ordre a l -> HdRel ordre a (Sql.place r l).
Proof.
  intros Har H. destruct l as [|x l]; simpl; [now constructor|].
  destruct (Sql.order_le r x); constructor; [assumption|].
  now inversion H.
Qed.

Lemma place_sorted (r : contact) (l : list contact) :
  Sorted ordre l -> Sorted ordre (Sql.place r l).
Proof.
  induction 1 as [|x l Hs IH Hd]; simpl; [repeat constructor|].
  destruct (Sql.order_le r x) eqn:E.
  - constructor; [now constructor | constructor; now apply ordre_order_le].
  - constructor; [assumption|].
    apply place_hd; [|assumption].
    destruct (ordre_total r x) as [H | H]; [|assumption].
    apply ordre_order_le in H; congruence.
Qed.

Lemma order_by_perm (l : list contact) : Permutation (Sql.order_by l) l.
Proof.
  induction l as [|r l IH]; simpl; [reflexivity|].
  rewrite place_perm. now constructor.
Qed.

Lemma order_by_sorted (l : list contact) :
  StronglySorted ordre (Sql.order_by l).
Proof.
  apply Sorted_StronglySorted; [exact ordre_trans|].
  induction l as [|r l IH]; simpl; [constructor|].
  now apply place_sorted.
Qed.

End OrderBy.

(** The collation tells the cases apart: every upper-case letter is
    before every lower-case one, so [Zola] is listed before [abel]. *)
Lemma ordre_majuscules_avant :
  let zola := mkContact 1 (txt "Zola") (txt "Emile") None None None in
  let abel := mkContact 2 (txt "abel") (txt "Niels") None None None in
  Sql.order_by [abel; zola] = [zola; abel] /\
  ordre zola abel /\ ~ ordre abel zola.
Proof.
  split; [reflexivity|]. split.
  - left. apply avant_car. vm_compute. reflexivity.
  - rewrite ordre_order_le. discriminate.
Qed.

(** Four contacts created in another order than the listing order:
    the list has the two [Dupont] first, [Anne] before [Jean], then
    [Zola], then [abel]. *)
Lemma afficher_tous_exemple :
  exists l,
    afficher_tous (run ops_desordre empty_db)
    = (Ok l, run ops_desordre empty_db) /\
    map (fun c => (c_id c, c_nom c, c_prenom c)) l
    = [(4, txt "Dupont", txt "Anne"); (3, txt "Dupont", txt "Jean");
       (2, txt "Zola", txt "Emile"); (1, txt "abel", txt "Niels")].
Proof. eexists; split; reflexivity. Qed.

(** C6: after any sequence of calls on a new database, [afficher_tous]
    returns every line of the table, each once, in ascending order of
    ([nom], [prenom]): each line is, under [ordre], before all that
    follow it, texts being compared character code by character code
    (an upper-case letter before every lower-case one). *)
Theorem C6_afficher_tous_ordonne (ops : list op) :
  let db := run ops empty_db in
  exists l,
    afficher_tous db = (Ok l, db) /\
    Permutation l (contacts db) /\
    StronglySorted ordre l.
Proof.
  intros db. exists (Sql.order_by (contacts db)).
  split; [reflexivity|].
  split; [apply order_by_perm | apply order_by_sorted].
Qed.

Lemma C6_afficher_tous_ordonne_witness :
  let db := run ops_desordre empty_db in
  exists l,
    afficher_tous db = (Ok l, db) /\
    Permutation l (contacts db) /\
    StronglySorted ordre l.
Proof. exact (C6_afficher_tous_ordonne ops_desordre). Defined.

(** ** Ids over a storage lifetime *)

Section Lifetime.

Lemma ajouter_contact_cases
    (n p : text) (t e a : option text) (db : database) :
  (exists m, ajouter_contact n p t e a db = (Raise m, db)) \/
  (exists db',
     ajouter_contact n p t e a db = (Ok (sqlite_sequence db'), db') /\
     sqlite_sequence db'
     = Z.max (sqlite_sequence db) (Sql.max_rowid (contacts db)) + 1 /\
     exists r, contacts db' = contacts db ++ [r] /\
               c_id r = sqlite_sequence db').
Proof.
  unfold ajouter_contact.
  destruct (negb (truthy n) || negb (truthy (strip n))); [left; eauto|].
  destruct (negb (truthy p) || negb (truthy (strip p))); [left; eauto|].
  right. unfold initialiser_base, Sql.insert.
  eexists (mkDb _ _); split; [reflexivity|]; simpl. split; [reflexivity|].
  eexists; split; reflexivity.
Qed.

(** The calls that only read leave the database as it is. *)
Lemma lectures_sans_effet (db : database) :
  (forall c, snd (rechercher_contact c db) = db) /\
  snd (afficher_tous db) = db /\
  (forall i, snd (obtenir_contact_par_id i db) = db).
Proof.
  repeat split; intros.
  - unfold rechercher_contact.
    destruct (negb (truthy c) || negb (truthy (strip c))); [reflexivity|].
    cbv zeta. now destruct (Sql.execute_select_like _ _ _ _).
  - unfold obtenir_contact_par_id. now destruct (id_invalide i).
Qed.

Lemma modifier_contact_db
    (i : Z) (n p : text) (t e a : option text) (db : database) :
  sqlite_sequence (snd (modifier_contact i n p t e a db))
  = sqlite_sequence db /\
  map c_id (contacts (snd (modifier_contact i n p t e a db)))
  = map c_id (contacts db).
Proof.
  unfold modifier_contact.
  destruct (id_invalide i); [now split|].
  destruct (negb (truthy n) || negb (truthy (strip n))); [now split|].
  destruct (negb (truthy p) || negb (truthy (strip p))); [now split|].
  simpl; split; [reflexivity|].
  rewrite map_map. apply map_ext. intros r; unfold Sql.set.
  now destruct (Sql.has_id i r).
Qed.

Lemma supprimer_contact_db (i : Z) (db : database) :
  sqlite_sequence (snd (supprimer_contact i db)) = sqlite_sequence db /\
  incl (contacts (snd (supprimer_contact i db))) (contacts db).
Proof.
  unfold supprimer_contact.
  destruct (id_invalide i); simpl; split;
    try reflexivity; try apply incl_refl.
  intros r Hr. now apply filter_In in Hr.
Qed.

Lemma exec_seq_mono (o : op) (db : database) :
  sqlite_sequence db <= sqlite_sequence (exec o db).
Proof.
  destruct o as [n p t e a | c | i n p t e a | i | | i]; simpl.
  - destruct (ajouter_contact_cases n p t e a db)
      as [[m ->] | (db' & -> & E & _)]; simpl; lia.
  - rewrite (proj1 (lectures_sans_effet db)); lia.
  - rewrite (proj1 (modifier_contact_db i n p t e a db)); lia.
  - rewrite (proj1 (supprimer_contact_db i db)); lia.
  - reflexivity.
  - rewrite (proj2 (proj2 (lectures_sans_effet db))); lia.
Qed.

Lemma exec_ok (o : op) (db : database) : db_ok db -> db_ok (exec o db).
Proof.
  unfold db_ok. intros H.
  destruct o as [n p t e a | c | i n p t e a | i | | i]; simpl.
  - destruct (ajouter_contact_cases n p t e a db)
      as [[m ->] | (db' & -> & E & r & Er & Hr)]; simpl; [assumption|].
    rewrite Er.
    pose proof (max_rowid_nonneg (contacts db)).
    apply Forall_app; split.
    + eapply Forall_impl; [|exact H]. simpl; intros; lia.
    + constructor; [lia | constructor].
  - now rewrite (proj1 (lectures_sans_effet db)).
  - destruct (modifier_contact_db i n p t e a db) as [-> E].
    apply Forall_forall. intros r Hr.
    assert (Hi : In (c_id r) (map c_id (contacts db)))
      by (rewrite <- E; now apply in_map).
    apply in_map_iff in Hi as (r' & <- & Hr').
    exact (proj1 (Forall_forall _ _) H r' Hr').
  - destruct (supprimer_contact_db i db) as [-> I].
    apply Forall_forall. intros r Hr.
    exact (proj1 (Forall_forall _ _) H r (I r Hr)).
  - assumption.
  - now rewrite (proj2 (proj2 (lectures_sans_effet db))).
Qed.

Lemma run_app (ops1 ops2 : list op) (db : database) :
  run (ops1 ++ ops2) db = run ops2 (run ops1 db).
Proof. apply fold_left_app. Qed.

Lemma run_cons (o : op) (ops : list op) (db : database) :
  run (o :: ops) db = run ops (exec o db).
Proof. reflexivity. Qed.

Lemma run_seq_mono (ops : list op) (db : database) :
  sqlite_sequence db <= sqlite_sequence (run ops db).
Proof.
  revert db; induction ops as [|o ops IH]; intros db; [simpl; lia|].
  rewrite run_cons.
  pose proof (exec_seq_mono o db). specialize (IH (exec o db)). lia.
Qed.

Lemma run_ok (ops : list op) (db : database) :
  db_ok db -> db_ok (run ops db).
Proof.
  revert db; induction ops as [|o ops IH]; intros db H;
    [assumption|].
  rewrite run_cons. apply IH, exec_ok, H.
Qed.

Lemma empty_db_ok : db_ok empty_db.
Proof. constructor. Qed.

(** Every id returned so far is above the counter the lifetime started
    with and at most the counter now. *)
Lemma ids_retournes_bound (ops : list op) (db : database) :
  Forall (fun j => sqlite_sequence db < j <= sqlite_sequence (run ops db))
         (ids_retournes ops db).
Proof.
  revert db; induction ops as [|o ops IH]; intros db;
    [constructor|].
  rewrite run_cons. cbn [ids_retournes].
  apply Forall_app; split.
  - pose proof (run_seq_mono ops (exec o db)) as M.
    destruct o as [n p t e a | c | i n p t e a | i | | i];
      try constructor.
    cbn [exec] in M |- *.
    destruct (ajouter_contact_cases n p t e a db)
      as [[m E] | (db' & E & Hseq & _)]; rewrite E in *; cbn [fst snd] in *;
      constructor; [|constructor].
    pose proof (max_rowid_nonneg (contacts db)). lia.
  - eapply Forall_impl; [|apply IH].
    cbv beta. intros j Hj. pose proof (exec_seq_mono o db). lia.
Qed.

(** The ids are returned in strictly increasing order. *)
Lemma ids_retournes_croissants (ops : list op) (db : database) :
  StronglySorted Z.lt (ids_retournes ops db).
Proof.
  revert db; induction ops as [|o ops IH]; intros db;
    [constructor|].
  cbn [ids_retournes].
  pose proof (ids_retournes_bound ops (exec o db)) as B.
  destruct o as [n p t e a | c | i n p t e a | i | | i];
    try apply IH.
  cbn [exec] in *.
  destruct (ajouter_contact_cases n p t e a db)
    as [[m E] | (db' & E & Hseq & _)]; rewrite E in *; cbn [fst snd] in *;
    [apply IH|].
  cbn [app]. constructor; [apply IH|].
  eapply Forall_impl; [|exact B]. cbv beta; intros; lia.
Qed.

(** PRIMARY KEY: no two lines of the table have the same id. *)
Lemma filter_ids_NoDup (f : contact -> bool) (l : list contact) :
  NoDup (map c_id l) -> NoDup (map c_id (filter f l)).
Proof.
  induction l as [|x l IH]; simpl; [trivial|].
  intros H. inversion H as [|? ? Hx Hl]; subst.
  destruct (f x); simpl; [|auto].
  constructor; [|auto].
  intros Hin. apply Hx. apply in_map_iff in Hin as (y & E & Hy).
  apply filter_In in Hy as [Hy _]. rewrite <- E. now apply in_map.
Qed.

Lemma exec_ids_distincts (o : op) (db : database) :
  db_ok db -> NoDup (map c_id (contacts db)) ->
  NoDup (map c_id (contacts (exec o db))).
Proof.
  intros Hok H.
  destruct o as [n p t e a | c | i n p t e a | i | | i]; simpl.
  - destruct (ajouter_contact_cases n p t e a db)
      as [[m ->] | (db' & -> & E & r & Er & Hr)]; simpl; [assumption|].
    rewrite Er, map_app. simpl.
    apply NoDup_rev in H. rewrite <- (rev_involutive (_ ++ _)).
    apply NoDup_rev. rewrite rev_app_distr. simpl.
    constructor; [|assumption].
    rewrite <- in_rev. intros Hin.
    apply in_map_iff in Hin as (y & Ey & Hy).
    pose proof (proj1 (Forall_forall _ _) Hok y Hy) as B. cbv beta in B.
    pose proof (max_rowid_nonneg (contacts db)). lia.
  - now rewrite (proj1 (lectures_sans_effet db)).
  - now rewrite (proj2 (modifier_contact_db i n p t e a db)).
  - unfold supprimer_contact. destruct (id_invalide i); simpl; [assumption|].
    now apply filter_ids_NoDup.
  - assumption.
  - now rewrite (proj2 (proj2 (lectures_sans_effet db))).
Qed.

Lemma run_ids_distincts (ops : list op) :
  NoDup (map c_id (contacts (run ops empty_db))).
Proof.
  assert (G : forall db, db_ok db -> NoDup (map c_id (contacts db)) ->
                         NoDup (map c_id (contacts (run ops db)))).
  { induction ops as [|o ops IH]; intros db Hok H; [assumption|].
    rewrite run_cons. apply IH; [now apply exec_ok|].
    now apply exec_ids_distincts. }
  apply G; [exact empty_db_ok | constructor].
Qed.

End Lifetime.

(** C5: in a lifetime that starts on a new database, whatever calls
    came before, the id that a successful [ajouter_contact] returns is
    positive, above every id returned before, and above the id of every
    line that was in the table at any earlier moment, deleted since or
    not. *)
Theorem C5_ids_jamais_reutilises
    (avant : list op) (nom prenom : text)
    (telephone email adresse : option text) (i : Z) :
  fst (ajouter_contact nom prenom telephone email adresse (run avant empty_db))
  = Ok i ->
  0 < i /\
  Forall (fun j => j < i) (ids_retournes avant empty_db) /\
  (forall k r, In r (contacts (run (firstn k avant) empty_db)) -> c_id r < i).
Proof.
  intros H.
  destruct (ajouter_contact_cases nom prenom telephone email adresse
              (run avant empty_db)) as [[m E] | (db' & E & Hseq & _)];
    rewrite E in H; simpl in H; [discriminate|].
  injection H as <-.
  pose proof (max_rowid_nonneg (contacts (run avant empty_db))) as P.
  split; [lia|]. split.
  - eapply Forall_impl; [|apply ids_retournes_bound].
    cbv beta; intros j Hj. lia.
  - intros k r Hr.
    pose proof (run_ok (firstn k avant) empty_db empty_db_ok) as Hok.
    pose proof (proj1 (Forall_forall _ _) Hok r Hr) as Hid.
    pose proof (run_seq_mono (skipn k avant) (run (firstn k avant) empty_db))
      as M.
    rewrite <- run_app, firstn_skipn in M. cbv beta in Hid. lia.
Qed.

Lemma C5_ids_jamais_reutilises_witness :
  0 < 3 /\
  Forall (fun j => j < 3)
         (ids_retournes [Ajouter Dupont Jean None None None;
                         Ajouter Jean Dupont None None None;
                         Supprimer 2] empty_db) /\
  (forall k r,
     In r (contacts (run (firstn k [Ajouter Dupont Jean None None None;
                                    Ajouter Jean Dupont None None None;
                                    Supprimer 2]) empty_db)) ->
     c_id r < 3).
Proof.
  apply (C5_ids_jamais_reutilises
           [Ajouter Dupont Jean None None None;
            Ajouter Jean Dupont None None None;
            Supprimer 2] Dupont Dupont None None None 3).
  reflexivity.
Defined.

(** ** [LIKE] *)

Section Like.

Ltac by_cases_on c :=
  destruct c as [[] [] [] [] [] [] [] []]; vm_compute;
  try reflexivity; try discriminate.

Lemma ascii_lower_idem (c : ascii) :
  Sql.ascii_lower (Sql.ascii_lower c) = Sql.ascii_lower c.
Proof. by_cases_on c. Qed.

Lemma ascii_lower_percent (c : ascii) :
  Ascii.eqb (Sql.ascii_lower c) Sql.percent = Ascii.eqb c Sql.percent.
Proof. by_cases_on c. Qed.

Lemma ascii_lower_underscore (c : ascii) :
  Ascii.eqb (Sql.ascii_lower c) Sql.underscore = Ascii.eqb c Sql.underscore.
Proof. by_cases_on c. Qed.

Lemma ascii_lower_nul (c : ascii) :
  Ascii.eqb (Sql.ascii_lower c) nul = Ascii.eqb c nul.
Proof. by_cases_on c. Qed.


Lemma tous_les_caracteres_complet (c : ascii) : In c tous_les_caracteres.
Proof.
  assert (H : existsb (Ascii.eqb c) tous_les_caracteres = true)
    by (by_cases_on c).
  apply existsb_exists in H as (x & Hx & E).
  apply Ascii.eqb_eq in E. now subst x.
Qed.

Lemma pour_tous_caracteres (P : ascii -> ascii -> bool) :
  forallb (fun c => forallb (P c) tous_les_caracteres) tous_les_caracteres
  = true ->
  forall c d, P c d = true.
Proof.
  intros H c d. rewrite forallb_forall in H.
  specialize (H c (tous_les_caracteres_complet c)).
  rewrite forallb_forall in H.
  exact (H d (tous_les_caracteres_complet d)).
Qed.

(** [LOWER] folds the case as the specification means it: two
    characters have the same folded form exactly when they are the same
    without regard to case. *)
Lemma egal_sans_casse_lower (c d : ascii) :
  egal_sans_casse c d
  = Ascii.eqb (Sql.ascii_lower c) (Sql.ascii_lower d).
Proof.
  apply eqb_prop.
  apply (pour_tous_caracteres
           (fun c d => Bool.eqb (egal_sans_casse c d)
                         (Ascii.eqb (Sql.ascii_lower c) (Sql.ascii_lower d)))).
  vm_compute. reflexivity.
Qed.

Lemma lower_text_app (a b : text) :
  Sql.lower_text (a ++ b) = Sql.lower_text a ++ Sql.lower_text b.
Proof. apply map_app. Qed.

(** One step of [%]: it stands for nothing, or for one character
    more. *)
Lemma like_percent (p s : text) :
  Sql.glob (Sql.percent :: p) s
  = Sql.glob p s
    || match s with
       | [] => false
       | _ :: s' => Sql.glob (Sql.percent :: p) s'
       end.
Proof. destruct s; reflexivity. Qed.

Lemma like_percent_intro (p : text) :
  (forall s, Sql.glob p s = true) ->
  forall s, Sql.glob (Sql.percent :: p) s = true.
Proof. intros H s. now rewrite like_percent, H. Qed.

Lemma like_percent_alone (s : text) : Sql.glob [Sql.percent] s = true.
Proof.
  induction s as [|c s IH]; [reflexivity|].
  rewrite like_percent, IH. apply orb_true_r.
Qed.

Lemma like_percent_iff (p s : text) :
  Sql.glob (Sql.percent :: p) s = true <->
  exists a b, s = a ++ b /\ Sql.glob p b = true.
Proof.
  induction s as [|d s IH]; rewrite like_percent, orb_true_iff.
  - split.
    + intros [H | H]; [now exists [], [] | discriminate].
    + intros (a & b & E & H). left.
      symmetry in E. apply app_eq_nil in E as [_ ->]. exact H.
  - rewrite IH. split.
    + intros [H | (a & b & -> & H)]; [now exists [], (d :: s)|].
      now exists (d :: a), b.
    + intros ([|x a] & b & E & H).
      * left. simpl in E. now rewrite E.
      * right. injection E as _ ->. now exists a, b.
Qed.

Lemma like_underscore (p s : text) :
  Sql.glob (Sql.underscore :: p) s
  = match s with [] => false | _ :: s' => Sql.glob p s' end.
Proof. destruct s; reflexivity. Qed.

Lemma like_ordinary (c : ascii) (p s : text) :
  Ascii.eqb c Sql.percent = false ->
  Ascii.eqb c Sql.underscore = false ->
  Sql.glob (c :: p) s
  = match s with
    | [] => false
    | d :: s' =>
        Ascii.eqb (Sql.ascii_lower c) (Sql.ascii_lower d)
        && Sql.glob p s'
    end.
Proof. intros Hp Hu. simpl. rewrite Hp, Hu. reflexivity. Qed.


(** Reading up to the first NUL. *)
Lemma c_string_lower (s : text) :
  Sql.c_string (Sql.lower_text s) = Sql.lower_text (Sql.c_string s).
Proof.
  induction s as [|c s IH]; [reflexivity|].
  cbn [Sql.lower_text map Sql.c_string]. rewrite ascii_lower_nul.
  destruct (Ascii.eqb c nul); [reflexivity|].
  cbn [Sql.lower_text map]. f_equal. exact IH.
Qed.


Lemma c_string_spec (s0 s : text) :
  debut_sans_nul s0 s <-> s0 = Sql.c_string s.
Proof.
  unfold debut_sans_nul, sans_nul. split.
  - revert s; induction s0 as [|x s0 IH]; intros s [Hn H].
    + destruct H as [-> | [b ->]]; reflexivity.
    + assert (Hx : Ascii.eqb x nul = false)
        by (apply Ascii.eqb_neq; intros ->; apply Hn; now left).
      assert (Hn' : ~ In nul s0) by (intros Hs; apply Hn; now right).
      destruct H as [-> | [b ->]]; cbn [Sql.c_string app]; rewrite Hx;
        f_equal; apply IH; split; auto.
      right. now exists b.
  - intros ->. induction s as [|c s [Hn H]]; cbn [Sql.c_string].
    + split; [intros [] | now left].
    + destruct (Ascii.eqb c nul) eqn:E.
      * apply Ascii.eqb_eq in E as ->.
        split; [intros [] | right; now exists s].
      * apply Ascii.eqb_neq in E. split.
        -- intros [Hc | Hs]; [now elim E | now apply Hn].
        -- destruct H as [H | [b H]]; [left | right; exists b];
             simpl; now f_equal.
Qed.



Lemma is_true_or (a b : option bool) :
  Sql.is_true (Sql.or a b) = Sql.is_true a || Sql.is_true b.
Proof. destruct a as [[]|], b as [[]|]; reflexivity. Qed.





(** [debute_par] and [contient] in words: [q] is found in [s], character
    by character without regard to case, at the start of [s], or
    anywhere in [s] with no NUL before the place. *)
Lemma debute_par_spec (q s : text) :
  debute_par q s = true <->
  exists m b,
    s = m ++ b /\ Forall2 (fun c d => egal_sans_casse c d = true) q m.
Proof.
  revert s; induction q as [|c q IH]; intros s.
  - split; [intros _; exists [], s; split; [reflexivity | constructor]
           | reflexivity].
  - destruct s as [|d s]; cbn [debute_par].
    + split; [discriminate|].
      intros (m & b & E & F). inversion F; subst. discriminate.
    + rewrite andb_true_iff, IH. split.
      * intros [E (m & b & -> & F)]. exists (d :: m), b.
        split; [reflexivity | now constructor].
      * intros (m & b & E & F). inversion F as [|? y ? m' Hy F']; subst.
        injection E as -> ->. split; [assumption | now exists m', b].
Qed.

Lemma contient_spec (q s : text) :
  contient q s = true <->
  exists a m b,
    s = a ++ m ++ b /\ sans_nul a /\
    Forall2 (fun c d => egal_sans_casse c d = true) q m.
Proof.
  unfold sans_nul.
  induction s as [|d s IH]; cbn [contient];
    rewrite orb_true_iff, debute_par_spec.
  - split.
    + intros [(m & b & E & F) | H]; [|discriminate].
      exists [], m, b. split; [exact E | split; [intros [] | exact F]].
    + intros ([|x a] & m & b & E & _ & F); [|discriminate].
      left. now exists m, b.
  - rewrite andb_true_iff, negb_true_iff, IH. split.
    + intros [(m & b & E & F) | [Hd (a & m & b & E & Ha & F)]].
      * exists [], m, b. split; [exact E | split; [intros [] | exact F]].
      * exists (d :: a), m, b. split; [simpl; now f_equal|].
        split; [|exact F].
        intros [Hx | Hx]; [|now apply Ha].
        apply Ascii.eqb_neq in Hd. now elim Hd.
    + intros ([|x a] & m & b & E & Ha & F).
      * left. now exists m, b.
      * right. injection E as <- E. split.
        -- apply Ascii.eqb_neq. intros ->. apply Ha. now left.
        -- exists a, m, b. split; [exact E|].
           split; [|exact F]. intros Hx. apply Ha. now right.
Qed.

(** The comparison of LIKE on folded texts decides the wildcard form
    of the specification. *)
Lemma glob_forme (p s : text) :
  Sql.glob (Sql.lower_text p) (Sql.lower_text s) = true <-> forme p s.
Proof.
  revert s; induction p as [|c p IH]; intros s.
  - destruct s; simpl; split; intros H;
      try constructor; try discriminate; inversion H.
  - cbn [Sql.lower_text map].
    destruct (Ascii.eqb c Sql.percent) eqn:Ec;
      [|destruct (Ascii.eqb c Sql.underscore) eqn:Eu].
    + apply Ascii.eqb_eq in Ec; subst c.
      change (Sql.ascii_lower Sql.percent) with Sql.percent.
      rewrite like_percent_iff. split.
      * intros (a & b & E & H). unfold Sql.lower_text in E.
        apply map_eq_app in E as (a' & b' & -> & <- & <-).
        apply forme_pourcent. now apply IH.
      * intros H. inversion H as [|? a s' H'| |? ? ? ? Hc]; subst.
        -- exists (Sql.lower_text a), (Sql.lower_text s').
           split; [apply map_app | now apply IH].
        -- now elim Hc.
    + apply Ascii.eqb_eq in Eu; subst c.
      change (Sql.ascii_lower Sql.underscore) with Sql.underscore.
      rewrite like_underscore.
      destruct s as [|d s].
      * split; [discriminate | intros H; inversion H].
      * change (Sql.glob (Sql.lower_text p) (Sql.lower_text s) = true
                <-> forme (Sql.underscore :: p) (d :: s)).
        rewrite IH. split; [now constructor|].
        intros H.
        inversion H as [| |? ? ? H'|? ? ? ? _ Hc]; subst;
          [assumption | now elim Hc].
    + rewrite like_ordinary
        by (now rewrite ?ascii_lower_percent, ?ascii_lower_underscore).
      apply Ascii.eqb_neq in Ec, Eu.
      destruct s as [|d s].
      * split; [discriminate|].
        intros H. inversion H; subst. now elim Ec.
      * change (Ascii.eqb (Sql.ascii_lower (Sql.ascii_lower c))
                          (Sql.ascii_lower (Sql.ascii_lower d))
                && Sql.glob (Sql.lower_text p) (Sql.lower_text s) = true
                <-> forme (c :: p) (d :: s)).
        rewrite !ascii_lower_idem, <- egal_sans_casse_lower,
          andb_true_iff, IH.
        split.
        -- intros [E H]. now apply forme_car.
        -- intros H.
           inversion H as [|? a s' H' E1 E2| |]; subst;
             [now elim Ec | now elim Eu | now split].
Qed.

(** One comparison of the WHERE clause: it is true when the field is
    not NULL and has the form of the pattern. *)
Lemma like_joker (p : text) (o : option text) :
  Sql.is_true (Sql.like (Sql.lower o) (Sql.lower (Some p))) = true <->
  joker_dans p o.
Proof.
  unfold joker_dans. destruct o as [s|];
    cbn [Sql.lower option_map Sql.like Sql.is_true].
  - unfold Sql.like_text. rewrite !c_string_lower.
    destruct (Sql.glob (Sql.lower_text (Sql.c_string p))
                       (Sql.lower_text (Sql.c_string s))) eqn:G.
    + apply glob_forme in G. split; [intros _ | reflexivity].
      exists s, (Sql.c_string p), (Sql.c_string s).
      split; [reflexivity|].
      split; [now apply c_string_spec|].
      split; [now apply c_string_spec | exact G].
    + split; [discriminate|].
      intros (s' & p0 & s0 & E & Hp & Hs & F). injection E as <-.
      apply c_string_spec in Hp, Hs. subst p0 s0.
      apply glob_forme in F. congruence.
  - split; [discriminate|].
    intros (s' & p0 & s0 & E & _). discriminate.
Qed.

(** The WHERE clause keeps the lines of which a searched field has the
    form of the pattern. *)
Lemma where_like_selectionne (p : text) (r : contact) :
  Sql.where_like p p p r = true <-> selectionne p r.
Proof.
  unfold Sql.where_like, selectionne.
  rewrite !is_true_or, !orb_true_iff, <- !like_joker.
  cbn [Sql.lower option_map]. tauto.
Qed.

Lemma filter_all {A} (f : A -> bool) (l : list A) :
  (forall x, In x l -> f x = true) -> filter f l = l.
Proof.
  induction l as [|x l IH]; simpl; intros H; [reflexivity|].
  rewrite (H x) by now left.
  f_equal. apply IH. intros y Hy. apply H. now right.
Qed.

(** *** The length of the pattern *)

Lemma utf8_length_cons (c : ascii) (s : text) :
  Sql.utf8_length (c :: s)
  = (if (code c <? 128)%N then 1 else 2) + Sql.utf8_length s.
Proof. reflexivity. Qed.

(** The engine's count of bytes is the count of the specification. *)
Lemma utf8_length_octets (s : text) : Sql.utf8_length s = octets s.
Proof.
  unfold octets. induction s as [|c s IH]; [reflexivity|].
  rewrite utf8_length_cons, IH. cbn [filter List.length].
  destruct (N.ltb_spec (code c) 128) as [H | H].
  - replace (127 <? code c)%N with false
      by (symmetry; apply N.ltb_ge; lia).
    lia.
  - replace (127 <? code c)%N with true
      by (symmetry; apply N.ltb_lt; lia).
    cbn [List.length]. lia.
Qed.

Lemma ascii_lower_ascii (c : ascii) :
  (code (Sql.ascii_lower c) <? 128)%N = (code c <? 128)%N.
Proof. by_cases_on c. Qed.

Lemma utf8_length_lower (s : text) :
  Sql.utf8_length (Sql.lower_text s) = Sql.utf8_length s.
Proof.
  induction s as [|c s IH]; [reflexivity|].
  cbn [Sql.lower_text map]. rewrite !utf8_length_cons, ascii_lower_ascii.
  f_equal. exact IH.
Qed.

Lemma utf8_length_app (a b : text) :
  Sql.utf8_length (a ++ b) = Sql.utf8_length a + Sql.utf8_length b.
Proof.
  induction a as [|c a IH]; [reflexivity|].
  cbn [app]. rewrite !utf8_length_cons, IH. lia.
Qed.

Lemma utf8_length_pattern (q : text) :
  Sql.utf8_length (txt "%" ++ q ++ txt "%") = octets q + 2.
Proof.
  rewrite !utf8_length_app, <- utf8_length_octets.
  change (Sql.utf8_length (txt "%")) with 1. lia.
Qed.

Lemma like_call_ok (x : option text) (p : text) :
  Sql.utf8_length p <= Sql.max_like_pattern_length ->
  Sql.like_call x (Sql.lower (Some p)) = Ok (Sql.like x (Sql.lower (Some p))).
Proof.
  intros H. unfold Sql.like_call. cbn [Sql.lower option_map].
  rewrite utf8_length_lower.
  now rewrite (proj2 (Z.ltb_ge _ _) H).
Qed.

Lemma like_call_raise (x : option text) (p : text) :
  Sql.max_like_pattern_length < Sql.utf8_length p ->
  Sql.like_call x (Sql.lower (Some p))
  = Raise (OperationalError "LIKE or GLOB pattern too complex").
Proof.
  intros H. unfold Sql.like_call. cbn [Sql.lower option_map].
  rewrite utf8_length_lower.
  now rewrite (proj2 (Z.ltb_lt _ _) H).
Qed.

(** With patterns within the limit the condition has its value. *)
Lemma where_like_eval_ok (p1 p2 p3 : text) (r : contact) :
  Sql.utf8_length p1 <= Sql.max_like_pattern_length ->
  Sql.utf8_length p2 <= Sql.max_like_pattern_length ->
  Sql.utf8_length p3 <= Sql.max_like_pattern_length ->
  Sql.where_like_eval p1 p2 p3 r = Ok (Sql.where_like p1 p2 p3 r).
Proof.
  intros H1 H2 H3. unfold Sql.where_like_eval, Sql.where_like.
  rewrite !like_call_ok by assumption.
  destruct (Sql.like (Sql.lower (Some (c_nom r))) (Sql.lower (Some p1)))
    as [[]|];
    destruct (Sql.like (Sql.lower (c_telephone r)) (Sql.lower (Some p2)))
      as [[]|];
    destruct (Sql.like (Sql.lower (c_email r)) (Sql.lower (Some p3)))
      as [[]|];
    reflexivity.
Qed.

(** With a first pattern beyond the limit it fails on any line. *)
Lemma where_like_eval_raise (p1 p2 p3 : text) (r : contact) :
  Sql.max_like_pattern_length < Sql.utf8_length p1 ->
  Sql.where_like_eval p1 p2 p3 r
  = Raise (OperationalError "LIKE or GLOB pattern too complex").
Proof.
  intros H. unfold Sql.where_like_eval. now rewrite (like_call_raise _ _ H).
Qed.

Lemma scan_ok (condition : contact -> result bool) (f : contact -> bool)
    (rows : list contact) :
  (forall r, condition r = Ok (f r)) ->
  Sql.scan condition rows = Ok (filter f rows).
Proof.
  intros H. induction rows as [|r rows IH]; [reflexivity|].
  cbn [Sql.scan filter]. rewrite H, IH. now destruct (f r).
Qed.

Lemma scan_ext (c1 c2 : contact -> result bool) (rows : list contact) :
  (forall r, c1 r = c2 r) -> Sql.scan c1 rows = Sql.scan c2 rows.
Proof.
  intros H. induction rows as [|r rows IH]; [reflexivity|].
  cbn [Sql.scan]. now rewrite H, IH.
Qed.

(** A scan that ends well has kept some of the lines, in their order. *)
Lemma scan_filter (condition : contact -> result bool)
    (rows l : list contact) :
  Sql.scan condition rows = Ok l ->
  l = filter (fun r => match condition r with
                       | Ok keep => keep
                       | Raise _ => false
                       end) rows.
Proof.
  revert l; induction rows as [|r rows IH]; intros l; cbn [Sql.scan filter].
  - now intros [= <-].
  - destruct (condition r) as [keep | e]; [|discriminate].
    destruct (Sql.scan condition rows) as [l' | e]; [|discriminate].
    intros [= <-]. rewrite <- (IH l' eq_refl). reflexivity.
Qed.

(** The search statement: the lines of [select_like] when the pattern
    is within the limit; when it is not, a failure as soon as there is
    a line to test. *)
Lemma execute_select_like_ok (db : database) (p : text) :
  Sql.utf8_length p <= Sql.max_like_pattern_length ->
  Sql.execute_select_like db p p p = Ok (Sql.select_like db p p p).
Proof.
  intros H. unfold Sql.execute_select_like, Sql.select_like.
  rewrite (scan_ok _ (Sql.where_like p p p)); [reflexivity|].
  intros r. now apply where_like_eval_ok.
Qed.

Lemma execute_select_like_raise (db : database) (p : text) :
  Sql.max_like_pattern_length < Sql.utf8_length p ->
  contacts db <> [] ->
  Sql.execute_select_like db p p p
  = Raise (OperationalError "LIKE or GLOB pattern too complex").
Proof.
  intros H Hne. unfold Sql.execute_select_like.
  destruct (contacts db) as [|r rows]; [now elim Hne|].
  cbn [Sql.scan]. now rewrite (where_like_eval_raise _ _ _ _ H).
Qed.

Lemma execute_select_like_inv (db : database) (p : text) (l : list contact) :
  Sql.execute_select_like db p p p = Ok l -> l = Sql.select_like db p p p.
Proof.
  destruct (Z.le_gt_cases (Sql.utf8_length p) Sql.max_like_pattern_length)
    as [H | H].
  - rewrite (execute_select_like_ok db p H). now intros [= <-].
  - destruct (contacts db) as [|r rows] eqn:E.
    + unfold Sql.execute_select_like, Sql.select_like. rewrite E.
      now intros [= <-].
    + rewrite (execute_select_like_raise db p H); [discriminate|].
      rewrite E. discriminate.
Qed.

Lemma execute_select_like_sur (db : database) (p : text) :
  Sql.utf8_length p <= Sql.max_like_pattern_length \/ contacts db = [] ->
  Sql.execute_select_like db p p p = Ok (Sql.select_like db p p p).
Proof.
  intros [H | H]; [now apply execute_select_like_ok|].
  unfold Sql.execute_select_like, Sql.select_like. now rewrite H.
Qed.

(** The three outcomes of [rechercher_contact] on a criterion that is
    not empty once trimmed. *)
Lemma rechercher_contact_admis (critere : text) (db : database) :
  strip critere <> [] -> motif_admis (strip critere) ->
  let pattern := txt "%" ++ strip critere ++ txt "%" in
  rechercher_contact critere db
  = (Ok (Sql.select_like db pattern pattern pattern), db).
Proof.
  intros Hne Hm pattern. unfold rechercher_contact.
  rewrite (requis_ok _ Hne). cbv zeta. fold pattern.
  rewrite execute_select_like_ok; [reflexivity|].
  unfold pattern. rewrite utf8_length_pattern. exact Hm.
Qed.


Lemma rechercher_contact_table_vide (critere : text) (db : database) :
  strip critere <> [] -> contacts db = [] ->
  rechercher_contact critere db = (Ok [], db).
Proof.
  intros Hne Hdb. unfold rechercher_contact.
  rewrite (requis_ok _ Hne). cbv zeta.
  unfold Sql.execute_select_like, initialiser_base. now rewrite Hdb.
Qed.

(** The long criterion of the examples: [strip] leaves it as it is,
    and it has one byte more than a pattern can take. *)
Lemma rev_repeat {A} (x : A) (n : nat) : rev (repeat x n) = repeat x n.
Proof.
  induction n as [|n IH]; [reflexivity|].
  cbn [repeat rev]. rewrite IH. symmetry. apply repeat_cons.
Qed.

Lemma strip_repeat (c : ascii) (n : nat) :
  py_isspace c = false -> strip (repeat c n) = repeat c n.
Proof.
  intros H.
  assert (L : lstrip (repeat c n) = repeat c n)
    by (destruct n; simpl; [reflexivity | now rewrite H]).
  unfold strip, rstrip. now rewrite L, rev_repeat, L, rev_repeat.
Qed.

Lemma octets_repeat (c : ascii) (n : nat) :
  (127 <? code c)%N = false -> octets (repeat c n) = Z.of_nat n.
Proof.
  intros H. unfold octets. rewrite repeat_length.
  replace (filter (fun c => (127 <? code c)%N) (repeat c n)) with (@nil ascii);
    [simpl; lia|].
  induction n as [|n IH]; [reflexivity|].
  cbn [repeat filter]. now rewrite H.
Qed.

Lemma critere_trop_long_spec :
  strip critere_trop_long = critere_trop_long /\
  critere_trop_long <> [] /\
  octets critere_trop_long = 49999 /\
  sans_joker critere_trop_long /\ sans_nul critere_trop_long.
Proof.
  unfold critere_trop_long. split; [now apply strip_repeat|].
  split.
  - intros E. apply (f_equal (@List.length ascii)) in E.
    rewrite repeat_length in E. simpl in E. lia.
  - split; [rewrite octets_repeat by reflexivity; now rewrite N_nat_Z|].
    unfold sans_joker, sans_nul.
    repeat split; intros H; apply repeat_spec in H; discriminate.
Qed.

End Like.

(** ** Search *)




(** The search of the witness above, evaluated: the two [Dupont], [Anne]
    before [Jean], and neither [Zola] nor [abel]. *)
Lemma rechercher_contact_exemple :
  let db := run ops_desordre empty_db in
  fst (rechercher_contact (txt " dUP ") db)
  = Ok [mkContact 4 (txt "Dupont") (txt "Anne") None None None;
        mkContact 3 (txt "Dupont") (txt "Jean") None None None] /\
  filter (correspond (strip (txt " dUP "))) (contacts db)
  = [mkContact 3 (txt "Dupont") (txt "Jean") None None None;
     mkContact 4 (txt "Dupont") (txt "Anne") None None None].
Proof. split; reflexivity. Qed.

(** C10: [%] and [_] in the criterion are LIKE wildcards, not literal
    characters.  For every criterion that makes a pattern of at most
    50 000 bytes, [rechercher_contact] returns the lines of which the
    [nom], the [telephone] or the [email] has the form [%criterion%],
    where [%] stands for any run of characters and [_] for exactly one.
    So searching for [%] returns every line of any table.  On the
    sample table, searching for [%] or for [D_p] returns the contact
    although neither occurs in any of its fields; [D%t] returns it too;
    [D_t] and [D%x], of which no field has the form, return nothing. *)
Theorem C10_jokers :
  (forall critere db,
     strip critere <> [] -> motif_admis (strip critere) ->
     exists l,
       rechercher_contact critere db = (Ok l, db) /\
       forall r,
         In r l <->
         In r (contacts db) /\
         selectionne (txt "%" ++ strip critere ++ txt "%") r)
  /\
  (forall db, exists l,
     rechercher_contact (txt "%") db = (Ok l, db) /\
     Permutation l (contacts db))
  /\
  (rechercher_contact (txt "%") db_dupont = (Ok (contacts db_dupont), db_dupont)
   /\ rechercher_contact (txt "D_p") db_dupont
      = (Ok (contacts db_dupont), db_dupont)
   /\ rechercher_contact (txt "D%t") db_dupont
      = (Ok (contacts db_dupont), db_dupont)
   /\ contacts db_dupont <> []
   /\ forall r, In r (contacts db_dupont) ->
        correspond (txt "%") r = false /\
        correspond (txt "D_p") r = false /\
        correspond (txt "D%t") r = false)
  /\
  (rechercher_contact (txt "D_t") db_dupont = (Ok [], db_dupont) /\
   rechercher_contact (txt "D%x") db_dupont = (Ok [], db_dupont)).
Proof.
  split; [|split; [|split]].
  - intros critere db Hne Hm.
    rewrite (rechercher_contact_admis _ db Hne Hm). unfold Sql.select_like.
    eexists; split; [reflexivity|].
    intros r. rewrite <- where_like_selectionne, <- filter_In.
    split; intros H.
    + exact (Permutation_in _ (order_by_perm _) H).
    + exact (Permutation_in _ (Permutation_sym (order_by_perm _)) H).
  - intros db.
    rewrite (rechercher_contact_admis (txt "%") db)
      by (vm_compute; discriminate).
    eexists; split; [reflexivity|].
    unfold Sql.select_like.
    rewrite order_by_perm, filter_all; [reflexivity|].
    intros r _. unfold Sql.where_like. rewrite !is_true_or.
    cbn [Sql.lower option_map Sql.like Sql.is_true].
    change (Sql.like_text
              (Sql.lower_text (txt "%" ++ strip (txt "%") ++ txt "%")))
      with (fun s => Sql.glob [Sql.percent; Sql.percent; Sql.percent]
                              (Sql.c_string s)).
    cbv beta.
    now rewrite (like_percent_intro _
                   (like_percent_intro _ like_percent_alone)).
  - split; [reflexivity|]. split; [reflexivity|]. split; [reflexivity|].
    split; [discriminate|].
    intros r [<- | []]. repeat split; reflexivity.
  - split; reflexivity.
Qed.

Lemma C10_jokers_witness :
  exists l,
    rechercher_contact (txt "D_p") db_dupont = (Ok l, db_dupont) /\
    forall r,
      In r l <->
      In r (contacts db_dupont) /\
      selectionne (txt "%" ++ strip (txt "D_p") ++ txt "%") r.
Proof.
  apply (proj1 C10_jokers (txt "D_p") db_dupont);
    vm_compute; discriminate.
Defined.

(** ** The email pattern *)

Section EmailPattern.

Ltac every_char c :=
  destruct c as [[] [] [] [] [] [] [] []]; vm_compute; reflexivity.

Lemma class_local (c : ascii) :
  Re.in_class (Controller.alnum
               ++ [Re.One "."; Re.One "_"; Re.One "%"; Re.One "+";
                   Re.One "-"]%char) c
  = car_local c.
Proof. every_char c. Qed.

Lemma class_domaine (c : ascii) :
  Re.in_class (Controller.alnum ++ [Re.One "."; Re.One "-"]%char) c
  = car_domaine c.
Proof. every_char c. Qed.

Lemma class_lettre (c : ascii) :
  Re.in_class [Re.Range "a" "z"; Re.Range "A" "Z"]%char c = lettre c.
Proof. every_char c. Qed.

(** A repetition matches when the text splits into a run of the
    class, [min] long or more, and a rest that the continuation
    matches. *)
Lemma rep_spec (cls : list Re.class_item) (k : nat -> text -> bool)
    (s : text) :
  forall min pos,
    Re.rep cls k min pos s = true <->
    exists a b,
      s = a ++ b /\ forallb (Re.in_class cls) a = true /\
      (min <= List.length a)%nat /\ k (pos + List.length a)%nat b = true.
Proof.
  induction s as [|c s IH]; intros min pos; simpl.
  - rewrite andb_true_iff, Nat.eqb_eq. split.
    + intros [-> H]. exists [], []. simpl. rewrite Nat.add_0_r. auto.
    + intros (a & b & E & _ & Hm & Hk).
      symmetry in E. apply app_eq_nil in E as [-> ->]. simpl in *.
      rewrite Nat.add_0_r in Hk. split; [lia | assumption].
  - rewrite orb_true_iff, !andb_true_iff, IH, Nat.eqb_eq. split.
    + intros [[Hc (a & b & -> & Ha & Hm & Hk)] | [-> Hk]].
      * exists (c :: a), b. simpl. rewrite Hc, Ha.
        repeat split; [lia|]. now rewrite Nat.add_succ_r.
      * exists [], (c :: s). simpl. rewrite Nat.add_0_r. auto.
    + intros ([|x a] & b & E & Ha & Hm & Hk); simpl in *.
      * right. subst b. rewrite Nat.add_0_r in Hk. split; [lia | assumption].
      * left. injection E as -> ->.
        apply andb_true_iff in Ha as [Hc Ha]. split; [assumption|].
        exists a, b. repeat split; [assumption | lia |].
        now rewrite Nat.add_succ_r in Hk.
Qed.

Lemma run_chr (c : ascii) (p : list Re.item) (pos : nat) (s : text) :
  Re.run (Re.Chr c :: p) pos s = true <->
  exists s', s = c :: s' /\ Re.run p (S pos) s' = true.
Proof.
  destruct s as [|d s]; simpl.
  - split; [discriminate | intros (s' & E & _); discriminate].
  - rewrite andb_true_iff, Ascii.eqb_eq. split.
    + intros [-> H]. eauto.
    + intros (s' & E & H). injection E as -> ->. auto.
Qed.

Lemma run_bol (p : list Re.item) (pos : nat) (s : text) :
  Re.run (Re.Bol :: p) pos s = Nat.eqb pos 0 && Re.run p pos s.
Proof. reflexivity. Qed.

Lemma run_rep (cls : list Re.class_item) (min : nat) (p : list Re.item)
    (pos : nat) (s : text) :
  Re.run (Re.Rep cls min :: p) pos s = Re.rep cls (Re.run p) min pos s.
Proof. reflexivity. Qed.

Lemma run_eol (pos : nat) (s : text) :
  Re.run [Re.Eol] pos s = Re.at_end s.
Proof. simpl. apply andb_true_r. Qed.

Lemma at_end_spec (s : text) :
  Re.at_end s = true <-> s = [] \/ s = [Re.newline].
Proof.
  destruct s as [|c [|d s]]; simpl.
  - split; auto.
  - rewrite Ascii.eqb_eq. split.
    + intros ->; now right.
    + intros [E | E]; [discriminate | now injection E].
  - split; [discriminate | intros [E | E]; discriminate].
Qed.

Lemma forallb_ext_eq {A} (f g : A -> bool) (l : list A) :
  (forall x, f x = g x) -> forallb f l = forallb g l.
Proof. intros H. induction l; simpl; [reflexivity | now rewrite H, IHl]. Qed.

(** What the pattern matches: the form of the specification, or that
    form followed by one newline. *)
Lemma match_pattern (e : text) :
  Re.match_ Controller.pattern e = true <->
  forme_email e \/ exists e', e = e' ++ [Re.newline] /\ forme_email e'.
Proof.
  unfold Re.match_, Controller.pattern.
  rewrite run_bol, run_rep, Nat.eqb_refl, andb_true_l, rep_spec. split.
  - intros (l & b1 & -> & Hl & Hl1 & H).
    apply run_chr in H as (b2 & -> & H).
    rewrite run_rep in H. apply rep_spec in H as (d & b3 & -> & Hd & Hd1 & H).
    apply run_chr in H as (b4 & -> & H).
    rewrite run_rep in H. apply rep_spec in H as (t & b5 & -> & Ht & Ht1 & H).
    rewrite run_eol in H.
    rewrite (forallb_ext_eq _ _ _ class_local) in Hl.
    rewrite (forallb_ext_eq _ _ _ class_domaine) in Hd.
    rewrite (forallb_ext_eq _ _ _ class_lettre) in Ht.
    assert (F : forme_email (l ++ "@"%char :: d ++ "."%char :: t))
      by (exists l, d, t; repeat split; assumption).
    apply at_end_spec in H as [-> | ->].
    + left. now rewrite app_nil_r.
    + right. exists (l ++ "@"%char :: d ++ "."%char :: t). split; [|exact F].
      rewrite <- !app_assoc. simpl. rewrite <- !app_assoc. reflexivity.
  - assert (G : forall l d t fin,
               (1 <= List.length l)%nat -> forallb car_local l = true ->
               (1 <= List.length d)%nat -> forallb car_domaine d = true ->
               (2 <= List.length t)%nat -> forallb lettre t = true ->
               Re.at_end fin = true ->
               exists a b,
                 l ++ "@"%char :: d ++ "."%char :: t ++ fin = a ++ b /\
                 forallb (Re.in_class
                   (Controller.alnum
                    ++ [Re.One "."; Re.One "_"; Re.One "%"; Re.One "+";
                        Re.One "-"]%char)) a = true /\
                 (1 <= List.length a)%nat /\
                 Re.run [Re.Chr "@";
                         Re.Rep (Controller.alnum
                                 ++ [Re.One "."; Re.One "-"]%char) 1;
                         Re.Chr ".";
                         Re.Rep [Re.Range "a" "z"; Re.Range "A" "Z"]%char 2;
                         Re.Eol] (0 + List.length a) b = true).
    { intros l d t fin Hl1 Hl Hd1 Hd Ht1 Ht Hfin.
      exists l. eexists; split; [reflexivity|].
      rewrite (forallb_ext_eq _ _ _ class_local). split; [assumption|].
      split; [assumption|].
      apply run_chr. eexists; split; [reflexivity|].
      rewrite run_rep. apply rep_spec.
      exists d. eexists; split; [reflexivity|].
      rewrite (forallb_ext_eq _ _ _ class_domaine). split; [assumption|].
      split; [assumption|].
      apply run_chr. eexists; split; [reflexivity|].
      rewrite run_rep. apply rep_spec.
      exists t, fin; split; [reflexivity|].
      rewrite (forallb_ext_eq _ _ _ class_lettre). split; [assumption|].
      split; [assumption|].
      now rewrite run_eol. }
    intros [(l & d & t & -> & Hl1 & Hl & Hd1 & Hd & Ht1 & Ht)
           | (e' & -> & l & d & t & -> & Hl1 & Hl & Hd1 & Hd & Ht1 & Ht)].
    + rewrite <- (app_nil_r t). now apply G.
    + replace ((l ++ "@"%char :: d ++ "."%char :: t) ++ [Re.newline])
        with (l ++ "@"%char :: d ++ "."%char :: t ++ [Re.newline]).
      * apply G; try assumption. vm_compute; reflexivity.
      * rewrite <- !app_assoc. simpl. rewrite <- !app_assoc. reflexivity.
Qed.

(** [valider_email] on any text. *)
Lemma valider_email_spec (email : text) :
  Controller.valider_email email = true <->
  email = [] \/ forme_email email
  \/ exists e', email = e' ++ [Re.newline] /\ forme_email e'.
Proof.
  unfold Controller.valider_email. destruct email as [|c s].
  - split; auto.
  - destruct (Re.match_ Controller.pattern (c :: s)) eqn:E.
    + apply match_pattern in E. split; auto.
    + split; [discriminate|].
      intros [H | H]; [discriminate|].
      apply match_pattern in H. congruence.
Qed.

(** A text of the specified form ends with a letter. *)
Lemma forme_email_fin (e : text) :
  forme_email e -> exists e' c, e = e' ++ [c] /\ lettre c = true.
Proof.
  intros (l & d & t & -> & _ & _ & _ & _ & Ht1 & Ht).
  destruct (exists_last (l := t)) as (t' & c & ->);
    [intros ->; simpl in Ht1; lia|].
  exists (l ++ "@"%char :: d ++ "."%char :: t'), c. split.
  - rewrite <- !app_assoc. simpl. rewrite <- !app_assoc. reflexivity.
  - rewrite forallb_app in Ht. apply andb_true_iff in Ht as [_ Ht].
    simpl in Ht. now rewrite andb_true_r in Ht.
Qed.

End EmailPattern.

(** Before any trimming, [valider_email] gives the five verdicts of
    the specification and accepts every text of the specified form; it
    also accepts such a text followed by a newline, which is not of
    that form: the [$] of the pattern matches before a final newline.
    The workflows never pass such a text, they trim the field first. *)
Lemma valider_email_newline :
  Controller.valider_email [] = true /\
  Controller.valider_email (txt "jean.dupont@example.com") = true /\
  Controller.valider_email (txt "nodomain") = false /\
  Controller.valider_email (txt "a@b") = false /\
  Controller.valider_email (txt "a@b.c") = false /\
  (forall e, forme_email e -> Controller.valider_email e = true) /\
  Controller.valider_email (txt "a@b.co" ++ [Re.newline]) = true /\
  ~ forme_email (txt "a@b.co" ++ [Re.newline]).
Proof.
  repeat (split; [reflexivity|]).
  split; [|split; [reflexivity|]].
  - intros e H. apply valider_email_spec. auto.
  - intros H. apply forme_email_fin in H as (e' & c & E & Hc).
    apply app_inj_tail in E as [_ <-]. discriminate.
Qed.

(** C8: the two checkers disagree on a non-empty email: the view shows
    [a@b.c1] as valid and [valider_email] refuses it. *)
Theorem C8_verificateurs_en_desaccord :
  exists email,
    email <> [] /\
    ContactView._valider_email_temps_reel email = ContactView.Format_valide /\
    Controller.valider_email email = false.
Proof.
  exists (txt "a@b.c1"). split; [discriminate|]. split; reflexivity.
Qed.

(** ** The Delete workflow *)

Section Delete.

Import Controller.

Ltac absurd_in :=
  repeat match goal with
         | H : In _ (_ :: _) |- _ => destruct H as [H | H]
         | H : In _ [] |- _ => destruct H
         | H : _ = _ |- _ => discriminate H
         end.

(** C9: whatever is selected, when the user answers no to the
    confirmation prompt the Delete workflow leaves the database as it
    was and never calls the model's [supprimer_contact]; with a
    contact selected it then ends normally after the prompt.  When the
    model's [supprimer_contact] is called, the user has answered yes
    and the call comes after the prompt. *)
Theorem C9_supprimer_apres_confirmation
    (v : vue) (db db' : database) (r : result unit) (appels : list appel) :
  Controller.supprimer_contact v db = (r, db', appels) ->
  (reponse v = false ->
   db' = db /\
   (forall i, ~ In (Modele_supprimer_contact i) appels) /\
   (forall i c, selection v = Some i -> In c (contacts db) -> c_id c = i ->
                0 < i ->
                r = Ok tt /\
                exists titre message,
                  appels = [Modele_obtenir_contact_par_id i;
                            Message_confirmation titre message]))
  /\
  (forall i, In (Modele_supprimer_contact i) appels ->
     reponse v = true /\
     db' = snd (CarnetAdresses.supprimer_contact i db) /\
     exists titre message avant apres,
       appels = avant ++ Message_confirmation titre message :: apres /\
       ~ In (Modele_supprimer_contact i) avant /\
       In (Modele_supprimer_contact i) apres).
Proof.
  destruct v as [[i|] rep]; unfold Controller.supprimer_contact, bind,
    get_selection, pas_de_selection, modele, vue_appel;
    cbn [selection reponse].
  2: { intros H; injection H as <- <- <-. split.
       - intros _. split; [reflexivity|]. split.
         + intros j Hj; absurd_in.
         + discriminate.
       - intros j Hj; absurd_in. }
  destruct (Z.eqb_spec i 0) as [Hi0 | Hi0].
  { intros H; injection H as <- <- <-. split.
    - intros _. split; [reflexivity|]. split.
      + intros j Hj; absurd_in.
      + intros j c E _ _ Hj. injection E as <-. lia.
    - intros j Hj; absurd_in. }
  unfold obtenir_contact_par_id.
  destruct (id_invalide i) eqn:Hinv.
  { intros H; injection H as <- <- <-. split.
    - intros _. split; [reflexivity|]. split.
      + intros j Hj; absurd_in.
      + intros j c E _ _ Hj. injection E as <-.
        rewrite (id_invalide_pos _ Hj) in Hinv. discriminate.
    - intros j Hj; absurd_in. }
  unfold initialiser_base, Sql.select_by_id.
  destruct (filter (Sql.has_id i) (contacts db)) as [|x rest] eqn:Hsel;
    cbn [Sql.fetchone indices_1_2 raise ret message_confirmation reponse].
  { intros H; injection H as <- <- <-. split.
    - intros _. split; [reflexivity|]. split.
      + intros j Hj; absurd_in.
      + intros j c E Hin Hid _. injection E as <-.
        destruct (filter_has_id_cons _ _ _ Hin Hid) as (y & l & E).
        rewrite E in Hsel. discriminate.
    - intros j Hj; absurd_in. }
  destruct rep; cbn [negb].
  - unfold afficher_tous, CarnetAdresses.afficher_tous, bind, modele,
      vue_appel, initialiser_base.
    destruct (CarnetAdresses.supprimer_contact i db) as [[b|e] db2] eqn:Hs.
    + cbn. intros H; injection H as <- <- <-. split; [discriminate|].
      intros j Hj. destruct Hj as [Hj | [Hj | Hj]]; try discriminate Hj.
      destruct Hj as [Hj | Hj]; [|absurd_in].
      injection Hj as <-. rewrite Hs. split; [reflexivity|].
      split; [reflexivity|].
      eexists; eexists; exists [Modele_obtenir_contact_par_id i].
      eexists; split; [reflexivity|]. split.
      * intros Hj; absurd_in.
      * now left.
    + unfold CarnetAdresses.supprimer_contact in Hs.
      rewrite Hinv in Hs. discriminate.
  - cbn. intros H; injection H as <- <- <-. split.
    + intros _. split; [reflexivity|]. split.
      * intros j Hj; absurd_in.
      * intros j c E _ _ _. injection E as <-. eauto.
    + intros j Hj; absurd_in.
Qed.

Lemma C9_supprimer_apres_confirmation_witness :
  let X := Controller.supprimer_contact vue_refus db_dupont in
  (reponse vue_refus = false ->
   snd (fst X) = db_dupont /\
   (forall i, ~ In (Modele_supprimer_contact i) (snd X)) /\
   (forall i c, selection vue_refus = Some i ->
                In c (contacts db_dupont) -> c_id c = i -> 0 < i ->
                fst (fst X) = Ok tt /\
                exists titre message,
                  snd X = [Modele_obtenir_contact_par_id i;
                           Message_confirmation titre message]))
  /\
  (forall i, In (Modele_supprimer_contact i) (snd X) ->
     reponse vue_refus = true /\
     snd (fst X) = snd (CarnetAdresses.supprimer_contact i db_dupont) /\
     exists titre message avant apres,
       snd X = avant ++ Message_confirmation titre message :: apres /\
       ~ In (Modele_supprimer_contact i) avant /\
       In (Modele_supprimer_contact i) apres).
Proof.
  intros X.
  apply (C9_supprimer_apres_confirmation vue_refus db_dupont
           (snd (fst X)) (fst (fst X)) (snd X)).
  reflexivity.
Defined.

End Delete.

(** * Further properties of the storage layer *)

Section Strip.

Lemma lstrip_fix (s : text) :
  match s with [] => True | c :: _ => py_isspace c = false end ->
  lstrip s = s.
Proof. destruct s as [|c s]; simpl; [trivial | now intros ->]. Qed.

Lemma lstrip_snoc (a : text) (c : ascii) :
  py_isspace c = false -> lstrip (a ++ [c]) = lstrip a ++ [c].
Proof.
  intros Hc. induction a as [|x a IH]; simpl; [now rewrite Hc|].
  destruct (py_isspace x); [exact IH | reflexivity].
Qed.

Lemma lstrip_snoc_ws (a : text) (c : ascii) :
  py_isspace c = true ->
  lstrip (a ++ [c]) = match lstrip a with [] => [] | _ :: _ => lstrip a ++ [c] end.
Proof.
  intros Hc. induction a as [|x a IH]; simpl; [now rewrite Hc|].
  destruct (py_isspace x); [exact IH | reflexivity].
Qed.

(** What [strip] returns has no whitespace at either end. *)
Lemma strip_bords (s : text) :
  lstrip (strip s) = strip s /\ lstrip (rev (strip s)) = rev (strip s).
Proof.
  unfold strip, rstrip. rewrite rev_involutive.
  pose proof (lstrip_head s) as H1.
  pose proof (lstrip_head (rev (lstrip s))) as H2.
  split; [|now apply lstrip_fix].
  destruct (lstrip s) as [|c u]; [reflexivity|].
  simpl rev in *. rewrite (lstrip_snoc _ _ H1), rev_app_distr. simpl.
  now rewrite H1.
Qed.

Lemma strip_fix (s : text) :
  lstrip s = s -> lstrip (rev s) = rev s -> strip s = s.
Proof.
  intros H1 H2. unfold strip, rstrip. now rewrite H1, H2, rev_involutive.
Qed.

Lemma strip_idem (s : text) : strip (strip s) = strip s.
Proof. destruct (strip_bords s). now apply strip_fix. Qed.

(** Whitespace added at the end is trimmed away. *)
Lemma strip_snoc_ws (s : text) (c : ascii) :
  py_isspace c = true -> strip (s ++ [c]) = strip s.
Proof.
  intros Hc. unfold strip, rstrip. rewrite (lstrip_snoc_ws _ _ Hc).
  destruct (lstrip s) as [|x u]; [reflexivity|].
  rewrite rev_app_distr. simpl rev at 2. simpl app at 1.
  cbn [lstrip]. now rewrite Hc.
Qed.

Lemma strip_or_none_rogne (o : option text) : rogne_opt (strip_or_none o).
Proof.
  destruct o as [[|c s]|]; simpl; trivial. apply strip_idem.
Qed.

End Strip.

Section Storage.

Lemma strip_vide_dec (s : text) : {strip s = []} + {strip s <> []}.
Proof. destruct (strip s); [now left | right; discriminate]. Qed.


(** X2: with an id that is zero or negative, [modifier_contact] (whatever
    the names are), [supprimer_contact] and [obtenir_contact_par_id]
    raise [ValueError] and leave the database as it was. *)
Theorem X2_identifiant_invalide
    (contact_id : Z) (nom prenom : text)
    (telephone email adresse : option text) (db : database) :
  contact_id <= 0 ->
  modifier_contact contact_id nom prenom telephone email adresse db
  = (Raise (ValueError "L'identifiant du contact est invalide"), db) /\
  supprimer_contact contact_id db
  = (Raise (ValueError "L'identifiant du contact est invalide"), db) /\
  obtenir_contact_par_id contact_id db
  = (Raise (ValueError "L'identifiant du contact est invalide"), db).
Proof.
  intros H.
  assert (E : id_invalide contact_id = true).
  { unfold id_invalide. apply orb_true_iff. right. now apply Z.leb_le. }
  unfold modifier_contact, supprimer_contact, obtenir_contact_par_id.
  now rewrite E.
Qed.

Lemma X2_identifiant_invalide_witness :
  modifier_contact (-3) Dupont Jean None None None db_dupont
  = (Raise (ValueError "L'identifiant du contact est invalide"), db_dupont) /\
  supprimer_contact (-3) db_dupont
  = (Raise (ValueError "L'identifiant du contact est invalide"), db_dupont) /\
  obtenir_contact_par_id (-3) db_dupont
  = (Raise (ValueError "L'identifiant du contact est invalide"), db_dupont).
Proof.
  apply (X2_identifiant_invalide (-3) Dupont Jean None None None db_dupont).
  lia.
Defined.

Lemma select_after_update (i j : Z) (n p : text) (t e a : option text)
    (rows : list contact) :
  i <> j ->
  filter (Sql.has_id j) (map (Sql.set i n p t e a) rows)
  = filter (Sql.has_id j) rows.
Proof.
  intros Hij. induction rows as [|x rows IH]; simpl; [reflexivity|].
  rewrite IH. unfold Sql.set at 1 2.
  destruct (Sql.has_id i x) eqn:E; [|reflexivity].
  unfold Sql.has_id in *. simpl. apply Z.eqb_eq in E. rewrite E.
  now rewrite (proj2 (Z.eqb_neq i j) Hij).
Qed.

Lemma select_after_delete (i j : Z) (rows : list contact) :
  i <> j ->
  filter (Sql.has_id j) (filter (fun r => negb (Sql.has_id i r)) rows)
  = filter (Sql.has_id j) rows.
Proof.
  intros Hij. induction rows as [|x rows IH]; simpl; [reflexivity|].
  destruct (Sql.has_id i x) eqn:E; simpl; rewrite IH; [|reflexivity].
  unfold Sql.has_id in *. apply Z.eqb_eq in E. rewrite E.
  now rewrite (proj2 (Z.eqb_neq i j) Hij).
Qed.

(** X3: a call that writes touches one id only.  Whatever
    [ajouter_contact], [modifier_contact] or [supprimer_contact] does,
    [obtenir_contact_par_id] on any other id returns what it returned
    before. *)
Theorem X3_autres_contacts_intacts
    (db : database) (i j : Z) (nom prenom : text)
    (telephone email adresse : option text) :
  i <> j ->
  (forall db',
     ajouter_contact nom prenom telephone email adresse db = (Ok i, db') ->
     fst (obtenir_contact_par_id j db') = fst (obtenir_contact_par_id j db))
  /\
  fst (obtenir_contact_par_id j
         (snd (modifier_contact i nom prenom telephone email adresse db)))
  = fst (obtenir_contact_par_id j db)
  /\
  fst (obtenir_contact_par_id j (snd (supprimer_contact i db)))
  = fst (obtenir_contact_par_id j db).
Proof.
  intros Hij. split; [|split].
  - intros db' H.
    destruct (ajouter_contact_cases nom prenom telephone email adresse db)
      as [[m E] | (d & E & Hseq & r & Er & Hr)];
      rewrite E in H; [discriminate|].
    injection H as Hi <-.
    unfold obtenir_contact_par_id. destruct (id_invalide j); [reflexivity|].
    unfold initialiser_base, Sql.select_by_id. simpl. rewrite Er, filter_app.
    simpl. unfold Sql.has_id at 2. rewrite Hr, Hi.
    rewrite (proj2 (Z.eqb_neq i j) Hij). now rewrite app_nil_r.
  - unfold modifier_contact.
    destruct (id_invalide i); [reflexivity|].
    destruct (negb (truthy nom) || negb (truthy (strip nom))); [reflexivity|].
    destruct (negb (truthy prenom) || negb (truthy (strip prenom)));
      [reflexivity|].
    unfold obtenir_contact_par_id. destruct (id_invalide j); [reflexivity|].
    unfold initialiser_base, Sql.select_by_id. simpl.
    now rewrite select_after_update.
  - unfold supprimer_contact.
    destruct (id_invalide i); [reflexivity|].
    unfold obtenir_contact_par_id. destruct (id_invalide j); [reflexivity|].
    unfold initialiser_base, Sql.select_by_id. simpl.
    now rewrite select_after_delete.
Qed.

Lemma X3_autres_contacts_intacts_witness :
  (forall db',
     ajouter_contact Jean Dupont None None None db_dupont = (Ok 2, db') ->
     fst (obtenir_contact_par_id 1 db')
     = fst (obtenir_contact_par_id 1 db_dupont))
  /\
  fst (obtenir_contact_par_id 1
         (snd (modifier_contact 2 Jean Dupont None None None db_dupont)))
  = fst (obtenir_contact_par_id 1 db_dupont)
  /\
  fst (obtenir_contact_par_id 1 (snd (supprimer_contact 2 db_dupont)))
  = fst (obtenir_contact_par_id 1 db_dupont).
Proof.
  apply (X3_autres_contacts_intacts db_dupont 2 1 Jean Dupont None None None).
  lia.
Defined.

Lemma set_set (i : Z) (n p : text) (t e a : option text) (r : contact) :
  Sql.set i n p t e a (Sql.set i n p t e a r) = Sql.set i n p t e a r.
Proof.
  unfold Sql.set. destruct (Sql.has_id i r) eqn:E; [|now rewrite E].
  unfold Sql.has_id in *. simpl. now rewrite E.
Qed.

Lemma has_id_set (i : Z) (n p : text) (t e a : option text) (r : contact) :
  Sql.has_id i (Sql.set i n p t e a r) = Sql.has_id i r.
Proof.
  unfold Sql.set. destruct (Sql.has_id i r) eqn:E; [|exact E].
  exact E.
Qed.

Lemma count_after_update (i : Z) (n p : text) (t e a : option text)
    (rows : list contact) :
  List.length (filter (Sql.has_id i) (map (Sql.set i n p t e a) rows))
  = List.length (filter (Sql.has_id i) rows).
Proof.
  induction rows as [|r l IH]; simpl; [reflexivity|].
  rewrite has_id_set. destruct (Sql.has_id i r); simpl; now rewrite IH.
Qed.

(** X4: [modifier_contact] called a second time with the same arguments
    returns the same answer and changes nothing more. *)
Theorem X4_modifier_contact_idempotent
    (db : database) (contact_id : Z) (nom prenom : text)
    (telephone email adresse : option text) :
  let premier :=
    modifier_contact contact_id nom prenom telephone email adresse db in
  modifier_contact contact_id nom prenom telephone email adresse (snd premier)
  = premier.
Proof.
  cbv zeta. unfold modifier_contact.
  destruct (id_invalide contact_id); [reflexivity|].
  destruct (negb (truthy nom) || negb (truthy (strip nom))); [reflexivity|].
  destruct (negb (truthy prenom) || negb (truthy (strip prenom)));
    [reflexivity|].
  unfold initialiser_base, Sql.update. simpl.
  rewrite count_after_update, map_map.
  now rewrite (map_ext _ _ (set_set contact_id _ _ _ _ _)).
Qed.

(** Once [supprimer_contact] has run on an id that the table could
    hold, a second call on that id finds nothing to delete. *)
Lemma supprimer_contact_deux_fois (db : database) (contact_id : Z) :
  0 < contact_id ->
  let db' := snd (supprimer_contact contact_id db) in
  supprimer_contact contact_id db' = (Ok false, db').
Proof.
  intros Hi. unfold supprimer_contact.
  rewrite (id_invalide_pos _ Hi). unfold initialiser_base, Sql.delete. simpl.
  rewrite delete_then_select. simpl.
  rewrite (delete_untouched _ _ (delete_then_select contact_id (contacts db))).
  reflexivity.
Qed.

(** X5: once [supprimer_contact] has run on a positive id, a second
    call on that id changes nothing; it returns [False] when the id
    fits in 64 bits, and raises [OverflowError], as the first call did,
    when it does not. *)
Theorem X5_supprimer_contact_deux_fois (db : database) (contact_id : Z) :
  0 < contact_id ->
  let db' := snd (Appel.supprimer_contact contact_id db) in
  Appel.supprimer_contact contact_id db'
  = (if contact_id <=? Sql.max_integer then Ok false
     else Raise (OverflowError
                   "Python int too large to convert to SQLite INTEGER"),
     db').
Proof.
  intros Hi. cbv zeta.
  destruct (Z.leb_spec contact_id Sql.max_integer) as [Hm | Hm].
  - rewrite !(supprimer_contact_accord_64 _ _ Hm).
    exact (supprimer_contact_deux_fois db contact_id Hi).
  - now rewrite !(supprimer_contact_overflow _ _ Hm).
Qed.

Lemma X5_supprimer_contact_deux_fois_witness :
  let db' := snd (Appel.supprimer_contact 1 db_dupont) in
  Appel.supprimer_contact 1 db'
  = (if 1 <=? Sql.max_integer then Ok false
     else Raise (OverflowError
                   "Python int too large to convert to SQLite INTEGER"),
     db').
Proof.
  apply (X5_supprimer_contact_deux_fois db_dupont 1). lia.
Defined.

End Storage.

Section StorageLifetime.

Lemma ajouter_contact_ok
    (n p : text) (t e a : option text) (db : database) :
  strip n <> [] -> strip p <> [] ->
  let i := Z.max (sqlite_sequence db) (Sql.max_rowid (contacts db)) + 1 in
  ajouter_contact n p t e a db
  = (Ok i,
     mkDb (contacts db
           ++ [mkContact i (strip n) (strip p) (strip_or_none t)
                         (strip_or_none e) (strip_or_none a)])
          i).
Proof.
  intros Hn Hp. unfold ajouter_contact.
  now rewrite (requis_ok _ Hn), (requis_ok _ Hp).
Qed.

Lemma ajouter_contact_ko
    (n p : text) (t e a : option text) (db : database) :
  strip n = [] \/ strip p = [] ->
  exists m, ajouter_contact n p t e a db = (Raise m, db).
Proof.
  intros H. unfold ajouter_contact.
  destruct (strip_vide_dec n) as [En | Hn];
    [rewrite (requis_vide _ En); eauto|].
  rewrite (requis_ok _ Hn).
  destruct H as [H | H]; [contradiction|].
  rewrite (requis_vide _ H). eauto.
Qed.

Lemma max_rowid_le_seq (db : database) :
  db_ok db -> 0 <= sqlite_sequence db ->
  Sql.max_rowid (contacts db) <= sqlite_sequence db.
Proof.
  unfold db_ok. generalize (contacts db) as l. intros l H H0.
  induction H as [|r l Hr Hl IH]; simpl; [assumption|].
  cbv beta in Hr. lia.
Qed.

(** Only a successful [ajouter_contact] moves the counter. *)
Lemma exec_seq (o : op) (db : database) :
  db_ok db -> 0 <= sqlite_sequence db ->
  sqlite_sequence (exec o db)
  = sqlite_sequence db + Z.of_nat (List.length (ids_retournes [o] db)) /\
  ids_retournes [o] db
  = map (fun k => sqlite_sequence db + Z.of_nat k)
        (seq 1 (List.length (ids_retournes [o] db))).
Proof.
  intros Hok H0. cbn [ids_retournes]. rewrite app_nil_r.
  destruct o as [n p t e a | c | i n p t e a | i | | i]; cbn [exec].
  - destruct (strip_vide_dec n) as [En | Hn];
      [destruct (ajouter_contact_ko n p t e a db (or_introl En)) as [m ->];
       simpl; split; [lia | reflexivity]|].
    destruct (strip_vide_dec p) as [Ep | Hp];
      [destruct (ajouter_contact_ko n p t e a db (or_intror Ep)) as [m ->];
       simpl; split; [lia | reflexivity]|].
    rewrite (ajouter_contact_ok n p t e a db Hn Hp). simpl.
    pose proof (max_rowid_le_seq db Hok H0).
    split; [lia | f_equal; lia].
  - rewrite (proj1 (lectures_sans_effet db)). simpl. split; [lia | reflexivity].
  - rewrite (proj1 (modifier_contact_db i n p t e a db)). simpl.
    split; [lia | reflexivity].
  - rewrite (proj1 (supprimer_contact_db i db)). simpl.
    split; [lia | reflexivity].
  - rewrite (proj1 (proj2 (lectures_sans_effet db))). simpl.
    split; [lia | reflexivity].
  - rewrite (proj2 (proj2 (lectures_sans_effet db))). simpl.
    split; [lia | reflexivity].
Qed.

Lemma ids_retournes_cons (o : op) (ops : list op) (db : database) :
  ids_retournes (o :: ops) db
  = ids_retournes [o] db ++ ids_retournes ops (exec o db).
Proof. cbn [ids_retournes]. now rewrite app_nil_r. Qed.

Lemma ids_consecutifs (ops : list op) :
  forall db, db_ok db -> 0 <= sqlite_sequence db ->
    ids_retournes ops db
    = map (fun k => sqlite_sequence db + Z.of_nat k)
          (seq 1 (List.length (ids_retournes ops db))).
Proof.
  induction ops as [|o ops IH]; intros db Hok H0; [reflexivity|].
  rewrite ids_retournes_cons, length_app, seq_app, map_app.
  destruct (exec_seq o db Hok H0) as [Es Ei].
  rewrite <- Ei. f_equal.
  rewrite (IH (exec o db)) at 1;
    [|now apply exec_ok | pose proof (exec_seq_mono o db); lia].
  rewrite Es.
  set (a := List.length (ids_retournes [o] db)).
  set (b := List.length (ids_retournes ops (exec o db))).
  replace (1 + a)%nat with (a + 1)%nat by lia.
  clearbody a b. clear.
  revert a. generalize 1%nat as s.
  induction b as [|b IHb]; intros s a; [reflexivity|].
  simpl. f_equal; [lia|]. rewrite (IHb (S s) a). now rewrite Nat.add_succ_r.
Qed.

(** X6: on a new database the successful [ajouter_contact] calls return
    1, 2, 3, ... in this order, whatever other calls (deletions
    included) come in between. *)
Theorem X6_ids_consecutifs (ops : list op) :
  ids_retournes ops empty_db
  = map Z.of_nat (seq 1 (List.length (ids_retournes ops empty_db))).
Proof.
  rewrite (ids_consecutifs ops empty_db empty_db_ok) at 1;
    [|simpl; lia].
  apply map_ext. intros k. simpl. lia.
Qed.

Lemma select_unique (l : list contact) (c : contact) :
  NoDup (map c_id l) -> In c l -> filter (Sql.has_id (c_id c)) l = [c].
Proof.
  induction l as [|x l IH]; simpl; [easy|].
  intros Hnd Hin. inversion Hnd as [|? ? Hx Hl]; subst.
  destruct Hin as [-> | Hin].
  - unfold Sql.has_id at 1. rewrite Z.eqb_refl. f_equal.
    apply filter_has_id_nil. intros r Hr E. apply Hx.
    rewrite <- E. now apply in_map.
  - assert (Hne : Sql.has_id (c_id c) x = false).
    { apply Z.eqb_neq. intros E. apply Hx. rewrite E. now apply in_map. }
    rewrite Hne. now apply IH.
Qed.

(** X7: in every state reached from a new database, no two lines have
    the same id, and a contact is in the table exactly when
    [obtenir_contact_par_id] on its id returns it: what
    [afficher_tous] lists is what can be fetched. *)
Theorem X7_cle_primaire (ops : list op) (c : contact) :
  let db := run ops empty_db in
  NoDup (map c_id (contacts db)) /\
  (In c (contacts db) <->
   fst (obtenir_contact_par_id (c_id c) db) = Ok (Some c)) /\
  (forall l, fst (afficher_tous db) = Ok l ->
             (In c l <-> In c (contacts db))).
Proof.
  intros db. pose proof (run_ids_distincts ops) as Hnd. fold db in Hnd.
  split; [assumption|]. split.
  - unfold obtenir_contact_par_id, initialiser_base, Sql.select_by_id. split.
    + intros Hin.
      pose proof (run_ok ops empty_db empty_db_ok) as Hok. fold db in Hok.
      pose proof (proj1 (Forall_forall _ _) Hok c Hin) as Hc. cbv beta in Hc.
      rewrite (id_invalide_pos (c_id c)) by lia. simpl.
      now rewrite (select_unique _ _ Hnd Hin).
    + destruct (id_invalide (c_id c)); simpl; [discriminate|].
      destruct (filter (Sql.has_id (c_id c)) (contacts db)) as [|x l] eqn:E;
        simpl; [discriminate|].
      intros H. injection H as ->.
      assert (Hin : In c (filter (Sql.has_id (c_id c)) (contacts db)))
        by (rewrite E; now left).
      now apply filter_In in Hin.
  - intros l H. injection H as <-. unfold initialiser_base, Sql.select_all.
    pose proof (order_by_perm (contacts db)) as P. split; intros Hin.
    + exact (Permutation_in _ P Hin).
    + exact (Permutation_in _ (Permutation_sym P) Hin).
Qed.

Lemma exec_saine (o : op) (db : database) :
  Forall ligne_saine (contacts db) ->
  Forall ligne_saine (contacts (exec o db)).
Proof.
  intros H.
  destruct o as [n p t e a | c | i n p t e a | i | | i]; cbn [exec].
  - destruct (strip_vide_dec n) as [En | Hn];
      [destruct (ajouter_contact_ko n p t e a db (or_introl En)) as [m ->];
       assumption|].
    destruct (strip_vide_dec p) as [Ep | Hp];
      [destruct (ajouter_contact_ko n p t e a db (or_intror Ep)) as [m ->];
       assumption|].
    rewrite (ajouter_contact_ok n p t e a db Hn Hp). simpl.
    apply Forall_app. split; [assumption|]. constructor; [|constructor].
    unfold ligne_saine; cbn [c_nom c_prenom c_telephone c_email c_adresse];
      repeat split; try assumption; try apply strip_idem;
      apply strip_or_none_rogne.
  - now rewrite (proj1 (lectures_sans_effet db)).
  - unfold modifier_contact.
    destruct (id_invalide i); [assumption|].
    destruct (strip_vide_dec n) as [En | Hn];
      [rewrite (requis_vide _ En); assumption | rewrite (requis_ok _ Hn)].
    destruct (strip_vide_dec p) as [Ep | Hp];
      [rewrite (requis_vide _ Ep); assumption | rewrite (requis_ok _ Hp)].
    simpl. apply Forall_forall. intros r Hr.
    apply in_map_iff in Hr as (x & <- & Hx). unfold Sql.set.
    destruct (Sql.has_id i x).
    + unfold ligne_saine; cbn [c_nom c_prenom c_telephone c_email c_adresse];
        repeat split; try assumption; try apply strip_idem;
        apply strip_or_none_rogne.
    + exact (proj1 (Forall_forall _ _) H x Hx).
  - destruct (supprimer_contact_db i db) as [_ I].
    apply Forall_forall. intros r Hr.
    exact (proj1 (Forall_forall _ _) H r (I r Hr)).
  - assumption.
  - now rewrite (proj2 (proj2 (lectures_sans_effet db))).
Qed.

(** X8: in every state reached from a new database, every line has a
    [nom] and a [prenom] that are not empty and carry no whitespace at
    either end, and each optional field is absent or carries no
    whitespace at either end. *)
Theorem X8_lignes_saines (ops : list op) (c : contact) :
  In c (contacts (run ops empty_db)) -> ligne_saine c.
Proof.
  assert (G : forall db, Forall ligne_saine (contacts db) ->
                         Forall ligne_saine (contacts (run ops db))).
  { induction ops as [|o ops IH]; intros db H; [assumption|].
    rewrite run_cons. now apply IH, exec_saine. }
  intros Hin.
  exact (proj1 (Forall_forall _ _) (G empty_db (Forall_nil _)) c Hin).
Qed.

Lemma X8_lignes_saines_witness :
  ligne_saine (mkContact 1 Dupont Jean None (Some []) None).
Proof.
  apply (X8_lignes_saines
           [Ajouter (txt "  Dupont") (txt "Jean ") (Some []) (Some (txt "  "))
                    None]).
  vm_compute. now left.
Defined.

End StorageLifetime.

Section Search.

Lemma filter_split_perm {A} (f : A -> bool) (l : list A) :
  Permutation (filter f l ++ filter (fun x => negb (f x)) l) l.
Proof.
  induction l as [|x l IH]; simpl; [constructor|].
  destruct (f x); simpl.
  - now constructor.
  - apply Permutation_sym, Permutation_cons_app, Permutation_sym, IH.
Qed.

(** X9: whatever the criterion is, wildcards included, what
    [rechercher_contact] returns is ordered by ([nom], [prenom]) and is
    made of lines of the table, none of them taken twice. *)
Theorem X9_rechercher_contact_extrait
    (critere : text) (db : database) (l : list contact) :
  fst (rechercher_contact critere db) = Ok l ->
  StronglySorted ordre l /\
  exists autres, Permutation (l ++ autres) (contacts db).
Proof.
  unfold rechercher_contact.
  destruct (negb (truthy critere) || negb (truthy (strip critere)));
    [discriminate|].
  cbv zeta. unfold initialiser_base, Sql.execute_select_like.
  destruct (Sql.scan _ (contacts db)) as [l' | e] eqn:E; [|discriminate].
  cbn [fst]. intros [= <-]. apply scan_filter in E. subst l'.
  split; [apply order_by_sorted|].
  eexists. rewrite order_by_perm. apply filter_split_perm.
Qed.

Lemma X9_rechercher_contact_extrait_witness :
  let db := run ops_desordre empty_db in
  let l := [mkContact 4 (txt "Dupont") (txt "Anne") None None None;
            mkContact 3 (txt "Dupont") (txt "Jean") None None None;
            mkContact 2 (txt "Zola") (txt "Emile") None None None] in
  StronglySorted ordre l /\
  exists autres, Permutation (l ++ autres) (contacts db).
Proof.
  intros db l. apply (X9_rechercher_contact_extrait (txt "o") db l).
  reflexivity.
Defined.

Lemma isspace_lower (c : ascii) :
  py_isspace (Sql.ascii_lower c) = py_isspace c.
Proof. destruct c as [[] [] [] [] [] [] [] []]; vm_compute; reflexivity. Qed.

Lemma lstrip_lower (s : text) :
  lstrip (Sql.lower_text s) = Sql.lower_text (lstrip s).
Proof.
  induction s as [|c s IH]; simpl; [reflexivity|].
  rewrite isspace_lower. now destruct (py_isspace c).
Qed.

Lemma strip_lower (s : text) :
  strip (Sql.lower_text s) = Sql.lower_text (strip s).
Proof.
  assert (R : forall x, rev (Sql.lower_text x) = Sql.lower_text (rev x))
    by (intros x; symmetry; apply map_rev).
  unfold strip, rstrip. now rewrite lstrip_lower, R, lstrip_lower, R.
Qed.

Lemma truthy_lower (s : text) : truthy (Sql.lower_text s) = truthy s.
Proof. now destruct s. Qed.

Lemma lower_text_idem (s : text) :
  Sql.lower_text (Sql.lower_text s) = Sql.lower_text s.
Proof.
  unfold Sql.lower_text. rewrite map_map. apply map_ext, ascii_lower_idem.
Qed.

(** X10: two criteria that differ only by the case of the letters A to
    Z give the same result, wildcards or not. *)
Theorem X10_rechercher_contact_casse (q1 q2 : text) (db : database) :
  Sql.lower_text q1 = Sql.lower_text q2 ->
  rechercher_contact q1 db = rechercher_contact q2 db.
Proof.
  intros E.
  assert (Es : Sql.lower_text (strip q1) = Sql.lower_text (strip q2))
    by now rewrite <- !strip_lower, E.
  assert (T : truthy q1 = truthy q2)
    by now rewrite <- (truthy_lower q1), E, truthy_lower.
  assert (Ts : truthy (strip q1) = truthy (strip q2))
    by now rewrite <- (truthy_lower (strip q1)), Es, truthy_lower.
  unfold rechercher_contact. rewrite T, Ts.
  destruct (negb (truthy q2) || negb (truthy (strip q2))); [reflexivity|].
  cbv zeta. unfold initialiser_base, Sql.execute_select_like.
  rewrite (scan_ext
             (Sql.where_like_eval (txt "%" ++ strip q1 ++ txt "%")
                (txt "%" ++ strip q1 ++ txt "%")
                (txt "%" ++ strip q1 ++ txt "%"))
             (Sql.where_like_eval (txt "%" ++ strip q2 ++ txt "%")
                (txt "%" ++ strip q2 ++ txt "%")
                (txt "%" ++ strip q2 ++ txt "%"))); [reflexivity|].
  intros r. unfold Sql.where_like_eval.
  cbn [Sql.lower option_map]. now rewrite !lower_text_app, Es.
Qed.

Lemma X10_rechercher_contact_casse_witness :
  rechercher_contact (txt "DUPONT") db_dupont
  = rechercher_contact (txt "dupont") db_dupont.
Proof.
  apply (X10_rechercher_contact_casse (txt "DUPONT") (txt "dupont") db_dupont).
  reflexivity.
Defined.

End Search.

(** * Further properties of the email checkers *)

Section Emails.

(** X11: [valider_email] returns [True] exactly on the empty text, on
    the texts [local@domain.tld] of the pattern, and on those followed
    by one newline. *)
Theorem X11_valider_email_exact (email : text) :
  Controller.valider_email email = true <->
  email = [] \/ forme_email email
  \/ exists e', email = e' ++ [Re.newline] /\ forme_email e'.
Proof. apply valider_email_spec. Qed.

Lemma car_local_noir (c : ascii) : car_local c = true -> py_isspace c = false.
Proof. destruct c as [[] [] [] [] [] [] [] []]; vm_compute; congruence. Qed.

Lemma lettre_noire (c : ascii) : lettre c = true -> py_isspace c = false.
Proof. destruct c as [[] [] [] [] [] [] [] []]; vm_compute; congruence. Qed.

(** A text of the pattern's form has no whitespace at either end. *)
Lemma forme_email_rogne (e : text) : forme_email e -> rogne e.
Proof.
  intros F. pose proof (forme_email_fin e F) as (e' & c & E & Hc).
  destruct F as (l & d & t & El & Hl1 & Hl & _).
  apply strip_fix.
  - rewrite El. destruct l as [|x l]; [simpl in Hl1; lia|].
    simpl in Hl. apply andb_true_iff in Hl as [Hx _].
    simpl. now rewrite (car_local_noir x Hx).
  - rewrite E, rev_app_distr. simpl. now rewrite (lettre_noire c Hc).
Qed.

(** X12: on a text with no whitespace at either end, which is what the
    workflows pass after [strip], [valider_email] returns [True]
    exactly on the empty text and on the texts of the pattern's form. *)
Theorem X12_valider_email_apres_strip (email : text) :
  Controller.valider_email (strip email) = true <->
  strip email = [] \/ forme_email (strip email).
Proof.
  rewrite valider_email_spec. split; [|tauto].
  intros [H | [H | (e' & E & F)]]; [tauto | tauto |].
  exfalso. pose proof (strip_idem email) as I. rewrite E in I.
  rewrite (strip_snoc_ws e' Re.newline eq_refl) in I.
  rewrite (forme_email_rogne e' F) in I.
  apply (f_equal (@List.length ascii)) in I. rewrite length_app in I.
  simpl in I. lia.
Qed.

(** C7: [valider_email] returns [True] for the empty text and for
    [jean.dupont@example.com], [False] for [nodomain], [a@b] and
    [a@b.c]; and for every email as the workflows give it to the
    validator, that is trimmed, a non-empty email is accepted exactly
    when it has the form [localpart@domain.tld], the local part one or
    more of [A-Za-z0-9._%+-], the domain one or more of [A-Za-z0-9.-],
    the last segment two or more letters. *)
Theorem C7_valider_email :
  Controller.valider_email [] = true /\
  Controller.valider_email (txt "jean.dupont@example.com") = true /\
  Controller.valider_email (txt "nodomain") = false /\
  Controller.valider_email (txt "a@b") = false /\
  Controller.valider_email (txt "a@b.c") = false /\
  (forall email,
     rogne email -> email <> [] ->
     (Controller.valider_email email = true <-> forme_email email)).
Proof.
  repeat (split; [reflexivity|]).
  intros email R Hne. rewrite valider_email_spec. split; [|tauto].
  intros [H | [H | (e' & E & F)]]; [now elim Hne | exact H |].
  exfalso. unfold rogne in R. rewrite E in R.
  rewrite (strip_snoc_ws e' Re.newline eq_refl) in R.
  rewrite (forme_email_rogne e' F) in R.
  apply (f_equal (@List.length ascii)) in R. rewrite length_app in R.
  simpl in R. lia.
Qed.

Lemma C7_valider_email_witness :
  Controller.valider_email (txt "jean.dupont@example.com") = true <->
  forme_email (txt "jean.dupont@example.com").
Proof.
  apply (proj2 (proj2 (proj2 (proj2 (proj2 C7_valider_email))))).
  - reflexivity.
  - discriminate.
Defined.

Lemma split1_app (sep : ascii) (l rest : text) :
  forallb (fun c => negb (Ascii.eqb c sep)) l = true ->
  ContactView.split1 sep (l ++ sep :: rest) = (l, rest).
Proof.
  induction l as [|c l IH]; simpl.
  - now rewrite Ascii.eqb_refl.
  - intros H. apply andb_true_iff in H as [Hc Hl].
    apply negb_true_iff in Hc. now rewrite Hc, (IH Hl).
Qed.

Lemma contains_app (c : ascii) (a b : text) :
  ContactView.contains c (a ++ b)
  = ContactView.contains c a || ContactView.contains c b.
Proof. apply existsb_app. Qed.

Lemma forallb_impl {A} (f g : A -> bool) (l : list A) :
  (forall x, f x = true -> g x = true) ->
  forallb f l = true -> forallb g l = true.
Proof.
  intros H. induction l as [|x l IH]; simpl; [trivial|].
  intros E. apply andb_true_iff in E as [Hx Hl].
  now rewrite (H x Hx), (IH Hl).
Qed.

Lemma car_local_pas_arobase (c : ascii) :
  car_local c = true -> negb (Ascii.eqb c "@") = true.
Proof. destruct c as [[] [] [] [] [] [] [] []]; vm_compute; congruence. Qed.

Lemma lettre_pas_point (c : ascii) :
  lettre c = true -> negb (Ascii.eqb c ".") = true.
Proof. destruct c as [[] [] [] [] [] [] [] []]; vm_compute; congruence. Qed.

Let permis (c : ascii) : bool :=
  negb (existsb (Ascii.eqb c) ContactView.caracteres_interdits).

Lemma car_local_permis (c : ascii) : car_local c = true -> permis c = true.
Proof. destruct c as [[] [] [] [] [] [] [] []]; vm_compute; congruence. Qed.

Lemma car_domaine_permis (c : ascii) : car_domaine c = true -> permis c = true.
Proof. destruct c as [[] [] [] [] [] [] [] []]; vm_compute; congruence. Qed.

Lemma lettre_permise (c : ascii) : lettre c = true -> permis c = true.
Proof. destruct c as [[] [] [] [] [] [] [] []]; vm_compute; congruence. Qed.

Lemma aucun_interdit (e : text) :
  forallb permis e = true ->
  find (fun char => ContactView.contains char e)
       ContactView.caracteres_interdits = None.
Proof.
  intros H.
  assert (G : forall ch, In ch ContactView.caracteres_interdits ->
                         ContactView.contains ch e = false).
  { intros ch Hch. destruct (ContactView.contains ch e) eqn:E; [|reflexivity].
    apply existsb_exists in E as (c & Hc & Ec). apply Ascii.eqb_eq in Ec.
    subst c. pose proof (proj1 (forallb_forall _ _) H ch Hc) as P.
    unfold permis in P. apply negb_true_iff in P.
    assert (Q : existsb (Ascii.eqb ch) ContactView.caracteres_interdits = true)
      by (apply existsb_exists; exists ch; split;
          [assumption | apply Ascii.eqb_refl]).
    congruence. }
  unfold ContactView.caracteres_interdits in *. simpl.
  rewrite !G; simpl; auto 10.
Qed.

(** The view's checker on a text of the pattern's form. *)
Lemma vue_accepte_forme (e : text) :
  forme_email e ->
  ContactView._valider_email_temps_reel e = ContactView.Format_valide.
Proof.
  intros F. unfold ContactView._valider_email_temps_reel.
  rewrite (forme_email_rogne e F).
  destruct F as (l & d & t & -> & Hl1 & Hl & Hd1 & Hd & Ht1 & Ht).
  assert (T : truthy (l ++ "@"%char :: d ++ "."%char :: t) = true)
    by (destruct l; [simpl in Hl1; lia | reflexivity]).
  rewrite T. cbn [negb].
  rewrite contains_app. cbn [ContactView.contains existsb].
  rewrite Ascii.eqb_refl, orb_true_r. cbn [orb negb].
  rewrite split1_app
    by (exact (forallb_impl _ _ _ car_local_pas_arobase Hl)).
  assert (Tl : truthy l = true)
    by (destruct l; [simpl in Hl1; lia | reflexivity]).
  rewrite Tl. cbn [negb].
  rewrite contains_app. cbn [ContactView.contains existsb].
  rewrite Ascii.eqb_refl, orb_true_r. cbn [orb negb].
  assert (L : ContactView.last_segment "." (d ++ "."%char :: t) = t).
  { unfold ContactView.last_segment.
    rewrite rev_app_distr. simpl rev. rewrite <- app_assoc. simpl app.
    rewrite split1_app; [apply rev_involutive|].
    rewrite forallb_rev. exact (forallb_impl _ _ _ lettre_pas_point Ht). }
  rewrite L.
  assert (N : (List.length t <? 2)%nat = false) by (apply Nat.ltb_ge; lia).
  rewrite N.
  rewrite aucun_interdit; [reflexivity|].
  rewrite forallb_app. cbn [forallb]. rewrite forallb_app. cbn [forallb].
  rewrite (forallb_impl _ _ _ car_local_permis Hl),
          (forallb_impl _ _ _ car_domaine_permis Hd),
          (forallb_impl _ _ _ lettre_permise Ht).
  reflexivity.
Qed.

(** X13: every non-empty email that [valider_email] accepts is shown as
    valid by the view's checker: the view never flags what the
    controller lets through. *)
Theorem X13_vue_plus_large (email : text) :
  email <> [] ->
  Controller.valider_email email = true ->
  ContactView._valider_email_temps_reel email = ContactView.Format_valide.
Proof.
  intros Hne H. apply valider_email_spec in H as [H | [F | (e' & -> & F)]].
  - contradiction.
  - now apply vue_accepte_forme.
  - pose proof (vue_accepte_forme e' F) as V.
    unfold ContactView._valider_email_temps_reel in *.
    now rewrite (strip_snoc_ws e' Re.newline eq_refl).
Qed.

Lemma X13_vue_plus_large_witness :
  ContactView._valider_email_temps_reel (txt "jean.dupont@example.com")
  = ContactView.Format_valide.
Proof.
  apply (X13_vue_plus_large (txt "jean.dupont@example.com"));
    [discriminate | reflexivity].
Defined.

End Emails.

(** * The view's form and the workflows of the controller *)

Section Formulaire.

Lemma fold_left_snoc {A} (l acc : list A) :
  fold_left (fun lignes c => lignes ++ [c]) l acc = acc ++ l.
Proof.
  revert acc; induction l as [|x l IH]; intros acc; simpl;
    [now rewrite app_nil_r|].
  rewrite IH, <- app_assoc. reflexivity.
Qed.

Lemma afficher_liste_tree (l : list contact) (w : Fenetre.fenetre) :
  Fenetre.afficher_liste l w = Fenetre.mkFenetre (Fenetre.champs w) l.
Proof. unfold Fenetre.afficher_liste. now rewrite fold_left_snoc. Qed.

Lemma strip_text_get (s : text) : strip (Fenetre.text_get_1_end s) = strip s.
Proof. apply strip_snoc_ws. reflexivity. Qed.

(** X14: [set_inputs] on a contact replaces whatever the form held, and
    [get_inputs] then reads back the contact's [nom] and [prenom], the
    empty text for an absent [telephone] or [email], and the [adresse]
    trimmed (empty when absent); the list is not touched.  On [None],
    [set_inputs] raises [TypeError] once the form is emptied. *)
Theorem X14_set_inputs_get_inputs (w : Fenetre.fenetre) (c : contact) :
  (exists w',
     Fenetre.set_inputs (Some c) w = (Ok tt, w') /\
     Fenetre.champs w' = formulaire_de c /\
     Fenetre.tree w' = Fenetre.tree w /\
     Fenetre.get_inputs w'
     = Fenetre.mkDonnees (c_nom c) (c_prenom c)
                         (Fenetre.ou_vide (c_telephone c))
                         (Fenetre.ou_vide (c_email c))
                         (strip (Fenetre.ou_vide (c_adresse c))))
  /\
  exists m,
    Fenetre.set_inputs None w
    = (Raise (TypeError m), Fenetre.mkFenetre formulaire_vide (Fenetre.tree w)).
Proof.
  split; [|eexists; reflexivity].
  eexists; split; [reflexivity|].
  unfold Fenetre.get_inputs, formulaire_de, Fenetre.insert_front,
    Fenetre.delete_all, Fenetre.entry_get. simpl.
  rewrite !app_nil_r, strip_text_get. auto.
Qed.

End Formulaire.

Section Workflows.

Lemma strip_or_none_strip (s : text) :
  strip_or_none (Some (strip s)) = absent_si_vide (strip s).
Proof.
  unfold strip_or_none. cbn [truthy_opt option_map]. rewrite strip_idem.
  now destruct (strip s).
Qed.

Lemma truthy_strip (s : text) : truthy (strip s) = true <-> strip s <> [].
Proof. destruct (strip s); simpl; split; congruence. Qed.

Lemma afficher_tous_run (v : Controller.vue) (m : Application.monde) :
  Application.afficher_tous v m
  = (Ok tt,
     Application.mkMonde
       (Application.base m)
       (Fenetre.mkFenetre (Fenetre.champs (Application.ecran m))
                          (Sql.order_by (contacts (Application.base m)))),
     []).
Proof.
  unfold Application.afficher_tous, Application.bind, Application.modele,
    Application.afficher_liste, CarnetAdresses.afficher_tous, initialiser_base,
    Sql.select_all.
  cbn [Application.base Application.ecran]. now rewrite afficher_liste_tree.
Qed.

(** The three outcomes of the Add workflow. *)
Lemma ajouter_contact_run (v : Controller.vue) (m : Application.monde) :
  let f := Fenetre.champs (Application.ecran m) in
  let nom := strip (Fenetre.entry_nom f) in
  let prenom := strip (Fenetre.entry_prenom f) in
  let telephone := strip (Fenetre.entry_telephone f) in
  let email := strip (Fenetre.entry_email f) in
  let adresse := strip (Fenetre.text_adresse f) in
  let db := Application.base m in
  Application.ajouter_contact v m
  = if negb (truthy nom) || negb (truthy prenom) then
      (Ok tt, m,
       [Application.Erreur "Erreur" "Le nom et le prénom sont obligatoires"])
    else if negb (Controller.valider_email email) then
      (Ok tt, m, [Application.Erreur "Erreur" "L'email n'est pas valide"])
    else
      let i := Z.max (sqlite_sequence db) (Sql.max_rowid (contacts db)) + 1 in
      let c := mkContact i nom prenom (absent_si_vide telephone)
                         (absent_si_vide email) (absent_si_vide adresse) in
      (Ok tt,
       Application.mkMonde
         (mkDb (contacts db ++ [c]) i)
         (Fenetre.mkFenetre formulaire_vide (Sql.order_by (contacts db ++ [c]))),
       [Application.Info "Succès" "Contact ajouté avec succès"]).
Proof.
  cbv zeta.
  unfold Application.ajouter_contact, Application.bind at 1,
    Application.get_inputs, Fenetre.get_inputs, Fenetre.entry_get.
  cbn [Fenetre.d_nom Fenetre.d_prenom Fenetre.d_telephone Fenetre.d_email
       Fenetre.d_adresse].
  rewrite strip_text_get, strip_idem.
  set (f := Fenetre.champs (Application.ecran m)).
  destruct (truthy (strip (Fenetre.entry_nom f))) eqn:Tn;
    [|destruct m; reflexivity].
  destruct (truthy (strip (Fenetre.entry_prenom f))) eqn:Tp;
    [|destruct m; reflexivity].
  cbn [negb orb].
  destruct (Controller.valider_email (strip (Fenetre.entry_email f)));
    [|destruct m; reflexivity].
  cbn [negb].
  apply truthy_strip in Tn, Tp.
  unfold Application.bind, Application.modele,
    Application.message_info, Application.vider_champs.
  rewrite (ajouter_contact_ok (strip (Fenetre.entry_nom f))
             (strip (Fenetre.entry_prenom f))
             (Some (strip (Fenetre.entry_telephone f)))
             (Some (strip (Fenetre.entry_email f)))
             (Some (strip (Fenetre.text_adresse f))) (Application.base m)),
    afficher_tous_run
    by now rewrite strip_idem.
  rewrite !strip_idem, !strip_or_none_strip. reflexivity.
Qed.

(** The outcomes of the Update workflow. *)
Lemma modifier_contact_run (v : Controller.vue) (m : Application.monde) :
  let f := Fenetre.champs (Application.ecran m) in
  let nom := strip (Fenetre.entry_nom f) in
  let prenom := strip (Fenetre.entry_prenom f) in
  let telephone := strip (Fenetre.entry_telephone f) in
  let email := strip (Fenetre.entry_email f) in
  let adresse := strip (Fenetre.text_adresse f) in
  let db := Application.base m in
  Application.modifier_contact v m
  = if Controller.pas_de_selection (Controller.selection v) then
      (Ok tt, m, [Application.Erreur "Erreur" "Aucun contact sélectionné"])
    else
      let i := match Controller.selection v with Some i => i | None => 0 end in
      if negb (truthy nom) || negb (truthy prenom) then
        (Ok tt, m,
         [Application.Erreur "Erreur" "Nom et prénom sont obligatoir"])
      else if negb (Controller.valider_email email) then
        (Ok tt, m, [Application.Erreur "Erreur" "Email invalide"])
      else if id_invalide i then
        (Raise (ValueError "L'identifiant du contact est invalide"), m, [])
      else
        let lignes :=
          map (Sql.set i nom prenom (absent_si_vide telephone)
                       (absent_si_vide email) (absent_si_vide adresse))
              (contacts db) in
        (Ok tt,
         Application.mkMonde
           (mkDb lignes (sqlite_sequence db))
           (Fenetre.mkFenetre formulaire_vide (Sql.order_by lignes)),
         [Application.Info "Succès" "Contact modifié avec succès"]).
Proof.
  cbv zeta.
  unfold Application.modifier_contact, Application.bind at 1,
    Application.get_selection.
  destruct (Controller.pas_de_selection (Controller.selection v));
    [destruct m; reflexivity|].
  unfold Application.bind at 1, Application.get_inputs, Fenetre.get_inputs,
    Fenetre.entry_get.
  cbn [Fenetre.d_nom Fenetre.d_prenom Fenetre.d_telephone Fenetre.d_email
       Fenetre.d_adresse].
  rewrite strip_text_get, strip_idem.
  set (f := Fenetre.champs (Application.ecran m)).
  set (i := match Controller.selection v with Some i => i | None => 0 end).
  destruct (truthy (strip (Fenetre.entry_nom f))) eqn:Tn;
    [|destruct m; reflexivity].
  destruct (truthy (strip (Fenetre.entry_prenom f))) eqn:Tp;
    [|destruct m; reflexivity].
  cbn [negb orb].
  destruct (Controller.valider_email (strip (Fenetre.entry_email f)));
    [|destruct m; reflexivity].
  cbn [negb].
  apply truthy_strip in Tn, Tp.
  unfold Application.bind, Application.modele,
    Application.message_info, Application.vider_champs,
    CarnetAdresses.modifier_contact.
  destruct (id_invalide i); [destruct m; reflexivity|].
  rewrite (requis_ok (strip (Fenetre.entry_nom f))),
          (requis_ok (strip (Fenetre.entry_prenom f)))
    by now rewrite strip_idem.
  unfold initialiser_base, Sql.update. rewrite afficher_tous_run.
  rewrite !strip_idem, !strip_or_none_strip. reflexivity.
Qed.

Lemma ou_strip (a b : text) :
  strip (Application.ou (strip a) (strip b)) = Application.ou (strip a) (strip b).
Proof.
  unfold Application.ou. destruct (truthy (strip a)); apply strip_idem.
Qed.

Lemma ou_strip3 (a b c : text) :
  let valeur := Application.ou (strip a) (Application.ou (strip b) (strip c)) in
  strip valeur = valeur.
Proof.
  cbv zeta. unfold Application.ou at 1 3.
  destruct (truthy (strip a)); [apply strip_idem | apply ou_strip].
Qed.

(** The outcomes of the Search workflow. *)
Lemma rechercher_contact_run (v : Controller.vue) (m : Application.monde) :
  let f := Fenetre.champs (Application.ecran m) in
  let valeur :=
    Application.ou (strip (Fenetre.entry_nom f))
      (Application.ou (strip (Fenetre.entry_telephone f))
                      (strip (Fenetre.entry_email f))) in
  let pattern := txt "%" ++ valeur ++ txt "%" in
  Application.rechercher_contact v m
  = if negb (truthy valeur) then
      (Ok tt, m,
       [Application.Erreur "Erreur" "Le critère de recherche est obligatoire"])
    else
      match Sql.execute_select_like (Application.base m)
              pattern pattern pattern with
      | Raise e => (Raise e, m, [])
      | Ok [] =>
          (Ok tt, m, [Application.Erreur "Erreur" "Aucun contact trouvé"])
      | Ok (c :: l) =>
          (Ok tt,
           Application.mkMonde (Application.base m)
                               (Fenetre.mkFenetre f (c :: l)),
           [])
      end.
Proof.
  cbv zeta.
  unfold Application.rechercher_contact, Application.bind at 1,
    Application.get_inputs, Fenetre.get_inputs, Fenetre.entry_get.
  cbn [Fenetre.d_nom Fenetre.d_telephone Fenetre.d_email].
  set (f := Fenetre.champs (Application.ecran m)).
  pose proof (ou_strip3 (Fenetre.entry_nom f) (Fenetre.entry_telephone f)
                (Fenetre.entry_email f)) as R. cbv zeta in R.
  set (valeur := Application.ou (strip (Fenetre.entry_nom f))
                   (Application.ou (strip (Fenetre.entry_telephone f))
                                   (strip (Fenetre.entry_email f)))) in *.
  destruct (truthy valeur) eqn:T; cbn [negb]; [|destruct m; reflexivity].
  unfold Application.bind, Application.modele,
    CarnetAdresses.rechercher_contact.
  rewrite R, T. cbn [negb orb]. unfold initialiser_base.
  destruct (Sql.execute_select_like (Application.base m)
              (txt "%" ++ valeur ++ txt "%")
              (txt "%" ++ valeur ++ txt "%") (txt "%" ++ valeur ++ txt "%"))
    as [[|c l] | e]; [destruct m; reflexivity | | destruct m; reflexivity].
  unfold Application.afficher_liste.
  cbn [Application.base Application.ecran].
  now rewrite afficher_liste_tree.
Qed.

(** The outcomes of the Load-for-edit workflow. *)
Lemma charger_contact_selection_run
    (v : Controller.vue) (m : Application.monde) :
  Application.charger_contact_selection v m
  = if Controller.pas_de_selection (Controller.selection v) then
      (Ok tt, m, [Application.Erreur "Erreur" "Aucun contact sélectionné"])
    else
      let i := match Controller.selection v with Some i => i | None => 0 end in
      if id_invalide i then
        (Raise (ValueError "L'identifiant du contact est invalide"), m, [])
      else
        let arbre := Fenetre.tree (Application.ecran m) in
        match filter (Sql.has_id i) (contacts (Application.base m)) with
        | [] =>
            (Raise (TypeError "'NoneType' object is not subscriptable"),
             Application.mkMonde (Application.base m)
                                 (Fenetre.mkFenetre formulaire_vide arbre),
             [])
        | c :: _ =>
            (Ok tt,
             Application.mkMonde (Application.base m)
                                 (Fenetre.mkFenetre (formulaire_de c) arbre),
             [])
        end.
Proof.
  unfold Application.charger_contact_selection, Application.bind at 1,
    Application.get_selection.
  destruct (Controller.pas_de_selection (Controller.selection v));
    [destruct m; reflexivity|].
  cbv zeta.
  set (i := match Controller.selection v with Some i => i | None => 0 end).
  unfold Application.bind, Application.modele,
    CarnetAdresses.obtenir_contact_par_id.
  destruct (id_invalide i); [destruct m; reflexivity|].
  unfold initialiser_base, Sql.select_by_id, Application.set_inputs.
  cbn [Application.base Application.ecran].
  destruct (filter (Sql.has_id i) (contacts (Application.base m)))
    as [|c l]; cbn [Sql.fetchone]; [reflexivity|].
  unfold Fenetre.set_inputs, Fenetre.vider_champs, Fenetre.insert_front,
    Fenetre.delete_all, formulaire_de.
  cbn. now rewrite !app_nil_r.
Qed.

(** The outcomes of the Delete workflow. *)
Lemma supprimer_contact_run (v : Controller.vue) (m : Application.monde) :
  Application.supprimer_contact v m
  = if Controller.pas_de_selection (Controller.selection v) then
      (Ok tt, m,
       [Application.Erreur "Erreur" "Sélectionnez un contact à supprimer"])
    else
      let i := match Controller.selection v with Some i => i | None => 0 end in
      let db := Application.base m in
      if id_invalide i then
        (Raise (ValueError "L'identifiant du contact est invalide"), m, [])
      else
        match filter (Sql.has_id i) (contacts db) with
        | [] =>
            (Raise (TypeError "'NoneType' object is not subscriptable"), m, [])
        | c :: _ =>
            let question :=
              Application.Question "Confirmation"
                (txt "Voulez-vous vraiment supprimer ce contact ?"
                 ++ [Re.newline; Re.newline] ++ txt "Nom : " ++ c_nom c
                 ++ [Re.newline] ++ txt "Pr" ++ [Controller.e_aigu]
                 ++ txt "nom : " ++ c_prenom c) in
            if Controller.reponse v then
              let lignes :=
                filter (fun r => negb (Sql.has_id i r)) (contacts db) in
              (Ok tt,
               Application.mkMonde
                 (mkDb lignes (sqlite_sequence db))
                 (Fenetre.mkFenetre formulaire_vide (Sql.order_by lignes)),
               [question;
                Application.Info "Succès" "Contact supprimé avec succès"])
            else (Ok tt, m, [question])
        end.
Proof.
  unfold Application.supprimer_contact, Application.bind at 1,
    Application.get_selection.
  destruct (Controller.pas_de_selection (Controller.selection v));
    [destruct m; reflexivity|].
  cbv zeta.
  set (i := match Controller.selection v with Some i => i | None => 0 end).
  unfold Application.bind at 1, Application.modele,
    CarnetAdresses.obtenir_contact_par_id.
  destruct (id_invalide i) eqn:Hi; [destruct m; reflexivity|].
  unfold initialiser_base, Sql.select_by_id.
  destruct (filter (Sql.has_id i) (contacts (Application.base m)))
    as [|c l]; cbn [Sql.fetchone]; [destruct m; reflexivity|].
  unfold Application.bind at 1. cbn [Application.indices_1_2 Application.ret].
  unfold Application.bind at 1, Application.message_confirmation.
  cbn [fst snd].
  destruct (Controller.reponse v); cbn [negb];
    [|destruct m; reflexivity].
  unfold Application.bind, Application.modele, Application.message_info,
    Application.vider_champs, CarnetAdresses.supprimer_contact.
  cbn [Application.base Application.ecran].
  rewrite Hi. unfold initialiser_base, Sql.delete.
  rewrite afficher_tous_run. reflexivity.
Qed.

(** X15: the Add workflow, when the trimmed [nom] or [prenom] is empty
    or the trimmed email is refused by [valider_email], opens one error
    box and changes nothing: neither the database, nor the form, nor
    the list. *)
Theorem X15_ajouter_refuse (v : Controller.vue) (m : Application.monde) :
  let f := Fenetre.champs (Application.ecran m) in
  strip (Fenetre.entry_nom f) = [] \/ strip (Fenetre.entry_prenom f) = []
  \/ Controller.valider_email (strip (Fenetre.entry_email f)) = false ->
  exists message,
    Application.ajouter_contact v m
    = (Ok tt, m, [Application.Erreur "Erreur" message]).
Proof.
  intros f H. rewrite ajouter_contact_run. fold f.
  destruct (strip_vide_dec (Fenetre.entry_nom f)) as [En | Hn];
    [rewrite En; simpl; eauto|].
  destruct (strip_vide_dec (Fenetre.entry_prenom f)) as [Ep | Hp];
    [rewrite Ep, orb_true_r; eauto|].
  destruct H as [H | [H | H]]; try contradiction.
  apply truthy_strip in Hn, Hp. rewrite Hn, Hp, H. simpl. eauto.
Qed.

Lemma X15_ajouter_refuse_witness :
  exists message,
    Application.ajouter_contact vue_refus
      (Application.mkMonde db_dupont
         (Fenetre.mkFenetre
            (Fenetre.mkFormulaire Dupont Jean [] (txt "jean@ex") []) []))
    = (Ok tt,
       Application.mkMonde db_dupont
         (Fenetre.mkFenetre
            (Fenetre.mkFormulaire Dupont Jean [] (txt "jean@ex") []) []),
       [Application.Erreur "Erreur" message]).
Proof.
  apply (X15_ajouter_refuse vue_refus
           (Application.mkMonde db_dupont
              (Fenetre.mkFenetre
                 (Fenetre.mkFormulaire Dupont Jean [] (txt "jean@ex") []) []))).
  right; right. reflexivity.
Defined.

(** X16: the Add workflow, when the trimmed [nom] and [prenom] are not
    empty and the trimmed email passes [valider_email], never raises:
    it appends one line made of a new id, above every id of the table,
    and of the trimmed fields, an empty optional field being stored as
    absent; it empties the form, shows the whole table in order and
    opens one information box. *)
Theorem X16_ajouter_reussit (v : Controller.vue) (m : Application.monde) :
  let f := Fenetre.champs (Application.ecran m) in
  let db := Application.base m in
  strip (Fenetre.entry_nom f) <> [] ->
  strip (Fenetre.entry_prenom f) <> [] ->
  Controller.valider_email (strip (Fenetre.entry_email f)) = true ->
  exists i,
    0 < i /\ (forall r, In r (contacts db) -> c_id r < i) /\
    let c := mkContact i (strip (Fenetre.entry_nom f))
                       (strip (Fenetre.entry_prenom f))
                       (absent_si_vide (strip (Fenetre.entry_telephone f)))
                       (absent_si_vide (strip (Fenetre.entry_email f)))
                       (absent_si_vide (strip (Fenetre.text_adresse f))) in
    Application.ajouter_contact v m
    = (Ok tt,
       Application.mkMonde
         (mkDb (contacts db ++ [c]) i)
         (Fenetre.mkFenetre formulaire_vide (Sql.order_by (contacts db ++ [c]))),
       [Application.Info "Succès" "Contact ajouté avec succès"]).
Proof.
  intros f db Hn Hp He. rewrite ajouter_contact_run. fold f db.
  apply truthy_strip in Hn, Hp. rewrite Hn, Hp, He. cbn [negb orb].
  eexists; split; [|split; [|reflexivity]].
  - pose proof (max_rowid_nonneg (contacts db)). lia.
  - intros r Hr. pose proof (max_rowid_bound _ _ Hr). lia.
Qed.

Lemma X16_ajouter_reussit_witness :
  let m := Application.mkMonde db_dupont
             (Fenetre.mkFenetre
                (Fenetre.mkFormulaire (txt " Durand ") Jean [] [] []) []) in
  exists i,
    0 < i /\ (forall r, In r (contacts db_dupont) -> c_id r < i) /\
    let c := mkContact i (strip (txt " Durand ")) (strip Jean)
                       (absent_si_vide (strip []))
                       (absent_si_vide (strip []))
                       (absent_si_vide (strip [])) in
    Application.ajouter_contact vue_refus m
    = (Ok tt,
       Application.mkMonde
         (mkDb (contacts db_dupont ++ [c]) i)
         (Fenetre.mkFenetre formulaire_vide
                            (Sql.order_by (contacts db_dupont ++ [c]))),
       [Application.Info "Succès" "Contact ajouté avec succès"]).
Proof.
  intros m.
  apply (X16_ajouter_reussit vue_refus m);
    [vm_compute; discriminate | vm_compute; discriminate | reflexivity].
Defined.

End Workflows.

(** * Runs of the application *)

Section Sessions.

(** The arguments that the Add and Update workflows pass to the model:
    trimmed texts, names not empty, an email that [valider_email]
    accepts. *)
Let valides (n p e : text) : Prop :=
  strip n <> [] /\ strip p <> [] /\
  Controller.valider_email (strip e) = true.

(** What one workflow does to the database and to the list. *)
Lemma effet_commande (b : Application.bouton) (v : Controller.vue)
    (m : Application.monde) :
  let m' := snd (fst (Application.commande b v m)) in
  let db := Application.base m in
  let db' := Application.base m' in
  let arbre' := Fenetre.tree (Application.ecran m') in
  (db' = db /\ arbre' = Fenetre.tree (Application.ecran m))
  \/ (db' = db /\ exists q, arbre' = Sql.select_like db q q q)
  \/ (arbre' = Sql.order_by (contacts db') /\
      (db' = db
       \/ (exists n p t e a,
             valides n p e /\
             db' = exec (Ajouter (strip n) (strip p) (Some (strip t))
                                 (Some (strip e)) (Some (strip a))) db)
       \/ (exists i n p t e a,
             valides n p e /\
             db' = exec (Modifier i (strip n) (strip p) (Some (strip t))
                                  (Some (strip e)) (Some (strip a))) db)
       \/ (exists i, db' = exec (Supprimer i) db))).
Proof.
  cbv zeta. destruct b; cbn [Application.commande].
  - rewrite ajouter_contact_run.
    set (f := Fenetre.champs (Application.ecran m)).
    destruct (strip_vide_dec (Fenetre.entry_nom f)) as [En | Hn];
      [rewrite En; simpl; now left|].
    destruct (strip_vide_dec (Fenetre.entry_prenom f)) as [Ep | Hp];
      [rewrite Ep, orb_true_r; simpl; now left|].
    rewrite (proj2 (truthy_strip _) Hn), (proj2 (truthy_strip _) Hp).
    cbn [negb orb].
    destruct (Controller.valider_email (strip (Fenetre.entry_email f))) eqn:He;
      cbn [negb]; [|simpl; now left].
    right; right. cbn [fst snd Application.base Application.ecran Fenetre.tree].
    split; [reflexivity|]. right; left.
    exists (Fenetre.entry_nom f), (Fenetre.entry_prenom f),
      (Fenetre.entry_telephone f), (Fenetre.entry_email f),
      (Fenetre.text_adresse f).
    split; [now repeat split|].
    cbn [exec].
    rewrite ajouter_contact_ok by now rewrite strip_idem.
    cbn [snd]. now rewrite !strip_idem, !strip_or_none_strip.
  - rewrite rechercher_contact_run.
    match goal with
    | |- context [if ?c then _ else _] => destruct c; [simpl; now left|]
    end.
    match goal with
    | |- context [Sql.execute_select_like ?d ?q ?q ?q] =>
        destruct (Sql.execute_select_like d q q q) as [[|c l] | e] eqn:E;
          [simpl; now left | | simpl; now left]
    end.
    right; left. cbn [fst snd Application.base Application.ecran Fenetre.tree].
    split; [reflexivity|]. eexists. exact (execute_select_like_inv _ _ _ E).
  - rewrite modifier_contact_run.
    destruct (Controller.pas_de_selection (Controller.selection v));
      [simpl; now left|].
    cbv zeta.
    set (f := Fenetre.champs (Application.ecran m)).
    set (i := match Controller.selection v with Some i => i | None => 0 end).
    destruct (strip_vide_dec (Fenetre.entry_nom f)) as [En | Hn];
      [rewrite En; simpl; now left|].
    destruct (strip_vide_dec (Fenetre.entry_prenom f)) as [Ep | Hp];
      [rewrite Ep, orb_true_r; simpl; now left|].
    rewrite (proj2 (truthy_strip _) Hn), (proj2 (truthy_strip _) Hp).
    cbn [negb orb].
    destruct (Controller.valider_email (strip (Fenetre.entry_email f))) eqn:He;
      cbn [negb]; [|simpl; now left].
    destruct (id_invalide i) eqn:Hi; [simpl; now left|].
    right; right. cbn [fst snd Application.base Application.ecran Fenetre.tree].
    split; [reflexivity|]. right; right; left.
    exists i, (Fenetre.entry_nom f), (Fenetre.entry_prenom f),
      (Fenetre.entry_telephone f), (Fenetre.entry_email f),
      (Fenetre.text_adresse f).
    split; [now repeat split|].
    cbn [exec]. unfold CarnetAdresses.modifier_contact.
    rewrite Hi, (requis_ok (strip (Fenetre.entry_nom f))),
      (requis_ok (strip (Fenetre.entry_prenom f)))
      by now rewrite strip_idem.
    unfold initialiser_base, Sql.update. cbn [snd].
    now rewrite !strip_idem, !strip_or_none_strip.
  - rewrite supprimer_contact_run.
    destruct (Controller.pas_de_selection (Controller.selection v));
      [simpl; now left|].
    cbv zeta.
    set (i := match Controller.selection v with Some i => i | None => 0 end).
    destruct (id_invalide i) eqn:Hi; [simpl; now left|].
    destruct (filter (Sql.has_id i) (contacts (Application.base m)))
      as [|c l]; [simpl; now left|].
    destruct (Controller.reponse v); [|simpl; now left].
    right; right. cbn [fst snd Application.base Application.ecran Fenetre.tree].
    split; [reflexivity|]. right; right; right.
    exists i. cbn [exec]. unfold CarnetAdresses.supprimer_contact.
    now rewrite Hi.
  - rewrite afficher_tous_run. right; right.
    cbn [fst snd Application.base Application.ecran Fenetre.tree].
    split; [reflexivity | now left].
  - rewrite charger_contact_selection_run.
    destruct (Controller.pas_de_selection (Controller.selection v));
      [simpl; now left|].
    cbv zeta.
    destruct (id_invalide _); [simpl; now left|].
    destruct (filter _ _); simpl; now left.
Qed.

Lemma jouer_commande (g : Application.geste) (m : Application.monde) :
  Application.jouer g m
  = snd (fst (Application.commande
                (Application.declencheur g) (Application.utilisateur g)
                (Application.mkMonde
                   (Application.base m)
                   (Fenetre.mkFenetre (Application.frappe g)
                      (Fenetre.tree (Application.ecran m)))))).
Proof. reflexivity. Qed.

Lemma demarrer_run (db : database) :
  Application.demarrer db
  = Application.mkMonde
      db (Fenetre.mkFenetre formulaire_vide (Sql.order_by (contacts db))).
Proof.
  unfold Application.demarrer, Application.init_.
  now rewrite afficher_tous_run.
Qed.

Lemma session_nil (db : database) :
  Application.session [] db = Application.demarrer db.
Proof. reflexivity. Qed.

Lemma session_snoc (gestes : list Application.geste) (g : Application.geste)
    (db : database) :
  Application.session (gestes ++ [g]) db
  = Application.jouer g (Application.session gestes db).
Proof. unfold Application.session. now rewrite fold_left_app. Qed.

(** The database of the application only moves by calls of the storage
    layer. *)
Lemma jouer_run (g : Application.geste) (m : Application.monde) :
  exists ops,
    Application.base (Application.jouer g m) = run ops (Application.base m).
Proof.
  rewrite jouer_commande.
  destruct (effet_commande (Application.declencheur g)
              (Application.utilisateur g)
              (Application.mkMonde (Application.base m)
                 (Fenetre.mkFenetre (Application.frappe g)
                    (Fenetre.tree (Application.ecran m)))))
    as [[E _] | [[E _] | [_ [E | [(n & p & t & e & a & _ & E)
                                 | [(i & n & p & t & e & a & _ & E)
                                   | (i & E)]]]]]];
    cbn [Application.base] in E; rewrite E.
  - now exists [].
  - now exists [].
  - now exists [].
  - now exists [Ajouter (strip n) (strip p) (Some (strip t)) (Some (strip e))
                        (Some (strip a))].
  - now exists [Modifier i (strip n) (strip p) (Some (strip t))
                         (Some (strip e)) (Some (strip a))].
  - now exists [Supprimer i].
Qed.

Lemma session_run (gestes : list Application.geste) (db : database) :
  exists ops,
    Application.base (Application.session gestes db) = run ops db.
Proof.
  induction gestes as [|g gestes IH] using rev_ind.
  - exists []. now rewrite session_nil, demarrer_run.
  - destruct IH as [ops IH]. rewrite session_snoc.
    destruct (jouer_run g (Application.session gestes db)) as [ops' E].
    exists (ops ++ ops'). now rewrite E, IH, run_app.
Qed.

Lemma valider_email_rogne (e : text) :
  Controller.valider_email (strip e) = true ->
  strip e = [] \/ forme_email (strip e).
Proof.
  intros H. apply valider_email_spec in H as [H | [H | (e' & E & F)]];
    [tauto | tauto |].
  exfalso. pose proof (strip_idem e) as I. rewrite E in I.
  rewrite (strip_snoc_ws e' Re.newline eq_refl) in I.
  rewrite (forme_email_rogne e' F) in I.
  apply (f_equal (@List.length ascii)) in I. rewrite length_app in I.
  simpl in I. lia.
Qed.

Lemma champ_opt_absent (s : text) : champ_opt (absent_si_vide (strip s)).
Proof.
  destruct (strip s) as [|c l] eqn:E; simpl; [trivial|].
  split; [discriminate|]. unfold rogne. rewrite <- E. apply strip_idem.
Qed.

Lemma fiche_du_formulaire (i : Z) (n p t e a : text) :
  valides n p e ->
  fiche_valide (mkContact i (strip n) (strip p) (absent_si_vide (strip t))
                          (absent_si_vide (strip e))
                          (absent_si_vide (strip a))).
Proof.
  intros (Hn & Hp & He). unfold fiche_valide, rogne.
  cbn [c_nom c_prenom c_telephone c_email c_adresse].
  repeat split; try assumption; try apply strip_idem;
    try apply champ_opt_absent.
  destruct (valider_email_rogne e He) as [E | F].
  - now rewrite E.
  - destruct (strip e); [exact I | exact F].
Qed.

Lemma exec_valide (o : op) (db : database) :
  (exists n p t e a,
     valides n p e /\
     (o = Ajouter (strip n) (strip p) (Some (strip t)) (Some (strip e))
                  (Some (strip a))
      \/ exists i, o = Modifier i (strip n) (strip p) (Some (strip t))
                                (Some (strip e)) (Some (strip a))))
  \/ (exists i, o = Supprimer i) ->
  Forall fiche_valide (contacts db) ->
  Forall fiche_valide (contacts (exec o db)).
Proof.
  intros [(n & p & t & e & a & V & [-> | (i & ->)]) | (i & ->)] H;
    cbn [exec].
  - destruct V as (Hn & Hp & He).
    rewrite ajouter_contact_ok by now rewrite strip_idem.
    cbn [snd contacts]. rewrite !strip_idem, !strip_or_none_strip.
    apply Forall_app. split; [assumption|].
    constructor; [|constructor]. now apply fiche_du_formulaire.
  - unfold CarnetAdresses.modifier_contact.
    destruct (id_invalide i); [assumption|].
    destruct V as (Hn & Hp & He).
    rewrite (requis_ok (strip n)), (requis_ok (strip p))
      by now rewrite strip_idem.
    unfold initialiser_base, Sql.update. cbn [snd contacts].
    rewrite !strip_idem, !strip_or_none_strip.
    apply Forall_forall. intros r Hr.
    apply in_map_iff in Hr as (x & <- & Hx). unfold Sql.set.
    destruct (Sql.has_id i x).
    + now apply fiche_du_formulaire.
    + exact (proj1 (Forall_forall _ _) H x Hx).
  - destruct (supprimer_contact_db i db) as [_ I].
    apply Forall_forall. intros r Hr.
    exact (proj1 (Forall_forall _ _) H r (I r Hr)).
Qed.

Lemma jouer_valide (g : Application.geste) (m : Application.monde) :
  Forall fiche_valide (contacts (Application.base m)) ->
  Forall fiche_valide (contacts (Application.base (Application.jouer g m))).
Proof.
  intros H. rewrite jouer_commande.
  destruct (effet_commande (Application.declencheur g)
              (Application.utilisateur g)
              (Application.mkMonde (Application.base m)
                 (Fenetre.mkFenetre (Application.frappe g)
                    (Fenetre.tree (Application.ecran m)))))
    as [[E _] | [[E _] | [_ [E | [(n & p & t & e & a & V & E)
                                 | [(i & n & p & t & e & a & V & E)
                                   | (i & E)]]]]]];
    cbn [Application.base] in E; rewrite E; try assumption;
    apply exec_valide; try assumption.
  - left. exists n, p, t, e, a. split; [assumption | now left].
  - left. exists n, p, t, e, a. split; [assumption | right; now exists i].
  - right. now exists i.
Qed.

Lemma session_valide (gestes : list Application.geste) :
  Forall fiche_valide
    (contacts (Application.base (Application.session gestes empty_db))).
Proof.
  induction gestes as [|g gestes IH] using rev_ind.
  - rewrite session_nil, demarrer_run. constructor.
  - rewrite session_snoc. now apply jouer_valide.
Qed.

(** X17: in an application started on a new database, whatever the
    user types, selects and clicks, every contact of the table has a
    [nom] and a [prenom] that are trimmed and not empty, optional
    fields that are absent or trimmed and not empty, and an email, when
    it has one, of the form [local@domain.tld] of the pattern, with no
    newline after it. *)
Theorem X17_fiches_valides (gestes : list Application.geste) (c : contact) :
  In c (contacts (Application.base (Application.session gestes empty_db))) ->
  fiche_valide c.
Proof.
  intros Hin.
  exact (proj1 (Forall_forall _ _) (session_valide gestes) c Hin).
Qed.

Lemma X17_fiches_valides_witness :
  fiche_valide (mkContact 1 Dupont Jean None (Some (txt "jean@ex.com")) None).
Proof.
  apply (X17_fiches_valides
           [Application.mkGeste
              (Fenetre.mkFormulaire (txt " Dupont") Jean (txt "  ")
                                    (txt "jean@ex.com ") [])
              vue_refus Application.Btn_ajouter]).
  vm_compute. now left.
Defined.

Lemma order_by_incl (l : list contact) : incl (Sql.order_by l) l.
Proof. intros x Hx. exact (Permutation_in _ (order_by_perm l) Hx). Qed.

Lemma session_affichage (gestes : list Application.geste) (db : database) :
  let m := Application.session gestes db in
  StronglySorted ordre (Fenetre.tree (Application.ecran m)) /\
  incl (Fenetre.tree (Application.ecran m)) (contacts (Application.base m)).
Proof.
  cbv zeta. induction gestes as [|g gestes IH] using rev_ind.
  - rewrite session_nil, demarrer_run.
    cbn [Application.base Application.ecran Fenetre.tree].
    split; [apply order_by_sorted | apply order_by_incl].
  - rewrite session_snoc, jouer_commande.
    set (m := Application.session gestes db) in *.
    destruct (effet_commande (Application.declencheur g)
                (Application.utilisateur g)
                (Application.mkMonde (Application.base m)
                   (Fenetre.mkFenetre (Application.frappe g)
                      (Fenetre.tree (Application.ecran m)))))
      as [[E T] | [[E [q T]] | [T _]]];
      cbn [Application.base Application.ecran Fenetre.tree] in *.
    + now rewrite E, T.
    + rewrite E, T. unfold Sql.select_like.
      split; [apply order_by_sorted|].
      intros x Hx. apply order_by_incl in Hx. now apply filter_In in Hx.
    + rewrite T. split; [apply order_by_sorted | apply order_by_incl].
Qed.



Lemma ou_critere (f : Fenetre.formulaire) :
  Application.ou (strip (Fenetre.entry_nom f))
    (Application.ou (strip (Fenetre.entry_telephone f))
                    (strip (Fenetre.entry_email f)))
  = critere_de f.
Proof.
  unfold critere_de, Application.ou.
  destruct (strip (Fenetre.entry_nom f)); [|reflexivity].
  now destruct (strip (Fenetre.entry_telephone f)).
Qed.

Lemma critere_de_rogne (f : Fenetre.formulaire) :
  strip (critere_de f) = critere_de f.
Proof. rewrite <- ou_critere. apply ou_strip3. Qed.

(** When the criterion makes a pattern of more than 50 000 bytes and
    the table has a line, the Search workflow raises
    [OperationalError]: nothing is changed and no box is opened. *)
Lemma rechercher_contact_echec (v : Controller.vue) (m : Application.monde) :
  let critere := critere_de (Fenetre.champs (Application.ecran m)) in
  critere <> [] -> ~ motif_admis critere ->
  contacts (Application.base m) <> [] ->
  Application.rechercher_contact v m
  = (Raise (OperationalError "LIKE or GLOB pattern too complex"), m, []).
Proof.
  cbv zeta. intros Hne Hm Hdb. rewrite rechercher_contact_run. cbv zeta.
  rewrite ou_critere.
  destruct (critere_de (Fenetre.champs (Application.ecran m))) as [|x q] eqn:E;
    [now elim Hne|].
  cbn [truthy negb].
  rewrite execute_select_like_raise; [reflexivity | | exact Hdb].
  rewrite utf8_length_pattern. unfold motif_admis in Hm.
  unfold Sql.max_like_pattern_length. lia.
Qed.

Lemma rechercher_contact_echec_exemple :
  let m := Application.mkMonde db_dupont
             (Fenetre.mkFenetre
                (Fenetre.mkFormulaire critere_trop_long [] [] [] []) []) in
  Application.rechercher_contact vue_refus m
  = (Raise (OperationalError "LIKE or GLOB pattern too complex"), m, []).
Proof.
  intros m. destruct critere_trop_long_spec as (S & Hne & O & _).
  assert (C : critere_de (Fenetre.champs (Application.ecran m))
              = critere_trop_long).
  { unfold critere_de, m.
    cbn [Application.ecran Fenetre.champs Fenetre.entry_nom]. rewrite S.
    destruct critere_trop_long; [now elim Hne | reflexivity]. }
  apply rechercher_contact_echec.
  - now rewrite C.
  - rewrite C. unfold motif_admis. rewrite O. lia.
  - discriminate.
Qed.

(** X19: as long as the criterion makes a pattern of at most 50 000
    bytes, or the table is empty, the Search workflow never raises and
    changes neither the database nor the form.  Its criterion is the
    trimmed [nom], or when that is empty the trimmed [telephone], or
    when that is empty too the trimmed [email].  With an empty
    criterion, or when the model finds nothing, it opens an error box
    and leaves the list as it was; else it shows what the model found
    and opens no box. *)
Theorem X19_rechercher (v : Controller.vue) (m : Application.monde) :
  let f := Fenetre.champs (Application.ecran m) in
  let critere :=
    match strip (Fenetre.entry_nom f), strip (Fenetre.entry_telephone f) with
    | _ :: _, _ => strip (Fenetre.entry_nom f)
    | [], _ :: _ => strip (Fenetre.entry_telephone f)
    | [], [] => strip (Fenetre.entry_email f)
    end in
  motif_admis critere \/ contacts (Application.base m) = [] ->
  exists arbre boites,
    Application.rechercher_contact v m
    = (Ok tt,
       Application.mkMonde (Application.base m) (Fenetre.mkFenetre f arbre),
       boites) /\
    (critere = [] ->
     arbre = Fenetre.tree (Application.ecran m) /\
     boites = [Application.Erreur
                 "Erreur" "Le critère de recherche est obligatoire"]) /\
    (critere <> [] ->
     exists l,
       CarnetAdresses.rechercher_contact critere (Application.base m)
       = (Ok l, Application.base m) /\
       (l = [] ->
        arbre = Fenetre.tree (Application.ecran m) /\
        boites = [Application.Erreur "Erreur" "Aucun contact trouvé"]) /\
       (l <> [] -> arbre = l /\ boites = [])).
Proof.
  intros f critere Hm. rewrite rechercher_contact_run. fold f.
  rewrite (ou_critere f). change (critere_de f) with critere.
  assert (Rc : strip critere = critere) by apply critere_de_rogne.
  clearbody critere.
  assert (M : Application.mkMonde (Application.base m)
                (Fenetre.mkFenetre f (Fenetre.tree (Application.ecran m)))
              = m) by (destruct m as [b [c a]]; reflexivity).
  destruct critere as [|x q].
  - cbn [truthy negb]. do 2 eexists. split; [now rewrite M|].
    split; [auto | intros H; now elim H].
  - cbn [truthy negb].
    assert (E : Sql.execute_select_like (Application.base m)
                  (txt "%" ++ (x :: q) ++ txt "%")
                  (txt "%" ++ (x :: q) ++ txt "%")
                  (txt "%" ++ (x :: q) ++ txt "%")
                = Ok (Sql.select_like (Application.base m)
                        (txt "%" ++ (x :: q) ++ txt "%")
                        (txt "%" ++ (x :: q) ++ txt "%")
                        (txt "%" ++ (x :: q) ++ txt "%"))).
    { apply execute_select_like_sur.
      destruct Hm as [Hm | Hm]; [left | now right].
      rewrite utf8_length_pattern. exact Hm. }
    assert (R : CarnetAdresses.rechercher_contact (x :: q) (Application.base m)
                = (Ok (Sql.select_like (Application.base m)
                         (txt "%" ++ (x :: q) ++ txt "%")
                         (txt "%" ++ (x :: q) ++ txt "%")
                         (txt "%" ++ (x :: q) ++ txt "%")),
                   Application.base m)).
    { unfold CarnetAdresses.rechercher_contact. rewrite Rc.
      cbn [truthy negb orb]. cbv zeta. unfold initialiser_base.
      now rewrite E. }
    rewrite E.
    destruct (Sql.select_like (Application.base m)
                (txt "%" ++ (x :: q) ++ txt "%")
                (txt "%" ++ (x :: q) ++ txt "%")
                (txt "%" ++ (x :: q) ++ txt "%")) as [|c l].
    + do 2 eexists. split; [now rewrite M|].
      split; [discriminate|].
      intros _. exists []. split; [exact R|].
      split; [auto | intros H; now elim H].
    + do 2 eexists. split; [reflexivity|].
      split; [discriminate|].
      intros _. exists (c :: l). split; [exact R|].
      split; [discriminate | auto].
Qed.

Lemma X19_rechercher_witness :
  let m := Application.mkMonde db_dupont
             (Fenetre.mkFenetre
                (Fenetre.mkFormulaire [] (txt "x") (txt " 0102 ") [] []) []) in
  exists arbre boites,
    Application.rechercher_contact vue_refus m
    = (Ok tt,
       Application.mkMonde db_dupont
         (Fenetre.mkFenetre (Fenetre.champs (Application.ecran m)) arbre),
       boites) /\
    arbre = contacts db_dupont /\ boites = [].
Proof.
  intros m.
  destruct (X19_rechercher vue_refus m) as (arbre & boites & E & _ & H).
  - left. vm_compute. discriminate.
  - exists arbre, boites. split; [exact E|].
    destruct H as (l & R & _ & Hl); [vm_compute; discriminate|].
    vm_compute in R. injection R as <-. apply Hl. discriminate.
Defined.

(** X20: the Load-for-edit workflow never touches the database or the
    list.  With nothing selected it opens an error box and leaves the
    form; with a positive id selected it replaces what the form held by
    the fields of the contact that [obtenir_contact_par_id] returns,
    absent fields shown empty; when no line has the selected id it
    raises [TypeError] and leaves the form emptied. *)
Theorem X20_charger_contact_selection
    (v : Controller.vue) (m : Application.monde) (i : Z) :
  0 < i ->
  (Controller.selection v = None ->
   Application.charger_contact_selection v m
   = (Ok tt, m, [Application.Erreur "Erreur" "Aucun contact sélectionné"]))
  /\
  (Controller.selection v = Some i ->
   forall r,
     CarnetAdresses.obtenir_contact_par_id i (Application.base m)
     = (Ok r, Application.base m) ->
     let arbre := Fenetre.tree (Application.ecran m) in
     match r with
     | Some c =>
         Application.charger_contact_selection v m
         = (Ok tt,
            Application.mkMonde (Application.base m)
                                (Fenetre.mkFenetre (formulaire_de c) arbre),
            [])
     | None =>
         exists message,
           Application.charger_contact_selection v m
           = (Raise (TypeError message),
              Application.mkMonde (Application.base m)
                                  (Fenetre.mkFenetre formulaire_vide arbre),
              [])
     end).
Proof.
  intros Hi. rewrite charger_contact_selection_run. split.
  - intros ->. reflexivity.
  - intros -> r. cbn [Controller.pas_de_selection].
    rewrite (proj2 (Z.eqb_neq i 0)) by lia.
    unfold CarnetAdresses.obtenir_contact_par_id.
    rewrite (id_invalide_pos _ Hi).
    unfold initialiser_base, Sql.select_by_id.
    destruct (filter (Sql.has_id i) (contacts (Application.base m)))
      as [|c l]; cbn [Sql.fetchone]; intros H; injection H as <-; cbv zeta.
    + eexists. reflexivity.
    + reflexivity.
Qed.

Lemma X20_charger_contact_selection_witness :
  let m := Application.mkMonde db_dupont
             (Fenetre.mkFenetre (Fenetre.mkFormulaire Jean Jean Jean Jean Jean)
                                (contacts db_dupont)) in
  (Controller.selection vue_refus = None ->
   Application.charger_contact_selection vue_refus m
   = (Ok tt, m, [Application.Erreur "Erreur" "Aucun contact sélectionné"]))
  /\
  (Controller.selection vue_refus = Some 1 ->
   forall r,
     CarnetAdresses.obtenir_contact_par_id 1 (Application.base m)
     = (Ok r, Application.base m) ->
     let arbre := Fenetre.tree (Application.ecran m) in
     match r with
     | Some c =>
         Application.charger_contact_selection vue_refus m
         = (Ok tt,
            Application.mkMonde (Application.base m)
                                (Fenetre.mkFenetre (formulaire_de c) arbre),
            [])
     | None =>
         exists message,
           Application.charger_contact_selection vue_refus m
           = (Raise (TypeError message),
              Application.mkMonde (Application.base m)
                                  (Fenetre.mkFenetre formulaire_vide arbre),
              [])
     end).
Proof.
  intros m. apply (X20_charger_contact_selection vue_refus m 1). lia.
Defined.

(** X21: the Update workflow does not tell a missing contact from a
    modified one.  With a valid form and a positive selected id that no
    line of the table has, it changes nothing in the database and still
    opens the box "Contact modifié avec succès", empties the form and
    shows the whole table. *)
Theorem X21_modifier_contact_inconnu
    (v : Controller.vue) (m : Application.monde) (i : Z) :
  let f := Fenetre.champs (Application.ecran m) in
  let db := Application.base m in
  Controller.selection v = Some i -> 0 < i ->
  (forall r, In r (contacts db) -> c_id r <> i) ->
  strip (Fenetre.entry_nom f) <> [] ->
  strip (Fenetre.entry_prenom f) <> [] ->
  Controller.valider_email (strip (Fenetre.entry_email f)) = true ->
  Application.modifier_contact v m
  = (Ok tt,
     Application.mkMonde
       db (Fenetre.mkFenetre formulaire_vide (Sql.order_by (contacts db))),
     [Application.Info "Succès" "Contact modifié avec succès"]).
Proof.
  intros f db Hs Hi Habs Hn Hp He. rewrite modifier_contact_run. fold f db.
  rewrite Hs. cbn [Controller.pas_de_selection].
  rewrite (proj2 (Z.eqb_neq i 0)) by lia. cbv zeta.
  apply truthy_strip in Hn, Hp. rewrite Hn, Hp, He. cbn [negb orb].
  rewrite (id_invalide_pos _ Hi).
  rewrite (update_untouched i _ _ _ _ _ _ (filter_has_id_nil i _ Habs)).
  now rewrite db_eta.
Qed.

Lemma X21_modifier_contact_inconnu_witness :
  let m := Application.mkMonde db_dupont
             (Fenetre.mkFenetre (Fenetre.mkFormulaire Jean Dupont [] [] [])
                                []) in
  Application.modifier_contact (Controller.mkVue (Some 7) false) m
  = (Ok tt,
     Application.mkMonde
       db_dupont
       (Fenetre.mkFenetre formulaire_vide (Sql.order_by (contacts db_dupont))),
     [Application.Info "Succès" "Contact modifié avec succès"]).
Proof.
  intros m.
  apply (X21_modifier_contact_inconnu (Controller.mkVue (Some 7) false) m 7);
    try reflexivity; try lia; try (vm_compute; discriminate).
  intros r [<- | []]. vm_compute. discriminate.
Defined.

Lemma meme_id_meme_ligne (l : list contact) (r c : contact) :
  NoDup (map c_id l) -> In r l -> In c l -> c_id r = c_id c -> r = c.
Proof.
  intros Hnd Hr Hc E.
  pose proof (select_unique l c Hnd Hc) as S.
  assert (Hf : In r (filter (Sql.has_id (c_id c)) l))
    by (apply filter_In; split; [assumption | now apply Z.eqb_eq]).
  rewrite S in Hf. destruct Hf as [<- | []]. reflexivity.
Qed.

Lemma champ_opt_retour (o : option text) :
  champ_opt o -> absent_si_vide (strip (Fenetre.ou_vide o)) = o.
Proof.
  destruct o as [[|x s]|]; simpl; [intros [H _]; now elim H | | reflexivity].
  intros [_ R]. unfold rogne in R. now rewrite R.
Qed.

Lemma forme_email_champ (e : text) : forme_email e -> champ_opt (Some e).
Proof.
  intros F. split; [|now apply forme_email_rogne].
  destruct F as (l & d & t & -> & Hl & _).
  destruct l; [simpl in Hl; lia | discriminate].
Qed.

(** A contact that the workflows stored passes their checks again when
    it is put back in the form. *)
Lemma fiche_valide_retour (c : contact) :
  fiche_valide c ->
  strip (c_nom c) = c_nom c /\ strip (c_prenom c) = c_prenom c /\
  absent_si_vide (strip (Fenetre.ou_vide (c_telephone c))) = c_telephone c /\
  absent_si_vide (strip (Fenetre.ou_vide (c_email c))) = c_email c /\
  absent_si_vide (strip (Fenetre.ou_vide (c_adresse c))) = c_adresse c /\
  Controller.valider_email (strip (Fenetre.ou_vide (c_email c))) = true.
Proof.
  intros (Hn & Rn & Hp & Rp & Ht & He & Ha).
  assert (Ce : champ_opt (c_email c))
    by (destruct (c_email c); [now apply forme_email_champ | exact I]).
  repeat split; try assumption; try now apply champ_opt_retour.
  destruct (c_email c) as [e|]; [|reflexivity].
  destruct Ce as [Hne Re]. destruct e as [|x e]; [now elim Hne|].
  cbn [Fenetre.ou_vide truthy]. unfold rogne in Re. rewrite Re.
  apply valider_email_spec. auto.
Qed.

(** X22: in an application started on a new database, a double click
    on a contact of the table fills the form with it, and a click on
    Modifier right after, nothing retyped, leaves the database exactly
    as it was. *)
Theorem X22_charger_puis_modifier
    (gestes : list Application.geste) (v : Controller.vue) (c : contact)
    (f0 : Fenetre.formulaire) :
  let m := Application.session gestes empty_db in
  In c (contacts (Application.base m)) ->
  Controller.selection v = Some (c_id c) ->
  let m1 := Application.jouer
              (Application.mkGeste f0 v Application.Double_clic) m in
  let m2 := Application.jouer
              (Application.mkGeste (Fenetre.champs (Application.ecran m1)) v
                                   Application.Btn_modifier) m1 in
  Fenetre.champs (Application.ecran m1) = formulaire_de c /\
  Application.base m2 = Application.base m.
Proof.
  intros m Hin Hs.
  destruct (session_run gestes empty_db) as [ops Eops]. fold m in Eops.
  pose proof (run_ok ops empty_db empty_db_ok) as Hok.
  pose proof (run_ids_distincts ops) as Hnd.
  rewrite <- Eops in Hok, Hnd.
  pose proof (proj1 (Forall_forall _ _) Hok c Hin) as Hc. cbv beta in Hc.
  pose proof (proj1 (Forall_forall _ _) (session_valide gestes) c Hin) as Hv.
  fold m in Hv.
  assert (Hi : 0 < c_id c) by lia.
  assert (E1 : Application.jouer
                 (Application.mkGeste f0 v Application.Double_clic) m
               = Application.mkMonde
                   (Application.base m)
                   (Fenetre.mkFenetre (formulaire_de c)
                                      (Fenetre.tree (Application.ecran m)))).
  { rewrite jouer_commande.
    cbn [Application.declencheur Application.utilisateur Application.frappe
         Application.commande].
    rewrite charger_contact_selection_run, Hs.
    cbn [Controller.pas_de_selection].
    rewrite (proj2 (Z.eqb_neq (c_id c) 0)) by lia. cbv zeta.
    rewrite (id_invalide_pos _ Hi).
    cbn [Application.base Application.ecran Fenetre.tree].
    now rewrite (select_unique _ _ Hnd Hin). }
  cbv zeta. rewrite E1.
  cbn [Application.ecran Fenetre.champs]. split; [reflexivity|].
  rewrite jouer_commande.
  cbn [Application.declencheur Application.utilisateur Application.frappe
       Application.commande Application.base Application.ecran Fenetre.tree].
  rewrite modifier_contact_run, Hs.
  cbn [Controller.pas_de_selection].
  rewrite (proj2 (Z.eqb_neq (c_id c) 0)) by lia. cbv zeta.
  cbn [Application.base Application.ecran Fenetre.champs formulaire_de
       Fenetre.entry_nom Fenetre.entry_prenom Fenetre.entry_telephone
       Fenetre.entry_email Fenetre.text_adresse].
  destruct (fiche_valide_retour c Hv) as (Rn & Rp & Rt & Re & Ra & Ve).
  destruct Hv as (Hn & _ & Hp & _).
  rewrite Rn, Rp, Rt, Re, Ra, Ve.
  assert (Tn : truthy (c_nom c) = true)
    by (destruct (c_nom c) eqn:En; [contradiction | reflexivity]).
  assert (Tp : truthy (c_prenom c) = true)
    by (destruct (c_prenom c) eqn:Ep; [contradiction | reflexivity]).
  rewrite Tn, Tp. cbn [negb orb]. rewrite (id_invalide_pos _ Hi).
  cbn [fst snd Application.base].
  rewrite <- (db_eta (Application.base m)) at 3. f_equal.
  rewrite <- (map_id (contacts (Application.base m))) at 2.
  apply map_ext_in. intros r Hr. unfold Sql.set.
  destruct (Sql.has_id (c_id c) r) eqn:Er; [|reflexivity].
  apply Z.eqb_eq in Er.
  rewrite (meme_id_meme_ligne _ r c Hnd Hr Hin Er). now destruct c.
Qed.

Lemma X22_charger_puis_modifier_witness :
  let gestes :=
    [Application.mkGeste
       (Fenetre.mkFormulaire Dupont Jean [] (txt "jean@ex.com") (txt "1 rue X"))
       vue_refus Application.Btn_ajouter] in
  let c := mkContact 1 Dupont Jean None (Some (txt "jean@ex.com"))
                     (Some (txt "1 rue X")) in
  let m := Application.session gestes empty_db in
  let m1 := Application.jouer
              (Application.mkGeste formulaire_vide vue_refus
                                   Application.Double_clic) m in
  let m2 := Application.jouer
              (Application.mkGeste (Fenetre.champs (Application.ecran m1))
                                   vue_refus Application.Btn_modifier) m1 in
  Fenetre.champs (Application.ecran m1) = formulaire_de c /\
  Application.base m2 = Application.base m.
Proof.
  intros gestes c.
  apply (X22_charger_puis_modifier gestes vue_refus c formulaire_vide).
  - vm_compute. now left.
  - reflexivity.
Defined.

(** X23: the Delete workflow, with a positive id selected that a line
    of the table has and the answer yes, asks once, removes the lines
    with that id and no other, empties the form, shows what is left of
    the table in order and opens the success box. *)
Theorem X23_supprimer_confirme
    (v : Controller.vue) (m : Application.monde) (i : Z) :
  let db := Application.base m in
  Controller.selection v = Some i -> 0 < i ->
  (exists c, In c (contacts db) /\ c_id c = i) ->
  Controller.reponse v = true ->
  exists db' question,
    Application.supprimer_contact v m
    = (Ok tt,
       Application.mkMonde
         db' (Fenetre.mkFenetre formulaire_vide (Sql.order_by (contacts db'))),
       [Application.Question "Confirmation" question;
        Application.Info "Succès" "Contact supprimé avec succès"]) /\
    CarnetAdresses.supprimer_contact i db = (Ok true, db') /\
    (forall r, In r (contacts db') <-> In r (contacts db) /\ c_id r <> i).
Proof.
  intros db Hs Hi (c & Hin & Hid) Hr. rewrite supprimer_contact_run. fold db.
  rewrite Hs. cbn [Controller.pas_de_selection].
  rewrite (proj2 (Z.eqb_neq i 0)) by lia. cbv zeta.
  rewrite (id_invalide_pos _ Hi), Hr.
  unfold CarnetAdresses.supprimer_contact. rewrite (id_invalide_pos _ Hi).
  unfold initialiser_base, Sql.delete.
  destruct (filter_has_id_cons i _ _ Hin Hid) as (x & rest & E). rewrite E.
  exists (mkDb (filter (fun r => negb (Sql.has_id i r)) (contacts db))
               (sqlite_sequence db)).
  eexists. split; [reflexivity|]. split; [reflexivity|].
  intros r. cbn [contacts]. rewrite filter_In, negb_true_iff.
  unfold Sql.has_id. now rewrite Z.eqb_neq.
Qed.

Lemma X23_supprimer_confirme_witness :
  let m := Application.mkMonde db_dupont
             (Fenetre.mkFenetre formulaire_vide (contacts db_dupont)) in
  exists db' question,
    Application.supprimer_contact (Controller.mkVue (Some 1) true) m
    = (Ok tt,
       Application.mkMonde
         db' (Fenetre.mkFenetre formulaire_vide (Sql.order_by (contacts db'))),
       [Application.Question "Confirmation" question;
        Application.Info "Succès" "Contact supprimé avec succès"]) /\
    CarnetAdresses.supprimer_contact 1 db_dupont = (Ok true, db') /\
    (forall r, In r (contacts db') <-> In r (contacts db_dupont) /\ c_id r <> 1).
Proof.
  intros m.
  apply (X23_supprimer_confirme (Controller.mkVue (Some 1) true) m 1);
    try reflexivity; try lia.
  eexists. split; [left; reflexivity | reflexivity].
Defined.

(** X24: in an application started on a new database, no workflow
    raises as long as nothing is selected or the selected id is the id
    of a line shown in the list, and as long as a search is made with a
    criterion whose pattern has at most 50 000 bytes, or on an empty
    table: the [ValueError] of the model and the [TypeError] on a
    missing contact cannot reach the user. *)
Theorem X24_aucune_exception
    (gestes : list Application.geste) (g : Application.geste) :
  let m := Application.session gestes empty_db in
  let selection := Controller.selection (Application.utilisateur g) in
  selection = None
  \/ (exists c, In c (Fenetre.tree (Application.ecran m)) /\
                selection = Some (c_id c)) ->
  (Application.declencheur g = Application.Btn_rechercher ->
   motif_admis (critere_de (Application.frappe g))
   \/ contacts (Application.base m) = []) ->
  fst (fst (Application.lancer g m)) = Ok tt.
Proof.
  intros m selection Hsel Hrech.
  destruct (session_run gestes empty_db) as [ops Eops]. fold m in Eops.
  pose proof (run_ok ops empty_db empty_db_ok) as Hok.
  rewrite <- Eops in Hok.
  destruct (session_affichage gestes empty_db) as [_ Hincl]. fold m in Hincl.
  assert (Cas : selection = None
                \/ exists c, In c (contacts (Application.base m)) /\
                             selection = Some (c_id c) /\ 0 < c_id c).
  { destruct Hsel as [H | (c & Hc & H)]; [now left | right].
    exists c. pose proof (Hincl c Hc) as Hin.
    pose proof (proj1 (Forall_forall _ _) Hok c Hin) as B. cbv beta in B.
    repeat split; [assumption | assumption | lia]. }
  clear Hsel. unfold selection in Cas.
  assert (Sel : forall c,
             In c (contacts (Application.base m)) -> 0 < c_id c ->
             Controller.pas_de_selection (Some (c_id c)) = false /\
             id_invalide (c_id c) = false /\
             exists x l,
               filter (Sql.has_id (c_id c)) (contacts (Application.base m))
               = x :: l).
  { intros c Hin Hpos. cbn [Controller.pas_de_selection].
    rewrite (proj2 (Z.eqb_neq (c_id c) 0)) by lia.
    split; [reflexivity|]. split; [now apply id_invalide_pos|].
    exact (filter_has_id_cons (c_id c) _ c Hin eq_refl). }
  unfold Application.lancer.
  destruct (Application.declencheur g) eqn:Ed; cbn [Application.commande].
  - rewrite ajouter_contact_run. cbv zeta.
    repeat match goal with
           | |- context [if ?b then _ else _] => destruct b
           end; reflexivity.
  - rewrite rechercher_contact_run. cbv zeta.
    cbn [Application.base Application.ecran Fenetre.champs].
    rewrite ou_critere.
    destruct (negb (truthy (critere_de (Application.frappe g))));
      [reflexivity|].
    rewrite execute_select_like_sur.
    + now destruct (Sql.select_like _ _ _ _).
    + destruct (Hrech eq_refl) as [H | H]; [left | now right].
      rewrite utf8_length_pattern. exact H.
  - rewrite modifier_contact_run. cbv zeta.
    cbn [Application.base Application.ecran].
    destruct Cas as [-> | (c & Hin & -> & Hpos)]; [reflexivity|].
    destruct (Sel c Hin Hpos) as (-> & -> & _).
    repeat match goal with
           | |- context [if ?b then _ else _] => destruct b
           end; reflexivity.
  - rewrite supprimer_contact_run. cbv zeta.
    cbn [Application.base Application.ecran].
    destruct Cas as [-> | (c & Hin & -> & Hpos)]; [reflexivity|].
    destruct (Sel c Hin Hpos) as (-> & -> & x & l & ->).
    destruct (Controller.reponse _); reflexivity.
  - now rewrite afficher_tous_run.
  - rewrite charger_contact_selection_run. cbv zeta.
    cbn [Application.base Application.ecran].
    destruct Cas as [-> | (c & Hin & -> & Hpos)]; [reflexivity|].
    now destruct (Sel c Hin Hpos) as (-> & -> & x & l & ->).
Qed.

Lemma X24_aucune_exception_witness :
  let gestes :=
    [Application.mkGeste (Fenetre.mkFormulaire Dupont Jean [] [] [])
                         vue_refus Application.Btn_ajouter] in
  let g := Application.mkGeste formulaire_vide
                               (Controller.mkVue (Some 1) true)
                               Application.Btn_supprimer in
  fst (fst (Application.lancer g (Application.session gestes empty_db)))
  = Ok tt.
Proof.
  intros gestes g. apply (X24_aucune_exception gestes g).
  - right. exists (mkContact 1 Dupont Jean None None None).
    split; [vm_compute; now left | reflexivity].
  - intros H. discriminate H.
Defined.

(** X25: the List-all workflow, which also runs when the application
    starts, never raises, opens no box and changes neither the database
    nor the form: it puts in the list every line of the table, each
    once, ordered by ([nom], [prenom]). *)
Theorem X25_afficher_tous (v : Controller.vue) (m : Application.monde) :
  exists l,
    Application.afficher_tous v m
    = (Ok tt,
       Application.mkMonde
         (Application.base m)
         (Fenetre.mkFenetre (Fenetre.champs (Application.ecran m)) l),
       []) /\
    Application.demarrer (Application.base m)
    = Application.mkMonde (Application.base m)
                          (Fenetre.mkFenetre formulaire_vide l) /\
    Permutation l (contacts (Application.base m)) /\
    StronglySorted ordre l.
Proof.
  exists (Sql.order_by (contacts (Application.base m))).
  split; [apply afficher_tous_run|]. split; [apply demarrer_run|].
  split; [apply order_by_perm | apply order_by_sorted].
Qed.

Lemma X25_afficher_tous_witness :
  let m := Application.mkMonde (run ops_desordre empty_db)
                               (Fenetre.mkFenetre formulaire_vide []) in
  exists l,
    Application.afficher_tous vue_refus m
    = (Ok tt,
       Application.mkMonde
         (Application.base m)
         (Fenetre.mkFenetre (Fenetre.champs (Application.ecran m)) l),
       []) /\
    Application.demarrer (Application.base m)
    = Application.mkMonde (Application.base m)
                          (Fenetre.mkFenetre formulaire_vide l) /\
    Permutation l (contacts (Application.base m)) /\
    StronglySorted ordre l.
Proof. intros m. exact (X25_afficher_tous vue_refus m). Defined.

(** The Delete workflow on the window and the Delete workflow of
    [Controller] are the same workflow: same result, same database. *)
Lemma supprimer_contact_accord (v : Controller.vue) (m : Application.monde) :
  let a := Application.supprimer_contact v m in
  let c := Controller.supprimer_contact v (Application.base m) in
  fst (fst a) = fst (fst c) /\
  Application.base (snd (fst a)) = snd (fst c).
Proof.
  cbv zeta. rewrite supprimer_contact_run.
  unfold Controller.supprimer_contact, Controller.bind,
    Controller.get_selection.
  destruct (Controller.pas_de_selection (Controller.selection v));
    [split; reflexivity|].
  cbv zeta.
  set (i := match Controller.selection v with Some i => i | None => 0 end).
  unfold Controller.modele, CarnetAdresses.obtenir_contact_par_id.
  destruct (id_invalide i) eqn:Hi; [split; reflexivity|].
  unfold initialiser_base, Sql.select_by_id.
  destruct (filter (Sql.has_id i) (contacts (Application.base m)))
    as [|x l]; cbn [Sql.fetchone Controller.indices_1_2 Controller.raise
                    Controller.ret]; [split; reflexivity|].
  unfold Controller.message_confirmation.
  destruct (Controller.reponse v); cbn [negb]; [|split; reflexivity].
  unfold Controller.afficher_tous, Controller.bind, Controller.modele,
    Controller.vue_appel, CarnetAdresses.supprimer_contact,
    CarnetAdresses.afficher_tous.
  rewrite Hi. split; reflexivity.
Qed.

End Sessions.
